(** * Social-Bee server: the engagement core

    A shallow embedding of the models, controllers and middleware of the
    server (models/Interaction.js, models/Post.js, models/User.js,
    middleware/rateLimit.js, config/dynamodb.js and the controllers that call
    them), and the properties of the engagement core stated over it.

    The backing store is modelled as a record of tables, each a finite map
    from the table's partition key to a typed item.  Every asynchronous call
    of the source is one step of a state-and-exception monad over that
    record; the clock and the UUID generator are inputs of the functions
    that read them. *)

From stdpp Require Import gmap strings list.
From Stdlib Require Import ZArith Lia.
From Stdlib Require DecimalFacts DecimalZ.

Local Open Scope string_scope.

(** ** Items, as the models write them *)

(** A row of the Interactions table (models/Interaction.js, [interactionItem];
    models/Post.js, [interactionItem] of [like]).  [content] is absent on the
    rows written by [Post.like]; [parentId] is [None] for JS [null]. *)
Module InteractionItem.
Record t := Build {
  interactionId : string;
  type : string;
  userId : string;
  contentId : string;
  content : option string;
  parentId : option string;
  timestamp : Z
}.
End InteractionItem.

(** An item of the Posts table (models/Post.js, [postItem]).  An [ADD] on a
    key that holds no item creates an item with the key and the counter
    only, hence the optional attributes. *)
Module PostItem.
Record t := Build {
  postId : string;
  userId : option string;
  content : option string;
  mediaUrls : list string;
  mediaType : option string;
  likesCount : option Z;
  commentsCount : option Z;
  sharesCount : option Z;
  tags : list string;
  timestamp : option Z
}.

(** the item that holds nothing but its key *)
Definition blank (k : string) : t :=
  Build k None None [] None None None None [] None.

Definition set_likesCount (n : option Z) (p : t) : t :=
  Build (postId p) (userId p) (content p) (mediaUrls p) (mediaType p)
        n (commentsCount p) (sharesCount p) (tags p) (timestamp p).
Definition set_commentsCount (n : option Z) (p : t) : t :=
  Build (postId p) (userId p) (content p) (mediaUrls p) (mediaType p)
        (likesCount p) n (sharesCount p) (tags p) (timestamp p).
Definition set_sharesCount (n : option Z) (p : t) : t :=
  Build (postId p) (userId p) (content p) (mediaUrls p) (mediaType p)
        (likesCount p) (commentsCount p) n (tags p) (timestamp p).
End PostItem.

(** An item of the Users table (models/User.js, [userItem]).  [passwordHash]
    distinguishes the absent attribute ([None]), JS [null] ([Some None]) and a
    stored hash.  [following] and [followers] are the array that [create]
    writes, or the string set that an [ADD] makes of an attribute that is
    absent or a set; the absent attribute is the empty set. *)
Module UserItem.
Inductive ids :=
| Array (elements : list string)
| StringSet (members : gset string).

Record t := Build {
  userId : string;
  username : option string;
  email : option string;
  passwordHash : option (option string);
  profilePicture : option string;
  bio : option string;
  following : ids;
  followers : ids;
  createdAt : option Z;
  updatedAt : option Z
}.

Definition blank (k : string) : t :=
  Build k None None None None None (StringSet ∅) (StringSet ∅) None None.

Definition set_following (s : ids) (u : t) : t :=
  Build (userId u) (username u) (email u) (passwordHash u) (profilePicture u)
        (bio u) s (followers u) (createdAt u) (updatedAt u).
Definition set_followers (s : ids) (u : t) : t :=
  Build (userId u) (username u) (email u) (passwordHash u) (profilePicture u)
        (bio u) (following u) s (createdAt u) (updatedAt u).
(** JS [delete user.passwordHash] *)
Definition delete_passwordHash (u : t) : t :=
  Build (userId u) (username u) (email u) None (profilePicture u)
        (bio u) (following u) (followers u) (createdAt u) (updatedAt u).
End UserItem.

(** An item of the Stories table (models/Story.js, [storyItem]); reels live in
    the same table. *)
Module StoryItem.
Record t := Build {
  contentId : string;
  contentType : string;
  userId : string;
  mediaUrl : string;
  mediaType : string;
  caption : string;
  viewers : list string;
  timestamp : Z;
  expiryTime : Z
}.
End StoryItem.

(** An item of the Notifications table (models/Notification.js). *)
Module NotificationItem.
Record t := Build {
  notificationId : string;
  recipientId : string;
  senderId : string;
  type : string;
  contentId : option string;
  contentType : option string;
  message : string;
  read : bool;
  timestamp : Z
}.
End NotificationItem.

(** The message object the controllers hand to SNS and to socket.io
    ([notificationMessage]).  [recipientId] is [None] when the controller
    read it from an item without that attribute (JS [undefined]). *)
Module NotificationMessage.
Record t := Build {
  type : string;
  senderId : string;
  recipientId : option string;
  contentId : string;
  contentType : string;
  message : string;
  timestamp : Z
}.
End NotificationMessage.

(** An item of the rate limiting table (middleware/rateLimit.js, [putParams]). *)
Module RateItem.
Record t := Build {
  id : string;
  count : Z;
  timestamp : Z;
  expiryTime : Z
}.
Definition set_count (n : Z) (r : t) : t :=
  Build (id r) n (timestamp r) (expiryTime r).
End RateItem.

(** ** The world outside the process *)

(** The tables, the two notification channels (what was published to the SNS
    topic, what was emitted to which socket.io room, [None] for a room that
    is JS [undefined]), and [faults]: the
    schedule of the remote calls to come, [true] for a call that the remote
    side refuses.  An exhausted schedule refuses nothing. *)
Record world := World {
  users : gmap string UserItem.t;
  posts : gmap string PostItem.t;
  interactions : gmap string InteractionItem.t;
  stories : gmap string StoryItem.t;
  notifications : gmap string NotificationItem.t;
  rateLimiting : gmap string RateItem.t;
  published : list NotificationMessage.t;
  emitted : list (option string * NotificationMessage.t);
  faults : list bool
}.

Definition empty_world : world := World ∅ ∅ ∅ ∅ ∅ ∅ [] [] [].

Definition set_users (m : gmap string UserItem.t) (w : world) : world :=
  World m (posts w) (interactions w) (stories w) (notifications w)
        (rateLimiting w) (published w) (emitted w) (faults w).
Definition set_posts (m : gmap string PostItem.t) (w : world) : world :=
  World (users w) m (interactions w) (stories w) (notifications w)
        (rateLimiting w) (published w) (emitted w) (faults w).
Definition set_interactions (m : gmap string InteractionItem.t) (w : world) : world :=
  World (users w) (posts w) m (stories w) (notifications w)
        (rateLimiting w) (published w) (emitted w) (faults w).
Definition set_stories (m : gmap string StoryItem.t) (w : world) : world :=
  World (users w) (posts w) (interactions w) m (notifications w)
        (rateLimiting w) (published w) (emitted w) (faults w).
Definition set_notifications (m : gmap string NotificationItem.t) (w : world) : world :=
  World (users w) (posts w) (interactions w) (stories w) m
        (rateLimiting w) (published w) (emitted w) (faults w).
Definition set_rateLimiting (m : gmap string RateItem.t) (w : world) : world :=
  World (users w) (posts w) (interactions w) (stories w) (notifications w)
        m (published w) (emitted w) (faults w).
Definition set_published (l : list NotificationMessage.t) (w : world) : world :=
  World (users w) (posts w) (interactions w) (stories w) (notifications w)
        (rateLimiting w) l (emitted w) (faults w).
Definition set_emitted (l : list (option string * NotificationMessage.t)) (w : world) : world :=
  World (users w) (posts w) (interactions w) (stories w) (notifications w)
        (rateLimiting w) (published w) l (faults w).
Definition set_faults (l : list bool) (w : world) : world :=
  World (users w) (posts w) (interactions w) (stories w) (notifications w)
        (rateLimiting w) (published w) (emitted w) l.

(** ** Asynchronous code: state and exceptions *)

Inductive exn :=
| Error (message : string)          (* [throw new Error(message)] *)
| TypeError (message : string)      (* a property read on [undefined] or [null] *)
| SyntaxError (message : string)    (* [JSON.parse] *)
| ConditionalCheckFailedException   (* a [ConditionExpression] that does not hold *)
| ValidationException               (* a request that the store refuses as it stands *)
| TransactionCanceledException
| ServiceUnavailable.               (* the remote side refused the call *)

Inductive res (A : Type) :=
| Ok (a : A)
| Throw (e : exn).
Arguments Ok {A} a.
Arguments Throw {A} e.

Definition M (A : Type) : Type := world → res A * world.

Definition ret {A} (a : A) : M A := λ w, (Ok a, w).
Definition throw {A} (e : exn) : M A := λ w, (Throw e, w).
Definition bind {A B} (m : M A) (k : A → M B) : M B :=
  λ w, match m w with
       | (Ok a, w') => k a w'
       | (Throw e, w') => (Throw e, w')
       end.
(** [try { m } catch (e) { h }] *)
Definition try_catch {A} (m : M A) (h : exn → M A) : M A :=
  λ w, match m w with
       | (Ok a, w') => (Ok a, w')
       | (Throw e, w') => h e w'
       end.

Notation "'let*' x ':=' m 'in' k" := (bind m (λ x, k))
  (at level 10, x pattern, m at level 100, k at level 200).

Definition result {A} (m : M A) (w : world) : res A := (m w).1.
Definition after {A} (m : M A) (w : world) : world := (m w).2.

(** One call to a remote service: it consumes the head of the fault schedule
    and, when that is [true], throws and leaves the remote state as it was. *)
Definition remote {A} (body : M A) : M A :=
  λ w, match faults w with
       | true :: fs => (Throw ServiceUnavailable, set_faults fs w)
       | false :: fs => body (set_faults fs w)
       | [] => body w
       end.

(** ** config/dynamodb.js *)

(** [TABLES]: a table is where its items sit in the world. *)
Record table (V : Type) := Table {
  key : V → string;                       (* the partition key attribute *)
  items : world → gmap string V;
  store : gmap string V → world → world
}.
Arguments key {V} _ _.
Arguments items {V} _ _.
Arguments store {V} _ _ _.

Module TABLES.
Definition USERS : table UserItem.t :=
  Table _ UserItem.userId users set_users.
Definition POSTS : table PostItem.t :=
  Table _ PostItem.postId posts set_posts.
Definition INTERACTIONS : table InteractionItem.t :=
  Table _ InteractionItem.interactionId interactions set_interactions.
Definition STORIES : table StoryItem.t :=
  Table _ StoryItem.contentId stories set_stories.
Definition NOTIFICATIONS : table NotificationItem.t :=
  Table _ NotificationItem.notificationId notifications set_notifications.
End TABLES.

(** A stable sort by a JS comparator ([cmp x y <= 0]: [x] stays before [y]),
    as an insertion sort.  A stable sort by a consistent comparator has one
    result, whatever the algorithm. *)
Fixpoint insert_sorted {A} (cmp : A → A → Z) (x : A) (l : list A) : list A :=
  match l with
  | [] => [x]
  | y :: l' => if (cmp x y <=? 0)%Z then x :: y :: l' else y :: insert_sorted cmp x l'
  end.
Definition stable_sort {A} (cmp : A → A → Z) (l : list A) : list A :=
  foldr (insert_sorted cmp) [] l.

(** [Array.prototype.sort(cmp)]: the comparator never sees [undefined]; the
    [undefined] elements go last. *)
Definition Array_sort {A} (cmp : A → A → Z) (l : list (option A)) : list (option A) :=
  let defined := omap id l in
  (Some <$> stable_sort cmp defined) ++ replicate (length l - length defined) None.

(** [Array.prototype.flatMap(f)]: a callback result that is an array is
    spliced in, any other result (here [undefined]) is one element. *)
Definition Array_flatMap {A B} (f : A → option (list B)) (l : list A) : list (option B) :=
  l ≫= (λ x, match f x with
              | Some ys => Some <$> ys
              | None => [None]
              end).

(** The writes a transaction can carry, each against its own table. *)
Inductive transactItem :=
| Update {V} (T : table V) (Key : string) (blank : V) (expr : V → V)
| Put {V} (T : table V) (Item : V)
| Delete {V} (T : table V) (Key : string).

Definition apply_item (it : transactItem) (w : world) : world :=
  match it with
  | Update T k blank expr =>
      store T (<[k := expr (default blank (items T w !! k))]> (items T w)) w
  | Put T item => store T (<[key T item := item]> (items T w)) w
  | Delete T k => store T (delete k (items T w)) w
  end.

(** What the raw client resolves a query to ([result] of
    [dynamoDB.query(params).promise()]), and what the wrapper below makes of
    it: the wrapper returns [result.Items], the array alone. *)
Inductive queryOutput (V : Type) :=
| QueryOutput (Items : list V) (LastEvaluatedKey : option string)
| ItemArray (elements : list V).
Arguments QueryOutput {V} _ _.
Arguments ItemArray {V} _.

(** the property read [result.Items]: an array has no such property *)
Definition get_Items {V} (r : queryOutput V) : option (list V) :=
  match r with
  | QueryOutput Items _ => Some Items
  | ItemArray _ => None
  end.

(** The items of a table that an index query reads: those that satisfy the
    key condition and the filter, in the order of the index's RANGE key. *)
Definition scan_index {V} (m : gmap string V) (condition : V → bool) (range : V → Z)
    (ScanIndexForward : bool) (Limit : option nat) : list V :=
  let matching := filter (λ v, condition v = true) (map_to_list m).*2 in
  let ordered := stable_sort (λ a b, range a - range b)%Z matching in
  let scanned := if ScanIndexForward then ordered else reverse ordered in
  from_option (λ n, take n scanned) scanned Limit.
Global Arguments scan_index : simpl never.

Module dynamoDb.
(** [get]: [result.Item], [undefined] when the key holds no item *)
Definition get {V} (T : table V) (Key : string) : M (option V) :=
  remote (λ w, (Ok (items T w !! Key), w)).

(** [put], with or without [ConditionExpression: attribute_not_exists(key)] *)
Definition put {V} (T : table V) (Item : V) (attribute_not_exists : bool) : M bool :=
  remote (λ w,
    if attribute_not_exists && bool_decide (is_Some (items T w !! key T Item))
    then (Throw ConditionalCheckFailedException, w)
    else (Ok true, apply_item (Put T Item) w)).

(** [update]: the update expression applied to the item under the key, or
    to the item that holds only the key when there is none; resolves to the
    item as written *)
Definition update {V} (T : table V) (Key : string) (blank : V) (expr : V → V) : M V :=
  remote (λ w,
    (Ok (expr (default blank (items T w !! Key))),
     apply_item (Update T Key blank expr) w)).

Definition delete {V} (T : table V) (Key : string) : M bool :=
  remote (λ w, (Ok true, apply_item (Delete T Key) w)).

(** [put] of an item that gives [null] to an attribute on which an index of
    the table keys: scripts/createTables.js declares these attributes of type
    S, and the store refuses the item with ValidationException.  Nothing is
    written.  When the condition of the put does not hold either, the model
    reports the condition, as [put] does; the world is the same under either
    report. *)
Definition put_null_key {V} (T : table V) (Item : V) (attribute_not_exists : bool) : M bool :=
  remote (λ w,
    if attribute_not_exists && bool_decide (is_Some (items T w !! key T Item))
    then (Throw ConditionalCheckFailedException, w)
    else (Throw ValidationException, w)).

(** [update] with an expression that the store refuses for the type of the
    attribute it finds ([None]): nothing is written then *)
Definition update_typed {V} (T : table V) (Key : string) (blank : V)
    (expr : V → option V) : M V :=
  remote (λ w,
    match expr (default blank (items T w !! Key)) with
    | Some item => (Ok item, store T (<[Key := item]> (items T w)) w)
    | None => (Throw ValidationException, w)
    end).

(** [dynamoDb.createSet(list)]: the wrapper exports [get], [put], [update],
    [delete], [query], [scan], [batchGet], [batchWrite] and [transactWrite],
    and no [createSet]; the call of the property, which is [undefined],
    throws *)
Definition createSet (list : list string) : M (gset string) :=
  throw (TypeError "dynamoDb.createSet is not a function").

(** [query]: the items that satisfy the key condition and the filter, in the
    order of the index's RANGE key ([ScanIndexForward: false] reverses it),
    cut at [Limit]; the wrapper returns [result.Items] *)
Definition query {V} (T : table V) (condition : V → bool) (range : V → Z)
    (ScanIndexForward : bool) (Limit : option nat) : M (queryOutput V) :=
  remote (λ w,
    (Ok (ItemArray (scan_index (items T w) condition range ScanIndexForward Limit)), w)).

(** An index of scripts/createTables.js: the attributes it keys on. *)
Record index := Index {
  IndexName : string;
  HASH : string;
  RANGE : string
}.

(** among the reserved words of the store's expressions *)
Definition reserved (name : string) : bool :=
  bool_decide (name ∈ ["type"; "timestamp"; "read"; "count"]).

(** What the store checks of a query before it reads: every attribute that
    the key condition names is a key of the index, and no attribute is named
    by a reserved word (an expression reaches such an attribute through an
    alias only). *)
Definition accepted (ix : index) (key_condition filter : list string) : bool :=
  forallb (λ name, bool_decide (name = HASH ix ∨ name = RANGE ix)) key_condition
  && negb (existsb reserved (key_condition ++ filter)).

(** [query] on an index, by the attributes that its key condition and its
    filter name: a query that the store does not accept is one remote call
    that rejects with ValidationException *)
Definition query_on {V} (ix : index) (key_condition filter : list string)
    (T : table V) (condition : V → bool) (range : V → Z)
    (ScanIndexForward : bool) (Limit : option nat) : M (queryOutput V) :=
  if accepted ix key_condition filter
  then query T condition range ScanIndexForward Limit
  else remote (throw ValidationException).

(** [transactWrite]: one remote call, every write or none *)
Definition transactWrite (TransactItems : list transactItem) : M bool :=
  remote (λ w, (Ok true, foldl (λ w it, apply_item it w) w TransactItems)).
End dynamoDb.

(** JS [x || d] on a string that may be undefined: the empty string is falsy *)
Definition or_else (x : option string) (d : string) : string :=
  match x with
  | Some s => if decide (s = "") then d else s
  | None => d
  end.
(** JS [x || null] *)
Definition or_null (x : option string) : option string :=
  match x with
  | Some s => if decide (s = "") then None else Some s
  | None => None
  end.

(** DynamoDB [ADD attr :n] on a number attribute: an absent attribute counts
    as 0 *)
Definition ADD (attr : option Z) (n : Z) : option Z := Some (default 0%Z attr + n)%Z.

(** ** models/Interaction.js *)

(** the argument of [Interaction.create] *)
Module InteractionData.
Record t := Build {
  interactionId : option string;
  type : string;
  userId : string;
  contentId : string;
  content : option string;
  parentId : option string
}.
End InteractionData.

Definition ADD_commentsCount (n : Z) (p : PostItem.t) : PostItem.t :=
  PostItem.set_commentsCount (ADD (PostItem.commentsCount p) n) p.
Definition ADD_likesCount (n : Z) (p : PostItem.t) : PostItem.t :=
  PostItem.set_likesCount (ADD (PostItem.likesCount p) n) p.
Definition ADD_sharesCount (n : Z) (p : PostItem.t) : PostItem.t :=
  PostItem.set_sharesCount (ADD (PostItem.sharesCount p) n) p.

(** Every method of the models wraps its body in [try { ... } catch (error)
    { console.error(...); throw error; }], which changes neither result nor
    state and is left out below. *)
Module Interaction.
(** [create]: [uuidv4] is what [uuidv4()] returns when it is called, [now]
    the clock *)
Definition create (uuidv4 : string) (now : Z) (interactionData : InteractionData.t)
    : M InteractionItem.t :=
  let interactionId := or_else (InteractionData.interactionId interactionData) uuidv4 in
  let timestamp := now in
  let interactionItem :=
    InteractionItem.Build interactionId
      (InteractionData.type interactionData)
      (InteractionData.userId interactionData)
      (InteractionData.contentId interactionData)
      (Some (or_else (InteractionData.content interactionData) ""))
      (or_null (InteractionData.parentId interactionData))
      timestamp in
  (* [parentId] is a key of the table's ParentIndex: an item that holds
     [null] there is refused, an item that holds a string is put (the item
     of [Post.like] has no such attribute, and is put) *)
  let* _ :=
    match InteractionItem.parentId interactionItem with
    | Some _ => dynamoDb.put TABLES.INTERACTIONS interactionItem true
    | None => dynamoDb.put_null_key TABLES.INTERACTIONS interactionItem true
    end in
  let* _ :=
    (if decide (InteractionData.type interactionData = "comment")
     then
       let* _ := dynamoDb.update TABLES.POSTS
                   (InteractionData.contentId interactionData)
                   (PostItem.blank (InteractionData.contentId interactionData))
                   (ADD_commentsCount 1) in
       ret ()
     else ret ()) in
  ret interactionItem.

Definition getById (interactionId : string) : M (option InteractionItem.t) :=
  dynamoDb.get TABLES.INTERACTIONS interactionId.

Definition delete (interactionId userId : string) : M bool :=
  let* interaction := getById interactionId in
  match interaction with
  | None => throw (Error "Interaction not found")
  | Some interaction =>
      if decide (InteractionItem.userId interaction ≠ userId)
      then throw (Error "Unauthorized to delete this interaction")
      else
        let* _ := dynamoDb.delete TABLES.INTERACTIONS interactionId in
        let* _ :=
          (if decide (InteractionItem.type interaction = "comment")
           then
             let* _ := dynamoDb.update TABLES.POSTS
                         (InteractionItem.contentId interaction)
                         (PostItem.blank (InteractionItem.contentId interaction))
                         (ADD_commentsCount (-1)) in
             ret ()
           else ret ()) in
        ret true
  end.
End Interaction.

(** ** models/Post.js *)

Module Post.
(** what [like] and [unlike] resolve to *)
Record likeResult := LikeResult {
  success : bool;
  message : option string;
  likesCount : option Z
}.

Definition getById (postId : string) : M (option PostItem.t) :=
  dynamoDb.get TABLES.POSTS postId.

(** [(await Post.getById(postId)).likesCount] *)
Definition read_likesCount (postId : string) : M (option Z) :=
  let* post := getById postId in
  match post with
  | Some post => ret (PostItem.likesCount post)
  | None => throw (TypeError "Cannot read properties of undefined (reading 'likesCount')")
  end.

Definition like (uuidv4 : string) (now : Z) (postId userId : string) : M likeResult :=
  let interactionId := uuidv4 in
  let timestamp := now in
  let interactionItem :=
    InteractionItem.Build interactionId "like" userId postId None None timestamp in
  let postParams := Update TABLES.POSTS postId (PostItem.blank postId) (ADD_likesCount 1) in
  let interactionParams := Put TABLES.INTERACTIONS interactionItem in
  let* _ := dynamoDb.transactWrite [postParams; interactionParams] in
  let* n := read_likesCount postId in
  ret (LikeResult true None n).

(** the key condition and filter of [unlike]'s query *)
Definition is_like_of (userId postId : string) (i : InteractionItem.t) : bool :=
  bool_decide (InteractionItem.userId i = userId)
  && bool_decide (InteractionItem.contentId i = postId)
  && bool_decide (InteractionItem.type i = "like").

(** [UserContentIndex] of scripts/createTables.js: HASH [userId], RANGE
    [timestamp] *)
Definition UserContentIndex : dynamoDb.index :=
  dynamoDb.Index "UserContentIndex" "userId" "timestamp".

(** [unlike]: the key condition is 'userId = :userId AND contentId =
    :contentId', the filter 'type = :type' *)
Definition unlike (postId userId : string) : M likeResult :=
  let* interactions :=
    dynamoDb.query_on UserContentIndex ["userId"; "contentId"] ["type"]
      TABLES.INTERACTIONS (is_like_of userId postId)
      InteractionItem.timestamp true None in
  match interactions with
  | QueryOutput _ _ =>
      throw (TypeError "Cannot read properties of undefined (reading 'interactionId')")
  | ItemArray [] => ret (LikeResult false (Some "Like not found") None)
  | ItemArray (first :: _) =>
      let interactionId := InteractionItem.interactionId first in
      let postParams :=
        Update TABLES.POSTS postId (PostItem.blank postId) (ADD_likesCount (-1)) in
      let interactionParams := Delete TABLES.INTERACTIONS interactionId in
      let* _ := dynamoDb.transactWrite [postParams; interactionParams] in
      let* n := read_likesCount postId in
      ret (LikeResult true None n)
  end.

Definition share (postId userId : string) : M (bool * option Z) :=
  let* result := dynamoDb.update TABLES.POSTS postId (PostItem.blank postId)
                   (ADD_sharesCount 1) in
  ret (true, PostItem.sharesCount result).

(** the comparator of [getTimelinePosts]: [new Date(b.timestamp).getTime() -
    new Date(a.timestamp).getTime()]; on an absent timestamp the difference
    is NaN, which [sort] reads as 0 *)
Definition newest_first (a b : PostItem.t) : Z :=
  match PostItem.timestamp b, PostItem.timestamp a with
  | Some tb, Some ta => (tb - ta)%Z
  | _, _ => 0%Z
  end.

(** the items of index [UserIdIndex] (HASH [userId], RANGE [timestamp]) in
    one owner's partition *)
Definition by_user (userId : string) (p : PostItem.t) : bool :=
  bool_decide (PostItem.userId p = Some userId)
  && bool_decide (is_Some (PostItem.timestamp p)).

Definition range_timestamp (p : PostItem.t) : Z := default 0%Z (PostItem.timestamp p).

(** [Promise.all] over the per-owner queries, in the order of [userIds] *)
Fixpoint query_all (userIds : list string) (limit : nat)
    : M (list (queryOutput PostItem.t)) :=
  match userIds with
  | [] => ret []
  | userId :: rest =>
      let* r := dynamoDb.query TABLES.POSTS (by_user userId) range_timestamp
                  true (Some limit) in
      let* rs := query_all rest limit in
      ret (r :: rs)
  end.

Definition getTimelinePosts (userIds : list string) (limit : nat)
    : M (list (option PostItem.t)) :=
  let* results := query_all userIds limit in
  let allPosts := Array_flatMap get_Items results in
  let sortedPosts := Array_sort newest_first allPosts in
  ret (take limit sortedPosts).
End Post.

(** The timeline aggregation in the words of the specification: the
    per-owner pages are concatenated, sorted by creation timestamp descending
    and cut at [limit]. *)
Definition aggregate_spec (limit : nat) (pages : list (list PostItem.t)) : list PostItem.t :=
  take limit (stable_sort Post.newest_first (concat pages)).

(** ** The ledger and its counters, observed *)

(** A deleted interaction is no longer in the table, so the undeleted
    interactions of one kind that target content [c] are the rows of the
    table with that [type] and [contentId]. *)
Definition targets (ty c : string) (row : string * InteractionItem.t) : Prop :=
  InteractionItem.type row.2 = ty ∧ InteractionItem.contentId row.2 = c.

Global Instance targets_dec ty c row : Decision (targets ty c row).
Proof. unfold targets. apply _. Defined.

Definition undeleted (ty c : string) (w : world) : nat :=
  size (filter (targets ty c) (interactions w)).

(** the like interactions of one actor on one content item *)
Definition likes_of (actor c : string) (w : world) : nat :=
  size (filter (λ row : string * InteractionItem.t,
                  targets "like" c row ∧ InteractionItem.userId row.2 = actor)
               (interactions w)).

(** The counters of content [c]: the attribute of the item under key [c] in
    the Posts table, 0 when the item or the attribute is absent (as [ADD]
    reads it). *)
Definition likeCount (c : string) (w : world) : Z :=
  default 0%Z (posts w !! c ≫= PostItem.likesCount).
Definition commentCount (c : string) (w : world) : Z :=
  default 0%Z (posts w !! c ≫= PostItem.commentsCount).

Definition counters_match (w : world) : Prop :=
  ∀ c, likeCount c w = Z.of_nat (undeleted "like" c w)
     ∧ commentCount c w = Z.of_nat (undeleted "comment" c w).

(** every row of the Interactions table sits under its own [interactionId] *)
Definition keyed (w : world) : Prop :=
  ∀ k i, interactions w !! k = Some i → InteractionItem.interactionId i = k.

(** the row that [Post.like] writes, and the row that [Interaction.create]
    writes for a comment *)
Definition like_row (uuidv4 : string) (now : Z) (postId userId : string) : InteractionItem.t :=
  InteractionItem.Build uuidv4 "like" userId postId None None now.

Definition comment_row (uuidv4 : string) (now : Z) (interactionId : option string)
    (userId contentId : string) (content parentId : option string) : InteractionItem.t :=
  InteractionItem.Build (or_else interactionId uuidv4) "comment" userId contentId
    (Some (or_else content "")) (or_null parentId) now.

(** The operations on the ledger that the controllers offer: like and unlike
    of a post ([postController.likePost], [unlikePost]), a comment
    ([interactionController.addComment]: [Interaction.create] with
    [type: 'comment']) and its deletion ([deleteComment]). *)
Inductive operation :=
| LikeOp (uuidv4 : string) (now : Z) (postId userId : string)
| UnlikeOp (postId userId : string)
| CommentOp (uuidv4 : string) (now : Z) (interactionId : option string)
            (userId contentId : string) (content parentId : option string)
| DeleteCommentOp (interactionId userId : string).

Definition step (o : operation) (w : world) : world :=
  match o with
  | LikeOp uuidv4 now postId userId => after (Post.like uuidv4 now postId userId) w
  | UnlikeOp postId userId => after (Post.unlike postId userId) w
  | CommentOp uuidv4 now interactionId userId contentId content parentId =>
      after (Interaction.create uuidv4 now
               (InteractionData.Build interactionId "comment" userId contentId
                  content parentId)) w
  | DeleteCommentOp interactionId userId =>
      after (Interaction.delete interactionId userId) w
  end.

(** What a sequence of operations takes for granted at each step: [uuidv4()]
    returns an id that no row has, and a comment deletion names a comment
    (or nothing). *)
Definition admissible (o : operation) (w : world) : Prop :=
  match o with
  | LikeOp uuidv4 _ _ _ => interactions w !! uuidv4 = None
  | DeleteCommentOp interactionId _ =>
      ∀ i, interactions w !! interactionId = Some i → InteractionItem.type i = "comment"
  | _ => True
  end.

Fixpoint run (ops : list operation) (w : world) : world :=
  match ops with
  | [] => w
  | o :: ops' => run ops' (step o w)
  end.

Fixpoint admissible_run (ops : list operation) (w : world) : Prop :=
  match ops with
  | [] => True
  | o :: ops' => admissible o w ∧ admissible_run ops' (step o w)
  end.

(** a world that refuses no call, whose rows sit under their ids and whose
    counters match the ledger *)
Definition steady (w : world) : Prop :=
  faults w = [] ∧ keyed w ∧ counters_match w.


(** ** models/User.js *)

(** the argument of [User.create] *)
Module UserData.
Record t := Build {
  userId : option string;
  username : string;
  email : string;
  password : option string;
  profilePicture : option string;
  bio : option string;
  following : option (list string);
  followers : option (list string)
}.
End UserData.

Module User.
Section bcrypt.
(** [bcrypt.genSalt(10)] and [bcrypt.hash(password, salt)] *)
Variable genSalt : string.
Variable hash : string → string → string.

Definition create (uuidv4 : string) (now : Z) (userData : UserData.t) : M UserItem.t :=
  let userId := or_else (UserData.userId userData) uuidv4 in
  let timestamp := now in
  let passwordHash :=
    match UserData.password userData with
    | Some password =>
        if decide (password = "") then None
        else let salt := genSalt in Some (hash password salt)
    | None => None
    end in
  let userItem :=
    UserItem.Build userId
      (Some (UserData.username userData))
      (Some (UserData.email userData))
      (Some passwordHash)
      (or_null (UserData.profilePicture userData))
      (Some (or_else (UserData.bio userData) ""))
      (UserItem.Array (default [] (UserData.following userData)))
      (UserItem.Array (default [] (UserData.followers userData)))
      (Some timestamp) (Some timestamp) in
  let* _ := dynamoDb.put TABLES.USERS userItem true in
  (* Remove sensitive fields *)
  let userItem := UserItem.delete_passwordHash userItem in
  ret userItem.
End bcrypt.

Definition getById (userId : string) : M (option UserItem.t) :=
  let* user := dynamoDb.get TABLES.USERS userId in
  match user with
  | Some user => ret (Some (UserItem.delete_passwordHash user))
  | None => ret None
  end.

(** [users && users.length > 0 ? users[0] : null] *)
Definition first_item {V} (users : queryOutput V) : option V :=
  match users with
  | ItemArray (user :: _) => Some user
  | _ => None
  end.

Definition getByUsername (username : string) : M (option UserItem.t) :=
  let* users := dynamoDb.query TABLES.USERS
                  (λ u, bool_decide (UserItem.username u = Some username))
                  (λ _, 0%Z) true None in
  match first_item users with
  | Some user => ret (Some (UserItem.delete_passwordHash user))
  | None => ret None
  end.

Definition getByEmail (email : string) : M (option UserItem.t) :=
  let* users := dynamoDb.query TABLES.USERS
                  (λ u, bool_decide (UserItem.email u = Some email))
                  (λ _, 0%Z) true None in
  match first_item users with
  | Some user => ret (Some user)     (* Include passwordHash for authentication *)
  | None => ret None
  end.

(** [ADD attr :set] and [DELETE attr :set] on [following] and [followers]:
    on a set, or on the absent attribute; the store refuses them on a list *)
Definition ADD_ids (set : gset string) (attr : UserItem.ids) : option UserItem.ids :=
  match attr with
  | UserItem.StringSet members => Some (UserItem.StringSet (members ∪ set))
  | UserItem.Array _ => None
  end.
Definition DELETE_ids (set : gset string) (attr : UserItem.ids) : option UserItem.ids :=
  match attr with
  | UserItem.StringSet members => Some (UserItem.StringSet (members ∖ set))
  | UserItem.Array _ => None
  end.
Definition ADD_following (set : gset string) (u : UserItem.t) : option UserItem.t :=
  (λ attr, UserItem.set_following attr u) <$> ADD_ids set (UserItem.following u).
Definition ADD_followers (set : gset string) (u : UserItem.t) : option UserItem.t :=
  (λ attr, UserItem.set_followers attr u) <$> ADD_ids set (UserItem.followers u).
Definition DELETE_following (set : gset string) (u : UserItem.t) : option UserItem.t :=
  (λ attr, UserItem.set_following attr u) <$> DELETE_ids set (UserItem.following u).
Definition DELETE_followers (set : gset string) (u : UserItem.t) : option UserItem.t :=
  (λ attr, UserItem.set_followers attr u) <$> DELETE_ids set (UserItem.followers u).

(** [followUser]: the parameters of each update hold
    [dynamoDb.createSet([...])], which is evaluated before the update is
    sent *)
Definition followUser (userId targetUserId : string) : M bool :=
  let* targetSet := dynamoDb.createSet [targetUserId] in
  let* _ := dynamoDb.update_typed TABLES.USERS userId (UserItem.blank userId)
              (ADD_following targetSet) in
  let* userSet := dynamoDb.createSet [userId] in
  let* _ := dynamoDb.update_typed TABLES.USERS targetUserId (UserItem.blank targetUserId)
              (ADD_followers userSet) in
  ret true.

Definition unfollowUser (userId targetUserId : string) : M bool :=
  let* targetSet := dynamoDb.createSet [targetUserId] in
  let* _ := dynamoDb.update_typed TABLES.USERS userId (UserItem.blank userId)
              (DELETE_following targetSet) in
  let* userSet := dynamoDb.createSet [userId] in
  let* _ := dynamoDb.update_typed TABLES.USERS targetUserId (UserItem.blank targetUserId)
              (DELETE_followers userSet) in
  ret true.

(** [Array.from(attr)]: the elements of an array; the set object of the
    document client is neither iterable nor array-like, and gives [[]] *)
Definition Array_from (attr : UserItem.ids) : list string :=
  match attr with
  | UserItem.Array elements => elements
  | UserItem.StringSet _ => []
  end.

(** [!result || !result.followers ? [] : Array.from(result.followers)] *)
Definition getFollowers (userId : string) : M (list string) :=
  let* result := dynamoDb.get TABLES.USERS userId in
  match result with
  | None => ret []
  | Some result => ret (Array_from (UserItem.followers result))
  end.

Definition getFollowing (userId : string) : M (list string) :=
  let* result := dynamoDb.get TABLES.USERS userId in
  match result with
  | None => ret []
  | Some result => ret (Array_from (UserItem.following result))
  end.
End User.

(** controllers/userController.js, [getProfile]: whether the requesting user
    follows [userId], [reqUserFollowing.includes(userId)] *)
Definition isFollowing (reqUserId userId : string) : M bool :=
  let* reqUserFollowing := User.getFollowing reqUserId in
  ret (bool_decide (userId ∈ reqUserFollowing)).

(** ** middleware/rateLimit.js *)

Module rateLimit.
Record options := Options {
  maxRequests : Z;
  windowSizeInSeconds : Z;
  identifierKey : string
}.
(** the defaults of the destructured [options] *)
Definition defaults : options := Options 100 60 "ip".

(** what the middleware reads of the request: [req.ip],
    [req.connection.remoteAddress], [req.user.userId] when [req.user] is
    set, and the three parts of the route *)
Record request := Request {
  ip : option string;
  remoteAddress : option string;
  user : option string;
  method : string;
  baseUrl : string;
  path : string
}.

Record headers := Headers {
  X_RateLimit_Limit : Z;
  X_RateLimit_Remaining : Z;
  X_RateLimit_Reset : Z
}.

(** how the middleware ends: with the 429 response, or with [next()] after
    the headers it set, if any *)
Inductive outcome :=
| TooManyRequests
| Next (set : option headers).

(** JS [a || b] on values that may be undefined *)
Definition or_ (a b : option string) : option string :=
  match a with
  | Some s => if decide (s = "") then b else a
  | None => b
  end.

Definition identifier (opts : options) (req : request) : option string :=
  if decide (identifierKey opts = "ip") then or_ (ip req) (remoteAddress req)
  else match decide (identifierKey opts = "userId"), user req with
       | left _, Some userId => Some userId
       | _, _ => or_ (ip req) (remoteAddress req)
       end.

(** [`${identifier}:${routeKey}`] *)
Definition recordId (opts : options) (req : request) : string :=
  default "undefined" (identifier opts req)
  +:+ ":" +:+ (method req +:+ baseUrl req +:+ path req).

(** the raw document client on the rate limiting table *)
Definition get (id : string) : M (option RateItem.t) :=
  remote (λ w, (Ok (rateLimiting w !! id), w)).
(** [SET #count = #count + :inc]: fails on an item that is not there *)
Definition update_count (id : string) : M unit :=
  remote (λ w,
    match rateLimiting w !! id with
    | Some r =>
        (Ok (), set_rateLimiting
                  (<[id := RateItem.set_count (RateItem.count r + 1) r]> (rateLimiting w)) w)
    | None => (Throw (Error "ValidationException"), w)
    end).
Definition put (item : RateItem.t) : M unit :=
  remote (λ w, (Ok (), set_rateLimiting (<[RateItem.id item := item]> (rateLimiting w)) w)).

(** [rateLimiter(options)(req, res, next)]; [Date_now] is [Date.now()].
    The inner block resolves to the response that ends the request early
    ([return res.status(429).json(...)]), if any. *)
Definition rateLimiter (opts : options) (Date_now : Z) (req : request) : M outcome :=
  try_catch
    (let recordId := recordId opts req in
     let now := (Date_now / 1000)%Z in
     let windowStart := (now - windowSizeInSeconds opts)%Z in
     let* existingRecord := get recordId in
     let* returned :=
       match existingRecord with
       | Some r =>
           if bool_decide (RateItem.timestamp r > windowStart)%Z
           then
             if bool_decide (RateItem.count r >= maxRequests opts)%Z
             then ret (Some TooManyRequests)
             else let* _ := update_count recordId in ret None
           else
             let* _ := put (RateItem.Build recordId 1 now
                              (now + windowSizeInSeconds opts * 2)) in
             ret None
       | None =>
           let* _ := put (RateItem.Build recordId 1 now
                            (now + windowSizeInSeconds opts * 2)) in
           ret None
       end in
     match returned with
     | Some response => ret response
     | None =>
         (* Set rate limit headers *)
         match existingRecord with
         | Some r =>
             ret (Next (Some (Headers (maxRequests opts)
                                (maxRequests opts - RateItem.count r - 1)
                                (RateItem.timestamp r + windowSizeInSeconds opts - now))))
         | None => ret (Next None)
         end
     end)
    (* Continue even if rate limiting fails *)
    (λ _, ret (Next None)).

(** the contract of the limiter read off the middleware: the call is
    allowed when it reaches [next()], and what it reports as remaining is
    the header it set *)
Definition allowed (o : outcome) : bool :=
  match o with
  | TooManyRequests => false
  | Next _ => true
  end.
Definition remaining (o : outcome) : option Z :=
  match o with
  | Next (Some h) => Some (X_RateLimit_Remaining h)
  | _ => None
  end.

(** the calls of one client on one route at the given times, in order *)
Fixpoint calls (opts : options) (req : request) (times : list Z) : M (list outcome) :=
  match times with
  | [] => ret []
  | t :: times' =>
      let* o := rateLimiter opts t req in
      let* os := calls opts req times' in
      ret (o :: os)
  end.

(** the request count stored for the client and route of [req] *)
Definition stored_count (opts : options) (req : request) (w : world) : option Z :=
  RateItem.count <$> rateLimiting w !! recordId opts req.
End rateLimit.

(** ** models/Story.js, models/Notification.js, services/snsService.js *)

Module Story.
Definition getById (contentId : string) : M (option StoryItem.t) :=
  dynamoDb.get TABLES.STORIES contentId.
End Story.

(** the argument of [Notification.create] *)
Module NotificationData.
Record t := Build {
  notificationId : option string;
  recipientId : string;
  senderId : string;
  type : string;
  contentId : option string;
  contentType : option string;
  message : string
}.
End NotificationData.

Module Notification.
(** the one function that writes the Notifications table *)
Definition create (uuidv4 : string) (now : Z) (notificationData : NotificationData.t)
    : M NotificationItem.t :=
  let notificationId := or_else (NotificationData.notificationId notificationData) uuidv4 in
  let timestamp := now in
  let notificationItem :=
    NotificationItem.Build notificationId
      (NotificationData.recipientId notificationData)
      (NotificationData.senderId notificationData)
      (NotificationData.type notificationData)
      (or_null (NotificationData.contentId notificationData))
      (or_null (NotificationData.contentType notificationData))
      (NotificationData.message notificationData)
      false timestamp in
  let* _ := dynamoDb.put TABLES.NOTIFICATIONS notificationItem true in
  ret notificationItem.
End Notification.

Module snsService.
(** [publishNotification]: one call to SNS, which adds the message to the
    topic *)
Definition publishNotification (message : NotificationMessage.t) : M unit :=
  remote (λ w, (Ok (), set_published (published w ++ [message]) w)).
End snsService.

(** [req.app.get('io').to(room).emit('notification', message)]: server.js
    makes [io] and never sets it on the app, so [req.app.get('io')] is
    [undefined] and the read of [to] throws; nothing is emitted *)
Definition io_emit (room : option string) (message : NotificationMessage.t) : M unit :=
  throw (TypeError "Cannot read properties of undefined (reading 'to')").

(** ** controllers/postController.js, controllers/interactionController.js *)

(** what a handler answers: the status and the [message] of the JSON body
    (the empty string when the body has none) *)
Record response := Response {
  status : Z;
  json_message : string
}.

(** [`${user.username} ...`]: the template prints an absent attribute as
    "undefined" *)
Definition template (x : option string) : string := default "undefined" x.

(** [user.username] and the like on what [User.getById] resolved to *)
Definition property {A B} (what : string) (x : option A) (f : A → B) : M B :=
  match x with
  | Some a => ret (f a)
  | None => throw (TypeError ("Cannot read properties of undefined (reading '" +:+ what +:+ "')"))
  end.

Module postController.
Definition likePost (uuidv4 : string) (now : Z) (postId userId : string) : M response :=
  try_catch
    (let* result := Post.like uuidv4 now postId userId in
     let* post := Post.getById postId in
     let* _ :=
       match post with
       | Some post =>
           if decide (PostItem.userId post ≠ Some userId)
           then
             try_catch
               (let* user := User.getById userId in
                let* username := property "username" user UserItem.username in
                let notificationMessage :=
                  NotificationMessage.Build "like" userId (PostItem.userId post) postId
                    "post" (template username +:+ " liked your post") now in
                let* _ := snsService.publishNotification notificationMessage in
                io_emit (PostItem.userId post) notificationMessage)
               (λ notifError, ret ())
           else ret ()
       | None => ret ()
       end in
     ret (Response 200 "Post liked successfully"))
    (λ error, ret (Response 500 "Server error")).

Definition sharePost (now : Z) (postId userId : string) : M response :=
  try_catch
    (let* result := Post.share postId userId in
     let* post := Post.getById postId in
     let* _ :=
       match post with
       | Some post =>
           if decide (PostItem.userId post ≠ Some userId)
           then
             try_catch
               (let* user := User.getById userId in
                let* username := property "username" user UserItem.username in
                let notificationMessage :=
                  NotificationMessage.Build "share" userId (PostItem.userId post) postId
                    "post" (template username +:+ " shared your post") now in
                let* _ := snsService.publishNotification notificationMessage in
                io_emit (PostItem.userId post) notificationMessage)
               (λ notifError, ret ())
           else ret ()
       | None => ret ()
       end in
     ret (Response 200 "Post shared successfully"))
    (λ error, ret (Response 500 "Server error")).
End postController.

Module interactionController.
(** JS truthiness of a string that may be undefined *)
Definition truthy (x : option string) : option string := or_null x.

(** [addComment]: [errors] is what [validationResult(req)] holds, the
    next three arguments are [req.body] *)
Definition addComment (uuidv4 : string) (now : Z) (errors : list string)
    (contentId : string) (content parentId : option string) (userId : string)
    : M response :=
  try_catch
    (if negb (bool_decide (errors = [])) then ret (Response 400 "")
     else
       let* post := Post.getById contentId in
       let* story :=
         match post with
         | Some _ => ret None
         | None => Story.getById contentId
         end in
       let contentOwnerId : option string :=
         match post, story with
         | Some post, _ => PostItem.userId post
         | None, Some story => Some (StoryItem.userId story)
         | None, None => None
         end in
       let contentExists := bool_decide (is_Some post ∨ is_Some story) in
       if negb contentExists then ret (Response 404 "Content not found")
       else
         let* parentFound :=
           match truthy parentId with
           | Some parentId =>
               let* parentComment := Interaction.getById parentId in
               match parentComment with
               | Some parentComment =>
                   ret (bool_decide (InteractionItem.type parentComment = "comment"))
               | None => ret false
               end
           | None => ret true
           end in
         if negb parentFound then ret (Response 404 "Parent comment not found")
         else
           let* comment :=
             Interaction.create uuidv4 now
               (InteractionData.Build None "comment" userId contentId content parentId) in
           let* user := User.getById userId in
           let* username := property "userId" user UserItem.username in
           let* _ :=
             match truthy contentOwnerId with
             | Some contentOwnerId =>
                 if decide (contentOwnerId ≠ userId)
                 then
                   try_catch
                     (let kind := match post with Some _ => "post" | None => "reel" end in
                      let notificationMessage :=
                        NotificationMessage.Build "comment" userId (Some contentOwnerId)
                          contentId kind
                          (template username +:+ " commented on your " +:+ kind) now in
                      let* _ := snsService.publishNotification notificationMessage in
                      io_emit (Some contentOwnerId) notificationMessage)
                     (λ notifError, ret ())
                 else ret ()
             | None => ret ()
             end in
           let* _ :=
             match truthy parentId with
             | Some parentId =>
                 try_catch
                   (let* parentComment := Interaction.getById parentId in
                    match parentComment with
                    | Some parentComment =>
                        if decide (InteractionItem.userId parentComment ≠ userId)
                        then
                          let* parentAuthor :=
                            User.getById (InteractionItem.userId parentComment) in
                          let notificationMessage :=
                            NotificationMessage.Build "reply" userId
                              (Some (InteractionItem.userId parentComment))
                              parentId "comment"
                              (template username +:+ " replied to your comment") now in
                          let* _ := snsService.publishNotification notificationMessage in
                          io_emit (Some (InteractionItem.userId parentComment))
                            notificationMessage
                        else ret ()
                    | None => ret ()
                    end)
                   (λ notifError, ret ())
             | None => ret ()
             end in
           ret (Response 201 ""))
    (λ error, ret (Response 500 "Server error")).
End interactionController.

(** ** Notification fan-out, observed *)

(** the owner of a content item: of the post under that id, or of the story
    or reel under it when there is no such post (the order in which
    [addComment] looks the content up) *)
Definition owner (contentId : string) (w : world) : option string :=
  match posts w !! contentId with
  | Some post => PostItem.userId post
  | None => StoryItem.userId <$> stories w !! contentId
  end.

(** nothing reached the Notifications table, the SNS topic or a socket.io
    room between [w] and [w'] *)
Definition no_fanout (w w' : world) : Prop :=
  notifications w' = notifications w
  ∧ published w' = published w
  ∧ emitted w' = emitted w.

(** between [w] and [w'] no Notification record was persisted, and whatever
    reached the topic or a room is a reply notification addressed to a user
    other than [actor] *)
Definition reply_to_other (actor : string) (m : NotificationMessage.t) : Prop :=
  NotificationMessage.type m = "reply"
  ∧ NotificationMessage.senderId m = actor
  ∧ NotificationMessage.recipientId m ≠ Some actor.

Definition only_replies_to_others (actor : string) (w w' : world) : Prop :=
  notifications w' = notifications w
  ∧ (∀ m, m ∈ published w' → m ∈ published w ∨ reply_to_other actor m)
  ∧ (∀ room m, (room, m) ∈ emitted w' →
       (room, m) ∈ emitted w ∨ (room ≠ Some actor ∧ reply_to_other actor m)).

(** the channels of the fan-out: the Notifications table, the SNS topic and
    the socket.io rooms *)
Definition channels (w : world)
    : gmap string NotificationItem.t * list NotificationMessage.t
      * list (option string * NotificationMessage.t) :=
  (notifications w, published w, emitted w).

(** ** Reasoning about asynchronous code *)

(** from a world that satisfies [P], [m] ends in a result and a world that
    satisfy [Q] *)
Definition hoare {A} (P : world → Prop) (m : M A) (Q : res A → world → Prop) : Prop :=
  ∀ w, P w → Q (m w).1 (m w).2.

(** [m] keeps [I], however it ends *)
Definition keeps {A} (I : world → Prop) (m : M A) : Prop :=
  hoare I m (λ _, I).

(** [I] does not read the fault schedule *)
Definition stable (I : world → Prop) : Prop :=
  ∀ w fs, I w → I (set_faults fs w).

(** the post under [postId] belongs to [actor], and the channels hold [c] *)
Definition own_post (postId actor : string)
    (c : gmap string NotificationItem.t * list NotificationMessage.t
         * list (option string * NotificationMessage.t)) (w : world) : Prop :=
  (∃ p, posts w !! postId = Some p ∧ PostItem.userId p = Some actor)
  ∧ channels w = c.

(** the reply notification that [addComment] sends to the author of the
    parent comment *)
Definition reply_notification (userId author parent text : string) (now : Z)
    : NotificationMessage.t :=
  NotificationMessage.Build "reply" userId (Some author) parent "comment" text now.

(** ** The cursor codec: what [Buffer] and [JSON] do *)

(** A JS string is modelled by the list of its code points, a lone surrogate
    being a code point of its own; a [Buffer] by the list of its bytes. *)
Abbreviation jsstring := (list Z).

(** the code points of an ASCII literal *)
Definition chars (s : string) : jsstring :=
  (λ a, Z.of_N (Ascii.N_of_ascii a)) <$> String.list_ascii_of_string s.

Local Open Scope Z_scope.
Local Open Scope list_scope.
#[local] Set Warnings "-register-all".

Definition is_byte (b : Z) : Prop := 0 <= b < 256.

(** [buf.toString('base64')] and [Buffer.from(string, 'base64')] *)
Module base64.
(** the character of a sextet: A-Z, a-z, 0-9, + and / *)
Definition alphabet (s : Z) : Z :=
  if s <? 26 then 65 + s
  else if s <? 52 then 71 + s
  else if s <? 62 then s - 4
  else if s =? 62 then 43
  else 47.

(** the sextet of a character; the decoder takes the URL-safe [-] and [_]
    as well *)
Definition unbase64 (c : Z) : option Z :=
  if (65 <=? c) && (c <=? 90) then Some (c - 65)
  else if (97 <=? c) && (c <=? 122) then Some (c - 71)
  else if (48 <=? c) && (c <=? 57) then Some (c + 4)
  else if (c =? 43) || (c =? 45) then Some 62
  else if (c =? 47) || (c =? 95) then Some 63
  else None.

Fixpoint encode (bytes : list Z) : jsstring :=
  match bytes with
  | [] => []
  | [a] => [alphabet (a / 4); alphabet (a mod 4 * 16); 61; 61]
  | [a; b] =>
      [alphabet (a / 4); alphabet (a mod 4 * 16 + b / 16); alphabet (b mod 16 * 4); 61]
  | a :: b :: c :: rest =>
      alphabet (a / 4) :: alphabet (a mod 4 * 16 + b / 16)
        :: alphabet (b mod 16 * 4 + c / 64) :: alphabet (c mod 64) :: encode rest
  end.

(** The decoder skips every character that is not of the alphabet and stops
    at the first [=]. *)
Fixpoint sextets (s : jsstring) : list Z :=
  match s with
  | [] => []
  | c :: s' =>
      if c =? 61 then []
      else match unbase64 c with
           | Some x => x :: sextets s'
           | None => sextets s'
           end
  end.

(** four sextets are three bytes; a last group of three sextets is two
    bytes, of two sextets one byte *)
Fixpoint bytes_of (xs : list Z) : list Z :=
  match xs with
  | x1 :: x2 :: x3 :: x4 :: rest =>
      (x1 * 4 + x2 / 16) :: (x2 mod 16 * 16 + x3 / 4) :: (x3 mod 4 * 64 + x4)
        :: bytes_of rest
  | [x1; x2; x3] => [x1 * 4 + x2 / 16; x2 mod 16 * 16 + x3 / 4]
  | [x1; x2] => [x1 * 4 + x2 / 16]
  | _ => []
  end.

Definition decode (s : jsstring) : list Z := bytes_of (sextets s).
End base64.

(** [Buffer.from(string)] and [buf.toString()]: UTF-8 *)
Module utf8.
Definition encode_code_point (c : Z) : list Z :=
  if c <? 0x80 then [c]
  else if c <? 0x800 then [0xC0 + c / 64; 0x80 + c mod 64]
  else if (0xD800 <=? c) && (c <=? 0xDFFF) then [0xEF; 0xBF; 0xBD]
  else if c <? 0x10000 then [0xE0 + c / 4096; 0x80 + c / 64 mod 64; 0x80 + c mod 64]
  else [0xF0 + c / 262144; 0x80 + c / 4096 mod 64; 0x80 + c / 64 mod 64; 0x80 + c mod 64].

Definition encode (s : jsstring) : list Z := s ≫= encode_code_point.

Definition between (lo hi b : Z) : bool := (lo <=? b) && (b <=? hi).

(** One step of the decoder at lead byte [b]: the code point of the sequence
    that starts there, then the rest decoded by [decode].  A byte sequence
    that is not UTF-8 decodes to U+FFFD, and decoding goes on at the byte
    that broke the sequence. *)
Definition decode_from (decode : list Z → jsstring) (b : Z) (rest : list Z) : jsstring :=
  if b <? 0x80 then b :: decode rest
  else if between 0xC2 0xDF b then
    match rest with
    | c1 :: r1 =>
        if between 0x80 0xBF c1
        then ((b - 0xC0) * 64 + (c1 - 0x80)) :: decode r1
        else 0xFFFD :: decode rest
    | [] => [0xFFFD]
    end
  else if between 0xE0 0xEF b then
    match rest with
    | c1 :: r1 =>
        if between (if b =? 0xE0 then 0xA0 else 0x80)
                   (if b =? 0xED then 0x9F else 0xBF) c1
        then
          match r1 with
          | c2 :: r2 =>
              if between 0x80 0xBF c2
              then ((b - 0xE0) * 4096 + (c1 - 0x80) * 64 + (c2 - 0x80)) :: decode r2
              else 0xFFFD :: decode r1
          | [] => [0xFFFD]
          end
        else 0xFFFD :: decode rest
    | [] => [0xFFFD]
    end
  else if between 0xF0 0xF4 b then
    match rest with
    | c1 :: r1 =>
        if between (if b =? 0xF0 then 0x90 else 0x80)
                   (if b =? 0xF4 then 0x8F else 0xBF) c1
        then
          match r1 with
          | c2 :: r2 =>
              if between 0x80 0xBF c2
              then
                match r2 with
                | c3 :: r3 =>
                    if between 0x80 0xBF c3
                    then ((b - 0xF0) * 262144 + (c1 - 0x80) * 4096
                          + (c2 - 0x80) * 64 + (c3 - 0x80)) :: decode r3
                    else 0xFFFD :: decode r2
                | [] => [0xFFFD]
                end
              else 0xFFFD :: decode r1
          | [] => [0xFFFD]
          end
        else 0xFFFD :: decode rest
    | [] => [0xFFFD]
    end
  else 0xFFFD :: decode rest.

Fixpoint decode (bytes : list Z) : jsstring :=
  match bytes with
  | [] => []
  | b :: rest => decode_from decode b rest
  end.
End utf8.

(** A JSON value.  A number is an integer here: the position markers of this
    server hold strings, and a number literal with a fraction or an exponent
    is outside the model (the parser below reports it as a syntax error).
    An object is the list of its own properties in the order in which they
    are enumerated. *)
Inductive json :=
| JNull
| JBool (b : bool)
| JNum (n : Z)
| JStr (s : jsstring)
| JArr (elements : list json)
| JObj (members : list (jsstring * json)).

Module JSON.
Definition is_surrogate (c : Z) : bool := utf8.between 0xD800 0xDFFF c.

Definition hex_digit (d : Z) : Z := if d <? 10 then 48 + d else 87 + d.

(** [QuoteJSONString]: the escapes for the quote, the backslash and the
    control characters; a lone surrogate is written as a [\u] escape *)
Definition quote_code_point (c : Z) : jsstring :=
  if c =? 34 then [92; 34]
  else if c =? 92 then [92; 92]
  else if c =? 8 then [92; 98]
  else if c =? 12 then [92; 102]
  else if c =? 10 then [92; 110]
  else if c =? 13 then [92; 114]
  else if c =? 9 then [92; 116]
  else if (c <? 32) || is_surrogate c
  then [92; 117; hex_digit (c / 4096); hex_digit (c / 256 mod 16);
        hex_digit (c / 16 mod 16); hex_digit (c mod 16)]
  else [c].

Definition quote (s : jsstring) : jsstring :=
  34 :: (s ≫= quote_code_point) ++ [34].

Fixpoint print_uint (u : Decimal.uint) : jsstring :=
  match u with
  | Decimal.Nil => []
  | Decimal.D0 u => 48 :: print_uint u
  | Decimal.D1 u => 49 :: print_uint u
  | Decimal.D2 u => 50 :: print_uint u
  | Decimal.D3 u => 51 :: print_uint u
  | Decimal.D4 u => 52 :: print_uint u
  | Decimal.D5 u => 53 :: print_uint u
  | Decimal.D6 u => 54 :: print_uint u
  | Decimal.D7 u => 55 :: print_uint u
  | Decimal.D8 u => 56 :: print_uint u
  | Decimal.D9 u => 57 :: print_uint u
  end.

Definition print_int (i : Decimal.int) : jsstring :=
  match i with
  | Decimal.Pos u => print_uint u
  | Decimal.Neg u => 45 :: print_uint u
  end.

(** the texts of a list, separated by commas *)
Fixpoint commas (texts : list jsstring) : jsstring :=
  match texts with
  | [] => []
  | [t] => t
  | t :: texts' => t ++ 44 :: commas texts'
  end.

(** [JSON.stringify(value)], without indentation *)
Fixpoint stringify (v : json) : jsstring :=
  match v with
  | JNull => chars "null"
  | JBool true => chars "true"
  | JBool false => chars "false"
  | JNum n => print_int (Z.to_int n)
  | JStr s => quote s
  | JArr elements => 91 :: commas (stringify <$> elements) ++ [93]
  | JObj members =>
      123 :: commas ((λ m : jsstring * json, quote m.1 ++ 58 :: stringify m.2) <$> members)
        ++ [125]
  end.

Definition is_ws (c : Z) : bool := (c =? 32) || (c =? 9) || (c =? 10) || (c =? 13).
Definition is_digit (c : Z) : bool := utf8.between 48 57 c.

Fixpoint skip_ws (s : jsstring) : jsstring :=
  match s with
  | c :: s' => if is_ws c then skip_ws s' else s
  | [] => []
  end.

(** the rest of the text after the keyword, if the text starts with it *)
Fixpoint expect (keyword s : jsstring) : option jsstring :=
  match keyword with
  | [] => Some s
  | k :: keyword' =>
      match s with
      | c :: s' => if c =? k then expect keyword' s' else None
      | [] => None
      end
  end.

Definition unhex (c : Z) : option Z :=
  if is_digit c then Some (c - 48)
  else if utf8.between 97 102 c then Some (c - 87)
  else if utf8.between 65 70 c then Some (c - 55)
  else None.

(** the character of a one-letter escape *)
Definition unescape (e : Z) : option Z :=
  if e =? 34 then Some 34
  else if e =? 92 then Some 92
  else if e =? 47 then Some 47
  else if e =? 98 then Some 8
  else if e =? 102 then Some 12
  else if e =? 110 then Some 10
  else if e =? 114 then Some 13
  else if e =? 116 then Some 9
  else None.

Definition cons_char (c : Z) (r : option (jsstring * jsstring))
    : option (jsstring * jsstring) :=
  match r with
  | Some (str, rest) => Some (c :: str, rest)
  | None => None
  end.

(** the characters of a string literal, from after the opening quote to the
    closing quote, and the rest of the text *)
Fixpoint parse_chars (s : jsstring) : option (jsstring * jsstring) :=
  match s with
  | [] => None
  | c :: s' =>
      if c =? 34 then Some ([], s')
      else if c =? 92 then
        match s' with
        | e :: s'' =>
            if e =? 117 then
              match s'' with
              | h1 :: h2 :: h3 :: h4 :: s3 =>
                  match unhex h1, unhex h2, unhex h3, unhex h4 with
                  | Some d1, Some d2, Some d3, Some d4 =>
                      cons_char (d1 * 4096 + d2 * 256 + d3 * 16 + d4) (parse_chars s3)
                  | _, _, _, _ => None
                  end
              | _ => None
              end
            else
              match unescape e with
              | Some c' => cons_char c' (parse_chars s'')
              | None => None
              end
        | [] => None
        end
      else if c <? 32 then None
      else cons_char c (parse_chars s')
  end.

(** a high surrogate followed by a low surrogate is one code point *)
Fixpoint pair_surrogates (s : jsstring) : jsstring :=
  match s with
  | [] => []
  | hi :: s' =>
      match s' with
      | lo :: s'' =>
          if utf8.between 0xD800 0xDBFF hi && utf8.between 0xDC00 0xDFFF lo
          then (0x10000 + (hi - 0xD800) * 1024 + (lo - 0xDC00)) :: pair_surrogates s''
          else hi :: pair_surrogates s'
      | [] => [hi]
      end
  end.

Definition parse_string (s : jsstring) : option (jsstring * jsstring) :=
  match parse_chars s with
  | Some (str, rest) => Some (pair_surrogates str, rest)
  | None => None
  end.

Definition digit (c : Z) (u : Decimal.uint) : Decimal.uint :=
  if c =? 48 then Decimal.D0 u
  else if c =? 49 then Decimal.D1 u
  else if c =? 50 then Decimal.D2 u
  else if c =? 51 then Decimal.D3 u
  else if c =? 52 then Decimal.D4 u
  else if c =? 53 then Decimal.D5 u
  else if c =? 54 then Decimal.D6 u
  else if c =? 55 then Decimal.D7 u
  else if c =? 56 then Decimal.D8 u
  else Decimal.D9 u.

Fixpoint read_digits (s : jsstring) : Decimal.uint * jsstring :=
  match s with
  | c :: s' =>
      if is_digit c
      then let (u, rest) := read_digits s' in (digit c u, rest)
      else (Decimal.Nil, s)
  | [] => (Decimal.Nil, [])
  end.

(** what may not follow the digits of an integer *)
Definition continues_number (s : jsstring) : bool :=
  match s with
  | c :: _ => is_digit c || (c =? 46) || (c =? 101) || (c =? 69)
  | [] => false
  end.

Definition parse_digits (s : jsstring) : option (Decimal.uint * jsstring) :=
  match s with
  | c :: s' =>
      if c =? 48 then
        if continues_number s' then None else Some (Decimal.D0 Decimal.Nil, s')
      else if is_digit c then
        let (u, rest) := read_digits s in
        if continues_number rest then None else Some (u, rest)
      else None
  | [] => None
  end.

Definition parse_number (s : jsstring) : option (json * jsstring) :=
  match s with
  | c :: s' =>
      if c =? 45 then
        match parse_digits s' with
        | Some (u, rest) => Some (JNum (Z.of_int (Decimal.Neg u)), rest)
        | None => None
        end
      else
        match parse_digits s with
        | Some (u, rest) => Some (JNum (Z.of_int (Decimal.Pos u)), rest)
        | None => None
        end
  | [] => None
  end.

(** [o[k] = v] on the list of own properties: a key that is there keeps its
    place *)
Fixpoint define (k : jsstring) (v : json) (o : list (jsstring * json))
    : list (jsstring * json) :=
  match o with
  | [] => [(k, v)]
  | (k', v') :: o' => if decide (k' = k) then (k, v) :: o' else (k', v') :: define k v o'
  end.

Definition own_properties (members : list (jsstring * json)) : list (jsstring * json) :=
  foldl (λ o m, define m.1 m.2 o) [] members.

(** The parser, by recursive descent; [fuel] bounds the number of nested
    calls, and [parse] below gives it more than any text can use. *)
Fixpoint parse_value (fuel : nat) (s : jsstring) : option (json * jsstring) :=
  match fuel with
  | O => None
  | S fuel' =>
      match skip_ws s with
      | [] => None
      | c :: s' =>
          if c =? 34 then
            match parse_string s' with
            | Some (str, rest) => Some (JStr str, rest)
            | None => None
            end
          else if c =? 91 then
            match skip_ws s' with
            | c' :: rest =>
                if c' =? 93 then Some (JArr [], rest)
                else match parse_elements fuel' s' with
                     | Some (elements, rest') => Some (JArr elements, rest')
                     | None => None
                     end
            | [] => None
            end
          else if c =? 123 then
            match skip_ws s' with
            | c' :: rest =>
                if c' =? 125 then Some (JObj [], rest)
                else match parse_members fuel' s' with
                     | Some (members, rest') => Some (JObj (own_properties members), rest')
                     | None => None
                     end
            | [] => None
            end
          else if c =? 110 then
            match expect (chars "ull") s' with
            | Some rest => Some (JNull, rest)
            | None => None
            end
          else if c =? 116 then
            match expect (chars "rue") s' with
            | Some rest => Some (JBool true, rest)
            | None => None
            end
          else if c =? 102 then
            match expect (chars "alse") s' with
            | Some rest => Some (JBool false, rest)
            | None => None
            end
          else parse_number (c :: s')
      end
  end
with parse_elements (fuel : nat) (s : jsstring) : option (list json * jsstring) :=
  match fuel with
  | O => None
  | S fuel' =>
      match parse_value fuel' s with
      | Some (v, rest) =>
          match skip_ws rest with
          | c :: rest' =>
              if c =? 44 then
                match parse_elements fuel' rest' with
                | Some (elements, rest'') => Some (v :: elements, rest'')
                | None => None
                end
              else if c =? 93 then Some ([v], rest')
              else None
          | [] => None
          end
      | None => None
      end
  end
with parse_members (fuel : nat) (s : jsstring)
    : option (list (jsstring * json) * jsstring) :=
  match fuel with
  | O => None
  | S fuel' =>
      match skip_ws s with
      | c :: s' =>
          if c =? 34 then
            match parse_string s' with
            | Some (k, rest) =>
                match skip_ws rest with
                | c1 :: rest1 =>
                    if c1 =? 58 then
                      match parse_value fuel' rest1 with
                      | Some (v, rest2) =>
                          match skip_ws rest2 with
                          | c2 :: rest3 =>
                              if c2 =? 44 then
                                match parse_members fuel' rest3 with
                                | Some (members, rest4) => Some ((k, v) :: members, rest4)
                                | None => None
                                end
                              else if c2 =? 125 then Some ([(k, v)], rest3)
                              else None
                          | [] => None
                          end
                      | None => None
                      end
                    else None
                | [] => None
                end
            | None => None
            end
          else None
      | [] => None
      end
  end.

(** [JSON.parse(text)]: a value, and nothing but white space after it *)
Definition parse (text : jsstring) : res json :=
  match parse_value (2 * length text + 2) text with
  | Some (v, rest) =>
      match skip_ws rest with
      | [] => Ok v
      | _ => Throw (SyntaxError "Unexpected non-whitespace character after JSON")
      end
  | None => Throw (SyntaxError "Unexpected token")
  end.
End JSON.

(** ** controllers/interactionController.js, [getComments]: the cursor *)

(** [JSON.parse(Buffer.from(lastKey, 'base64').toString())] in its [try];
    the [catch] answers 400 whatever was thrown *)
Definition parse_lastKey (lastKey : jsstring) : response + json :=
  match JSON.parse (utf8.decode (base64.decode lastKey)) with
  | Ok lastEvaluatedKey => inr lastEvaluatedKey
  | Throw parseError => inl (Response 400 "Invalid lastKey format")
  end.

(** [Buffer.from(JSON.stringify(result.lastEvaluatedKey)).toString('base64')] *)
Definition nextKey (lastEvaluatedKey : json) : jsstring :=
  base64.encode (utf8.encode (JSON.stringify lastEvaluatedKey)).

(** A position marker that [JSON.stringify] writes without loss: its strings
    are sequences of Unicode scalar values, its numbers are safe integers,
    and the keys of an object are distinct. *)
Definition scalar (c : Z) : bool :=
  (0 <=? c) && (c <? 0x110000) && negb (JSON.is_surrogate c).

Fixpoint serializable (v : json) : bool :=
  match v with
  | JNull | JBool _ => true
  | JNum n => (- 2 ^ 53 <? n) && (n <? 2 ^ 53)
  | JStr s => forallb scalar s
  | JArr elements => forallb serializable elements
  | JObj members =>
      bool_decide (NoDup members.*1)
      && forallb (λ m : jsstring * json, forallb scalar m.1 && serializable m.2) members
  end.

Local Close Scope Z_scope.

(** the numerals of the JSON grammar: 0, or digits that do not start with 0 *)
Definition leading (u : Decimal.uint) : bool :=
  match u with
  | Decimal.Nil => false
  | Decimal.D0 Decimal.Nil => true
  | Decimal.D0 _ => false
  | _ => true
  end.

(** what may follow a value inside a text: nothing, a comma, or the bracket
    or brace that closes the enclosing array or object *)
Definition delimited (rest : list Z) : bool :=
  match rest with
  | [] => true
  | c :: _ => bool_decide (c = 44%Z ∨ c = 93%Z ∨ c = 125%Z)
  end.

(** the text of an object member: the quoted key, a colon, the value *)
Definition member_text (m : list Z * json) : list Z :=
  (JSON.quote m.1 ++ 58%Z :: JSON.stringify m.2)%list.

(** [v], written by [JSON.stringify] and followed by [rest], is read back by
    the parser, which stops at [rest] *)
Definition reads_back (v : json) : Prop :=
  ∀ (fuel : nat) (rest : list Z),
    2 * length (JSON.stringify v) < fuel → delimited rest = true →
    JSON.parse_value fuel (JSON.stringify v ++ rest) = Some (v, rest).

(** ** Listings: the queries that are read by pages *)

(** JS truthiness of a parsed JSON value *)
Definition json_truthy (v : json) : bool :=
  match v with
  | JNull => false
  | JBool b => b
  | JNum n => negb (n =? 0)%Z
  | JStr s => negb (bool_decide (s = []))
  | JArr _ | JObj _ => true
  end.

(** The parameters of a query, as the models build them.  [Limit] is the
    number given, [None] when that number is NaN; [ExclusiveStartKey] is set
    only when the model sets it. *)
Module QueryInput.
Inductive value :=
| str (s : string)
| boolean (b : bool).

Record t := Build {
  IndexName : string;
  KeyConditionExpression : string;
  FilterExpression : option string;
  ExpressionAttributeValues : list (string * value);
  ScanIndexForward : option bool;
  Limit : option Z;
  ExclusiveStartKey : option json
}.
End QueryInput.

(** What the document client answers to a query with these parameters in a
    world: the items of the page and the position where it stopped, or the
    error it rejects with.  Which items make a page, and which parameters are
    rejected, is the store's; the listings below are stated for every
    store. *)
Definition documentClient : Type :=
  ∀ V, table V → QueryInput.t → world → res (list V * option json).

Module dynamoDb'.
(** [query] of config/dynamodb.js on such parameters: one remote call, of
    which it returns [result.Items], the array alone *)
Definition query (dynamoDB : documentClient) {V} (T : table V) (params : QueryInput.t)
    : M (queryOutput V) :=
  remote (λ w,
    match dynamoDB V T params w with
    | Ok (Items, LastEvaluatedKey) => (Ok (ItemArray Items), w)
    | Throw error => (Throw error, w)
    end).
End dynamoDb'.

(** the property read [result.LastEvaluatedKey]: an array has no such
    property (a position that [queryOutput] holds as a string is that JSON
    string) *)
Definition get_LastEvaluatedKey {V} (r : queryOutput V) : option json :=
  match r with
  | QueryOutput _ LastEvaluatedKey => (λ k, JStr (chars k)) <$> LastEvaluatedKey
  | ItemArray _ => None
  end.

(** [Promise.all] over calls that are started in the order of the list *)
Fixpoint Promise_all {A} (promises : list (M A)) : M (list A) :=
  match promises with
  | [] => ret []
  | p :: rest =>
      let* a := p in
      let* others := Promise_all rest in
      ret (a :: others)
  end.

(** [array.map(x => x.attr)] on an array that may hold [undefined] *)
Definition map_property {A B} (what : string) (f : A → B) (array : list (option A))
    : M (list B) :=
  Promise_all ((λ x, property what x f) <$> array).

(** the start of the three listing handlers: [lastEvaluatedKey] is [null]
    unless [lastKey] is a non-empty string, which is then decoded *)
Definition decode_lastKey (lastKey : option jsstring) : response + json :=
  match lastKey with
  | Some (c :: s) => parse_lastKey (c :: s)
  | _ => inr JNull
  end.

(** [Buffer.from(JSON.stringify(k)).toString('base64')] when the position is
    truthy, [null] otherwise *)
Definition encode_nextKey (lastEvaluatedKey : option json) : option jsstring :=
  match lastEvaluatedKey with
  | Some k => if json_truthy k then Some (nextKey k) else None
  | None => None
  end.

(** the [{ userId, username, profilePicture }] that the listings attach to
    an item: that of the first user found with the id, or
    [{ userId, username: 'Unknown' }] *)
Definition user_summary (users : list (option UserItem.t)) (userId : string)
    : string * option string * option string :=
  match filter (λ u, UserItem.userId u = userId) (omap id users) with
  | user :: _ => (UserItem.userId user, UserItem.username user, UserItem.profilePicture user)
  | [] => (userId, Some "Unknown", None)
  end.

(** ** models/Interaction.js: [getByContentId] and [getReplies] *)

Module Interaction'.
(** what the two listings resolve to: [{ interactions, lastEvaluatedKey }]
    and [{ replies, lastEvaluatedKey }] *)
Record page := Page {
  interactions : option (list InteractionItem.t);
  lastEvaluatedKey : option json
}.
Record replies_page := RepliesPage {
  replies : option (list InteractionItem.t);
  replies_lastEvaluatedKey : option json
}.

Section store.
Variable dynamoDB : documentClient.

Definition getByContentId (contentId : string) (type : option string) (limit : option Z)
    (lastEvaluatedKey : json) : M page :=
  let params :=
    QueryInput.Build "ContentIndex" "contentId = :contentId"
      (* If type is specified, filter by type *)
      (match or_null type with Some _ => Some "type = :type" | None => None end)
      ((":contentId", QueryInput.str contentId)
         :: match or_null type with
            | Some type => [(":type", QueryInput.str type)]
            | None => []
            end)
      None limit
      (if json_truthy lastEvaluatedKey then Some lastEvaluatedKey else None) in
  let* result := dynamoDb'.query dynamoDB TABLES.INTERACTIONS params in
  ret (Page (get_Items result) (get_LastEvaluatedKey result)).

Definition getReplies (parentCommentId : string) (limit : option Z)
    (lastEvaluatedKey : json) : M replies_page :=
  let params :=
    QueryInput.Build "ParentIndex" "parentId = :parentId" None
      [(":parentId", QueryInput.str parentCommentId)]
      None limit
      (if json_truthy lastEvaluatedKey then Some lastEvaluatedKey else None) in
  let* result := dynamoDb'.query dynamoDB TABLES.INTERACTIONS params in
  ret (RepliesPage (get_Items result) (get_LastEvaluatedKey result)).
End store.
End Interaction'.

(** ** models/Post.js: [create], [getByUserId] and [delete] *)

(** the argument of [Post.create] *)
Module PostData.
Record t := Build {
  postId : option string;
  userId : string;
  content : option string;
  mediaUrls : option (list string);
  mediaType : option string;
  tags : option (list string)
}.
End PostData.

Module Post'.
(** what [getByUserId] resolves to: [{ posts, lastEvaluatedKey }] *)
Record page := Page {
  posts : option (list PostItem.t);
  lastEvaluatedKey : option json
}.

Section store.
Variable dynamoDB : documentClient.

Definition getByUserId (userId : string) (limit : option Z) (lastEvaluatedKey : json)
    : M page :=
  let params :=
    QueryInput.Build "UserIdIndex" "userId = :userId" None
      [(":userId", QueryInput.str userId)]
      (Some false) (* Sort in descending order (newest first) *)
      limit
      (if json_truthy lastEvaluatedKey then Some lastEvaluatedKey else None) in
  let* result := dynamoDb'.query dynamoDB TABLES.POSTS params in
  ret (Page (get_Items result) (get_LastEvaluatedKey result)).
End store.

Definition create (uuidv4 : string) (now : Z) (postData : PostData.t) : M PostItem.t :=
  let postId := or_else (PostData.postId postData) uuidv4 in
  let timestamp := now in
  let postItem :=
    PostItem.Build postId
      (Some (PostData.userId postData))
      (Some (or_else (PostData.content postData) ""))
      (default [] (PostData.mediaUrls postData))
      (Some (or_else (PostData.mediaType postData) "none"))
      (Some 0%Z) (Some 0%Z) (Some 0%Z)
      (default [] (PostData.tags postData))
      (Some timestamp) in
  let* _ := dynamoDb.put TABLES.POSTS postItem true in
  ret postItem.

Definition delete (postId userId : string) : M bool :=
  (* First, confirm user owns the post *)
  let* post := Post.getById postId in
  match post with
  | None => throw (Error "Unauthorized to delete this post")
  | Some post =>
      if decide (PostItem.userId post ≠ Some userId)
      then throw (Error "Unauthorized to delete this post")
      else
        let* _ := dynamoDb.delete TABLES.POSTS postId in
        ret true
  end.
End Post'.

(** ** controllers/interactionController.js: the comment handlers *)

(** The handlers that follow read the clock twice: [now] is the timestamp
    that the model stamps on the row, [sent] the timestamp of the
    notification message. *)
Module interactionController'.
(** [deleteComment]: [Interaction.delete] resolves to [true] or throws *)
Definition deleteComment (commentId userId : string) : M response :=
  try_catch
    (let* success := Interaction.delete commentId userId in
     if negb success
     then ret (Response 404 "Comment not found or not authorized to delete")
     else ret (Response 200 "Comment deleted successfully"))
    (λ error, ret (Response 500 "Server error")).

Definition likeComment (uuidv4 : string) (now sent : Z) (commentId userId : string)
    : M response :=
  try_catch
    (let* comment := Interaction.getById commentId in
     match comment with
     | None => ret (Response 404 "Comment not found")
     | Some comment =>
         if decide (InteractionItem.type comment ≠ "comment")
         then ret (Response 404 "Comment not found")
         else
           let* _ :=
             Interaction.create uuidv4 now
               (InteractionData.Build None "like" userId commentId (Some "") None) in
           let* _ :=
             (if decide (InteractionItem.userId comment ≠ userId)
              then
                try_catch
                  (let* user := User.getById userId in
                   let* commentAuthor := User.getById (InteractionItem.userId comment) in
                   let* username := property "username" user UserItem.username in
                   let notificationMessage :=
                     NotificationMessage.Build "like" userId
                       (Some (InteractionItem.userId comment)) commentId "comment"
                       (template username +:+ " liked your comment") sent in
                   let* _ := snsService.publishNotification notificationMessage in
                   io_emit (Some (InteractionItem.userId comment)) notificationMessage)
                  (λ notifError, ret ())
              else ret ()) in
           ret (Response 200 "Comment liked successfully")
     end)
    (λ error, ret (Response 500 "Server error")).

(** [unlikeComment] builds the parameters of a query and sends nothing *)
Definition unlikeComment (commentId userId : string) : M response :=
  try_catch
    (ret (Response 200 "Comment unliked successfully"))
    (λ error, ret (Response 500 "Server error")).

Section store.
Variable dynamoDB : documentClient.

(** [getComments]: [limit] is what [parseInt(limit)] evaluates to, [None]
    for NaN *)
Definition getComments (contentId : string) (limit : option Z) (lastKey : option jsstring)
    : M response :=
  try_catch
    (match decode_lastKey lastKey with
     | inl invalid => ret invalid
     | inr lastEvaluatedKey =>
         (* Get top-level comments (no parentId) *)
         let* result :=
           Interaction'.getByContentId dynamoDB contentId (Some "comment") limit
             lastEvaluatedKey in
         let* interactions := property "filter" (Interaction'.interactions result) id in
         let comments :=
           filter (λ i, or_null (InteractionItem.parentId i) = None) interactions in
         let userIds := remove_dups (InteractionItem.userId <$> comments) in
         let* users := Promise_all (User.getById <$> userIds) in
         let formattedComments :=
           (λ comment, (comment, user_summary users (InteractionItem.userId comment)))
             <$> comments in
         let nextKey := encode_nextKey (Interaction'.lastEvaluatedKey result) in
         ret (Response 200 "")
     end)
    (λ error, ret (Response 500 "Server error")).

Definition getReplies (commentId : string) (limit : option Z) (lastKey : option jsstring)
    : M response :=
  try_catch
    (match decode_lastKey lastKey with
     | inl invalid => ret invalid
     | inr lastEvaluatedKey =>
         let* result := Interaction'.getReplies dynamoDB commentId limit lastEvaluatedKey in
         let* replies := property "map" (Interaction'.replies result) id in
         let userIds := remove_dups (InteractionItem.userId <$> replies) in
         let* users := Promise_all (User.getById <$> userIds) in
         let formattedReplies :=
           (λ reply, (reply, user_summary users (InteractionItem.userId reply)))
             <$> replies in
         let nextKey := encode_nextKey (Interaction'.replies_lastEvaluatedKey result) in
         ret (Response 200 "")
     end)
    (λ error, ret (Response 500 "Server error")).
End store.
End interactionController'.


(** ** controllers/postController.js: [unlikePost], [getUserPosts] and
       [getTimelinePosts] *)

Module postController'.
Definition unlikePost (postId userId : string) : M response :=
  try_catch
    (let* result := Post.unlike postId userId in
     ret (Response 200 "Post unliked successfully"))
    (λ error, ret (Response 500 "Server error")).

(** [User.getById(id)] for an id read off an item that may lack it: without
    the key attribute the store rejects the request *)
Definition getById_of (id : option string) : M (option UserItem.t) :=
  match id with
  | Some id => User.getById id
  | None => throw (Error "ValidationException")
  end.

(** [getPost]: the post with [author.userId], [author.username] and
    [author.profilePicture] of its author *)
Definition getPost (postId : string) : M response :=
  try_catch
    (let* post := Post.getById postId in
     match post with
     | None => ret (Response 404 "Post not found")
     | Some post =>
         let* author := getById_of (PostItem.userId post) in
         let* author_userId := property "userId" author UserItem.userId in
         let* author_username := property "username" author UserItem.username in
         let* author_profilePicture :=
           property "profilePicture" author UserItem.profilePicture in
         ret (Response 200 "")
     end)
    (λ error, ret (Response 500 "Server error")).

(** [getTimelinePosts]: [limit] is what [parseInt(limit)] evaluates to, a
    natural number *)
Definition getTimelinePosts (userId : string) (limit : nat) : M response :=
  try_catch
    (let* following := User.getFollowing userId in
     (* Add the user's own ID to get their posts too *)
     let userIds := following ++ [userId] in
     let* posts := Post.getTimelinePosts userIds limit in
     let* owners := map_property "userId" PostItem.userId posts in
     let uniqueUserIds := remove_dups owners in
     let* users := Promise_all (getById_of <$> uniqueUserIds) in
     ret (Response 200 ""))
    (λ error, ret (Response 500 "Server error")).

Section store.
Variable dynamoDB : documentClient.

Definition getUserPosts (userId : string) (limit : option Z) (lastKey : option jsstring)
    : M response :=
  try_catch
    (match decode_lastKey lastKey with
     | inl invalid => ret invalid
     | inr lastEvaluatedKey =>
         let* result := Post'.getByUserId dynamoDB userId limit lastEvaluatedKey in
         let* author := User.getById userId in
         match author with
         | None => ret (Response 404 "User not found")
         | Some author =>
             let* posts := property "map" (Post'.posts result) id in
             let formatted :=
               (λ post : PostItem.t,
                  (post, (UserItem.userId author, UserItem.username author,
                          UserItem.profilePicture author))) <$> posts in
             let nextKey := encode_nextKey (Post'.lastEvaluatedKey result) in
             ret (Response 200 "")
         end
     end)
    (λ error, ret (Response 500 "Server error")).
End store.
End postController'.


(** ** models/User.js: [update], [changePassword], [verifyPassword] *)

Module User'.
(** the [updates] that [User.update] reads: the three allowed fields, [None]
    for a field that is [undefined] *)
Record updates := Updates {
  username : option string;
  profilePicture : option string;
  bio : option string
}.

(** [SET updatedAt = :updatedAt] and, for each allowed field that is given,
    [field = :field] *)
Definition SET_profile (timestamp : Z) (updates : updates) (u : UserItem.t) : UserItem.t :=
  UserItem.Build (UserItem.userId u)
    (match username updates with Some v => Some v | None => UserItem.username u end)
    (UserItem.email u)
    (UserItem.passwordHash u)
    (match profilePicture updates with Some v => Some v | None => UserItem.profilePicture u end)
    (match bio updates with Some v => Some v | None => UserItem.bio u end)
    (UserItem.following u) (UserItem.followers u)
    (UserItem.createdAt u) (Some timestamp).

(** [update]: [result.Attributes] with [ReturnValues: 'ALL_NEW'] is the item
    as written *)
Definition update (now : Z) (userId : string) (updates : updates) : M UserItem.t :=
  let timestamp := now in
  let* result := dynamoDb.update TABLES.USERS userId (UserItem.blank userId)
                   (SET_profile timestamp updates) in
  (* Remove sensitive fields *)
  ret (UserItem.delete_passwordHash result).

(** [SET passwordHash = :passwordHash, updatedAt = :updatedAt] *)
Definition SET_passwordHash (passwordHash : string) (updatedAt : Z) (u : UserItem.t)
    : UserItem.t :=
  UserItem.Build (UserItem.userId u) (UserItem.username u) (UserItem.email u)
    (Some (Some passwordHash)) (UserItem.profilePicture u) (UserItem.bio u)
    (UserItem.following u) (UserItem.followers u)
    (UserItem.createdAt u) (Some updatedAt).

Section bcrypt.
(** [bcrypt.genSalt(10)], [bcrypt.hash(password, salt)] and
    [bcrypt.compare(password, hash)] *)
Variable genSalt : string.
Variable hash : string → string → string.
Variable compare : string → string → bool.

Definition changePassword (now : Z) (userId newPassword : string) : M bool :=
  let salt := genSalt in
  let passwordHash := hash newPassword salt in
  let* _ := dynamoDb.update TABLES.USERS userId (UserItem.blank userId)
              (SET_passwordHash passwordHash now) in
  ret true.

(** [verifyPassword]: [false] without an item or without a hash (an empty
    string is falsy) *)
Definition verifyPassword (userId password : string) : M bool :=
  let* result := dynamoDb.get TABLES.USERS userId in
  match result with
  | None => ret false
  | Some result =>
      match UserItem.passwordHash result with
      | Some (Some passwordHash) =>
          if decide (passwordHash = "") then ret false
          else ret (compare password passwordHash)
      | _ => ret false
      end
  end.
End bcrypt.
End User'.

(** ** controllers/authController.js: [changePassword] *)

Module authController.
Section bcrypt.
Variable genSalt : string.
Variable hash : string → string → string.
Variable compare : string → string → bool.

Definition changePassword (now : Z) (currentPassword newPassword userId : string)
    : M response :=
  try_catch
    (let* isPasswordValid := User'.verifyPassword compare userId currentPassword in
     if negb isPasswordValid
     then ret (Response 401 "Current password is incorrect")
     else
       let* _ := User'.changePassword genSalt hash now userId newPassword in
       ret (Response 200 "Password changed successfully"))
    (λ error, ret (Response 500 "Server error")).
End bcrypt.
End authController.

(** ** models/Notification.js: [markAsRead] and [delete];
       controllers/notificationController.js *)

(** [error.message] *)
Definition exn_message (e : exn) : string :=
  match e with
  | Error message | TypeError message | SyntaxError message => message
  | ConditionalCheckFailedException => "The conditional request failed"
  | ValidationException => "One or more parameter values were invalid"
  | TransactionCanceledException => "Transaction cancelled"
  | ServiceUnavailable => "Service Unavailable"
  end.

Module Notification'.
(** [notification.Item], read on what [dynamoDb.get] resolved to.  The
    wrapper has returned [result.Item] already, so this reads the attribute
    [Item] of the stored notification, and the items of the table, which
    [create] writes, have no attribute of that name. *)
Definition get_Item (notification : NotificationItem.t) : option NotificationItem.t :=
  None.

(** [SET #read = :read] *)
Definition SET_read (read : bool) (n : NotificationItem.t) : NotificationItem.t :=
  NotificationItem.Build (NotificationItem.notificationId n)
    (NotificationItem.recipientId n) (NotificationItem.senderId n)
    (NotificationItem.type n) (NotificationItem.contentId n)
    (NotificationItem.contentType n) (NotificationItem.message n)
    read (NotificationItem.timestamp n).

(** the item that an update makes under a key that holds none *)
Definition blank (k : string) : NotificationItem.t :=
  NotificationItem.Build k "" "" "" None None "" false 0.

Definition markAsRead (notificationId userId : string) : M bool :=
  let* notification := dynamoDb.get TABLES.NOTIFICATIONS notificationId in
  let* Item := property "Item" notification get_Item in
  match Item with
  | None => throw (Error "Notification not found")
  | Some Item =>
      if decide (NotificationItem.recipientId Item ≠ userId)
      then throw (Error "Not authorized to update this notification")
      else
        let* _ := dynamoDb.update TABLES.NOTIFICATIONS notificationId
                    (blank notificationId) (SET_read true) in
        ret true
  end.

Definition delete (notificationId userId : string) : M bool :=
  let* notification := dynamoDb.get TABLES.NOTIFICATIONS notificationId in
  let* Item := property "Item" notification get_Item in
  match Item with
  | None => throw (Error "Notification not found")
  | Some Item =>
      if decide (NotificationItem.recipientId Item ≠ userId)
      then throw (Error "Not authorized to delete this notification")
      else
        let* _ := dynamoDb.delete TABLES.NOTIFICATIONS notificationId in
        ret true
  end.

(** what [getByUserId] resolves to: [{ notifications, lastEvaluatedKey }] *)
Record page := Page {
  notifications : option (list NotificationItem.t);
  lastEvaluatedKey : option json
}.

Section store.
Variable dynamoDB : documentClient.

Definition getByUserId (userId : string) (limit : option Z) (lastEvaluatedKey : json)
    (unreadOnly : bool) : M page :=
  let params :=
    QueryInput.Build "RecipientIndex" "recipientId = :recipientId"
      (* Add filter for unread notifications if requested *)
      (if unreadOnly then Some "read = :read" else None)
      ((":recipientId", QueryInput.str userId)
         :: if unreadOnly then [(":read", QueryInput.boolean false)] else [])
      (Some false) (* Sort in descending order (newest first) *)
      limit
      (if json_truthy lastEvaluatedKey then Some lastEvaluatedKey else None) in
  let* result := dynamoDb'.query dynamoDB TABLES.NOTIFICATIONS params in
  ret (Page (get_Items result) (get_LastEvaluatedKey result)).

(** [markAllAsRead]: one update for each unread notification of the user *)
Definition markAllAsRead (userId : string) : M bool :=
  let* unreadNotifications := getByUserId userId (Some 100%Z) JNull true in
  let* notifications := property "map" (notifications unreadNotifications) id in
  let updatePromises :=
    (λ notification,
       dynamoDb.update TABLES.NOTIFICATIONS (NotificationItem.notificationId notification)
         (blank (NotificationItem.notificationId notification)) (SET_read true))
      <$> notifications in
  let* _ := Promise_all updatePromises in
  ret true.
End store.
End Notification'.

Module notificationController.
Definition markAsRead (notificationId userId : string) : M response :=
  try_catch
    (let* _ := Notification'.markAsRead notificationId userId in
     ret (Response 200 "Notification marked as read"))
    (λ error,
       if bool_decide (exn_message error = "Notification not found"
                       ∨ exn_message error = "Not authorized to update this notification")
       then ret (Response 404 (exn_message error))
       else ret (Response 500 "Server error")).

Definition deleteNotification (notificationId userId : string) : M response :=
  try_catch
    (let* _ := Notification'.delete notificationId userId in
     ret (Response 200 "Notification deleted"))
    (λ error,
       if bool_decide (exn_message error = "Notification not found"
                       ∨ exn_message error = "Not authorized to delete this notification")
       then ret (Response 404 (exn_message error))
       else ret (Response 500 "Server error")).

Section store.
Variable dynamoDB : documentClient.

(** [getNotifications]: [limit] is what [parseInt(limit)] evaluates to,
    [unreadOnly] the query parameter *)
Definition getNotifications (userId : string) (limit : option Z)
    (lastKey : option jsstring) (unreadOnly : option string) : M response :=
  try_catch
    (match decode_lastKey lastKey with
     | inl invalid => ret invalid
     | inr lastEvaluatedKey =>
         (* Convert unreadOnly to boolean *)
         let showUnreadOnly := bool_decide (unreadOnly = Some "true") in
         let* result :=
           Notification'.getByUserId dynamoDB userId limit lastEvaluatedKey
             showUnreadOnly in
         let* notifications := property "map" (Notification'.notifications result) id in
         let senderIds := remove_dups (NotificationItem.senderId <$> notifications) in
         let* users := Promise_all (User.getById <$> senderIds) in
         let formattedNotifications :=
           (λ notification,
              (notification, user_summary users (NotificationItem.senderId notification)))
             <$> notifications in
         let nextKey := encode_nextKey (Notification'.lastEvaluatedKey result) in
         ret (Response 200 "")
     end)
    (λ error, ret (Response 500 "Server error")).

Definition markAllAsRead (userId : string) : M response :=
  try_catch
    (let* _ := Notification'.markAllAsRead dynamoDB userId in
     ret (Response 200 "All notifications marked as read"))
    (λ error, ret (Response 500 "Server error")).
End store.
End notificationController.

(** ** The text of a cursor *)

(** the characters of base64 text: A-Z, a-z, 0-9, [+], [/] and the padding
    [=] *)
Definition base64_char (c : Z) : bool :=
  ((65 <=? c) && (c <=? 90) || (97 <=? c) && (c <=? 122) || (48 <=? c) && (c <=? 57)
   || (c =? 43) || (c =? 47) || (c =? 61))%Z.

(** ** Sample data *)

(** a post of user u1 with no comment yet *)
Definition post_p1 : PostItem.t :=
  PostItem.Build "p1" (Some "u1") (Some "hello") [] (Some "none")
                 (Some 0%Z) (Some 0%Z) (Some 0%Z) [] (Some 1000%Z).

(** post p1 with a comment c1 of user u2 and a comment counter that is 0 *)
Definition world_c1 : world :=
  set_interactions {[ "c1" := comment_row "c1" 2000 None "u2" "p1" (Some "nice") None ]}
    (set_posts {[ "p1" := post_p1 ]} empty_world).

(** a registered user, as [User.create] stores it *)
Definition alice : UserItem.t :=
  UserItem.Build "u1" (Some "alice") (Some "alice@example.org")
    (Some (Some "$2a$10$hash")) None (Some "") (UserItem.Array []) (UserItem.Array [])
    (Some 1000%Z) (Some 1000%Z).

Definition world_alice : world := set_users {[ "u1" := alice ]} empty_world.

Definition bob_data : UserData.t :=
  UserData.Build None "bob" "bob@example.org" (Some "secret") None None None None.

(** limit 5 per window of 60 seconds, and a request of one client on one
    route *)
Definition five_per_minute : rateLimit.options := rateLimit.Options 5 60 "ip".
Definition get_posts : rateLimit.request :=
  rateLimit.Request (Some "10.0.0.7") None None "GET" "/api/posts" "/timeline".

(** users u1 and u2, post p1 of u1, and comment c1 of u2 on it *)
Definition world_p1 : world :=
  set_users {[ "u1" := alice;
               "u2" := UserItem.Build "u2" (Some "bob") (Some "bob@example.org")
                         (Some None) None (Some "") (UserItem.Array []) (UserItem.Array [])
                         (Some 1000%Z) (Some 1000%Z) ]}
    (set_posts {[ "p1" := ADD_commentsCount 1 post_p1 ]}
       (set_interactions
          {[ "c1" := comment_row "c1" 2000 None "u2" "p1" (Some "nice") None ]}
          empty_world)).

(** a post of [owner] created at [t] *)
Definition post_at (postId owner : string) (t : Z) : PostItem.t :=
  PostItem.Build postId (Some owner) (Some "") [] (Some "none")
                 (Some 0%Z) (Some 0%Z) (Some 0%Z) [] (Some t).

(** owner u1 with posts at 10, 8 and 5, owner u2 with posts at 9 and 7 *)
Definition world_timeline : world :=
  set_posts {[ "a" := post_at "a" "u1" 10; "b" := post_at "b" "u1" 8;
               "c" := post_at "c" "u1" 5;
               "d" := post_at "d" "u2" 9; "e" := post_at "e" "u2" 7 ]}
    empty_world.

(** the position that a page of the comments of p1 ends at: the keys of the
    table and of its ContentIndex *)
Definition lastEvaluatedKey_c1 : json :=
  JObj [ (chars "contentId", JStr (chars "p1"));
         (chars "timestamp", JStr (chars "2024-01-01T00:00:00.000Z"));
         (chars "interactionId", JStr (chars "c1")) ].

(** users u1 and u2, post p1 of u1 with one like, the like row l1 of u2 *)
Definition world_l1 : world :=
  set_users (users world_p1)
    (set_posts {[ "p1" := ADD_likesCount 1 post_p1 ]}
       (set_interactions {[ "l1" := like_row "l1" 2000 "p1" "u2" ]} empty_world)).

(** a stand-in for bcrypt in the examples: the hash is the password followed
    by the salt, and a password matches a hash that starts with it and goes
    on with the salt "salt" *)
Definition sample_hash (password salt : string) : string := password +:+ salt.
Definition sample_compare (password passwordHash : string) : bool :=
  bool_decide (passwordHash = password +:+ "salt").

(** user u1 with the hash of "secret", as [changePassword] stores it *)
Definition world_secret : world :=
  set_users {[ "u1" := User'.SET_passwordHash "secretsalt" 1500 alice ]} empty_world.

(** a notification of u2's like, addressed to u1 *)
Definition world_n1 : world :=
  set_notifications
    {[ "n1" := NotificationItem.Build "n1" "u1" "u2" "like" (Some "p1") (Some "post")
                 "bob liked your post" false 2000 ]}
    empty_world.

(** users u1 and u2, a reel r1 of u1 and a comment c0 of u2 on it; no post *)
Definition world_r1 : world :=
  set_users (users world_p1)
    (set_stories
       {[ "r1" := StoryItem.Build "r1" "reel" "u1" "https://cdn/r1.mp4" "video" "" []
                    1000 87400 ]}
       (set_interactions
          {[ "c0" := comment_row "c0" 2000 None "u2" "r1" (Some "first") None ]}
          empty_world)).

(** [world_p1] with a second post, p2 of u2 *)
Definition world_p2 : world :=
  set_posts (<[ "p2" := post_at "p2" "u2" 2500 ]> (posts world_p1)) world_p1.

(** [world_p1] after the reply c2 of u1 to the comment c1 *)
Definition world_reply : world :=
  after (interactionController.addComment "c2" 3000 [] "p1" (Some "thanks") (Some "c1") "u1")
    world_p1.

(** * Properties *)

(** ** The monad and the store *)

Lemma remote_quiet {A} (body : M A) (w : world) :
  faults w = [] → remote body w = body w.
Proof. intros H. unfold remote. by rewrite H. Qed.

Lemma insert_sorted_perm {A} (cmp : A → A → Z) (x : A) (l : list A) :
  insert_sorted cmp x l ≡ₚ x :: l.
Proof.
  induction l as [|y l IH]; simpl; [done|].
  destruct (cmp x y <=? 0)%Z; [done|].
  rewrite IH. apply Permutation_swap.
Qed.

Lemma stable_sort_perm {A} (cmp : A → A → Z) (l : list A) :
  stable_sort cmp l ≡ₚ l.
Proof.
  induction l as [|x l IH]; simpl; [done|].
  unfold stable_sort in *. simpl. rewrite insert_sorted_perm. by rewrite IH.
Qed.

(** ** Counting the rows of a table *)

Section counting.
Context {V : Type} (P : string * V → Prop) `{!∀ x, Decision (P x)}.

Lemma size_filter_insert_fresh (m : gmap string V) (k : string) (v : V) :
  m !! k = None →
  size (filter P (<[k := v]> m))
  = if decide (P (k, v)) then S (size (filter P m)) else size (filter P m).
Proof.
  intros Hk. rewrite map_filter_insert. destruct (decide (P (k, v))).
  - apply map_size_insert_None. apply map_lookup_filter_None. left. done.
  - by rewrite delete_id.
Qed.

Lemma size_filter_delete (m : gmap string V) (k : string) (v : V) :
  m !! k = Some v →
  size (filter P m)
  = if decide (P (k, v)) then S (size (filter P (delete k m)))
    else size (filter P (delete k m)).
Proof.
  intros Hk. rewrite map_filter_delete, map_size_delete.
  destruct (decide (P (k, v))) as [HP|HP].
  - assert (filter P m !! k = Some v) as -> by (by apply map_lookup_filter_Some).
    assert (size (filter P m) ≠ 0); [|simpl; lia].
    intros H0. apply map_size_empty_inv in H0.
    assert (filter P m !! k = Some v) as Hl by (by apply map_lookup_filter_Some).
    rewrite H0 in Hl. by rewrite lookup_empty in Hl.
  - assert (filter P m !! k = None) as ->; [|done].
    apply map_lookup_filter_None. right. intros v' Hv'. congruence.
Qed.
End counting.

(** ** What the ledger operations do to a world that refuses nothing *)

Lemma like_after (w : world) uuidv4 now postId userId :
  faults w = [] →
  after (Post.like uuidv4 now postId userId) w
  = set_interactions (<[uuidv4 := like_row uuidv4 now postId userId]> (interactions w))
      (set_posts (<[postId := ADD_likesCount 1 (default (PostItem.blank postId) (posts w !! postId))]>
                    (posts w)) w).
Proof.
  destruct w as [us ps ixs ss ns rl pub em fs]; simpl; intros ->.
  unfold after, Post.like, Post.read_likesCount, Post.getById, bind,
    dynamoDb.transactWrite, dynamoDb.get, remote; simpl.
  rewrite lookup_insert_eq. reflexivity.
Qed.

Lemma scan_index_elem {V} (m : gmap string V) condition range fwd Limit (x : V) :
  x ∈ scan_index m condition range fwd Limit →
  ∃ k, m !! k = Some x ∧ condition x = true.
Proof.
  unfold scan_index. intros Hx.
  assert (x ∈ filter (λ v, condition v = true) (map_to_list m).*2) as Hf.
  { assert (∀ l : list V, x ∈ from_option (λ n, take n l) l Limit → x ∈ l) as Hcut.
    { intros l. destruct Limit as [n|]; simpl; [|done].
      intros Hin. by eapply subseteq_take. }
    apply Hcut in Hx. destruct fwd.
    - by rewrite stable_sort_perm in Hx.
    - rewrite elem_of_reverse in Hx. by rewrite stable_sort_perm in Hx. }
  apply list_elem_of_filter in Hf as [Hc Hin].
  apply list_elem_of_fmap in Hin as [[k v] [-> Hkv]].
  apply elem_of_map_to_list in Hkv. eauto.
Qed.

(** the query of [Post.unlike] names [contentId], which is no key of the
    index, and [type], a reserved word: the store refuses it, and [unlike]
    throws before it reads or writes *)
Lemma unlike_throws (w : world) postId userId :
  ∃ e, Post.unlike postId userId w = (Throw e, set_faults (tail (faults w)) w).
Proof.
  destruct w as [us ps ixs ss ns rl pub em fs].
  unfold Post.unlike, bind, dynamoDb.query_on, remote, throw; simpl.
  destruct fs as [|[] fs]; simpl; eauto.
Qed.

Lemma unlike_after (w : world) postId userId :
  faults w = [] → after (Post.unlike postId userId) w = w.
Proof.
  intros Hf. unfold after. destruct (unlike_throws w postId userId) as [e ->].
  destruct w; simpl in *. by subst.
Qed.

Lemma comment_after (w : world) uuidv4 now interactionId userId contentId content parentId :
  faults w = [] →
  step (CommentOp uuidv4 now interactionId userId contentId content parentId) w
  = match or_null parentId, interactions w !! or_else interactionId uuidv4 with
    | Some _, None =>
        set_posts (<[contentId := ADD_commentsCount 1
                       (default (PostItem.blank contentId) (posts w !! contentId))]>
                     (posts w))
          (set_interactions
             (<[or_else interactionId uuidv4 :=
                  comment_row uuidv4 now interactionId userId contentId content parentId]>
                (interactions w)) w)
    | _, _ => w
    end.
Proof.
  destruct w as [us ps ixs ss ns rl pub em fs]; simpl; intros ->.
  unfold after, Interaction.create, bind, dynamoDb.put, dynamoDb.put_null_key,
    dynamoDb.update, remote; simpl.
  unfold comment_row.
  destruct (or_null parentId) as [parent|];
    destruct (ixs !! or_else interactionId uuidv4) as [i|] eqn:Hi;
    simpl; rewrite ?Hi; simpl; done.
Qed.

Lemma delete_after (w : world) interactionId userId :
  faults w = [] →
  after (Interaction.delete interactionId userId) w
  = match interactions w !! interactionId with
    | None => w
    | Some i =>
        if decide (InteractionItem.userId i ≠ userId) then w
        else
          let w' := set_interactions (delete interactionId (interactions w)) w in
          if decide (InteractionItem.type i = "comment")
          then set_posts (<[InteractionItem.contentId i :=
                              ADD_commentsCount (-1)
                                (default (PostItem.blank (InteractionItem.contentId i))
                                   (posts w !! InteractionItem.contentId i))]>
                            (posts w)) w'
          else w'
    end.
Proof.
  destruct w as [us ps ixs ss ns rl pub em fs]; simpl; intros ->.
  unfold after, Interaction.delete, Interaction.getById, bind, dynamoDb.get,
    dynamoDb.delete, dynamoDb.update, remote; simpl.
  destruct (ixs !! interactionId) as [i|]; simpl; [|done].
  destruct (decide (InteractionItem.userId i ≠ userId)); simpl; [done|].
  destruct (decide (InteractionItem.type i = "comment")); simpl; done.
Qed.

(** ** Counters and rows under one write *)

Lemma counts_ADD_likesCount (w w' : world) (p c : string) (d : Z) :
  posts w' = <[p := ADD_likesCount d (default (PostItem.blank p) (posts w !! p))]> (posts w) →
  likeCount c w' = (if decide (c = p) then likeCount c w + d else likeCount c w)%Z
  ∧ commentCount c w' = commentCount c w.
Proof.
  intros Hp. unfold likeCount, commentCount. rewrite Hp.
  destruct (decide (c = p)) as [->|Hne].
  - rewrite lookup_insert_eq. destruct (posts w !! p) as [q|]; simpl; done.
  - rewrite lookup_insert_ne by done. done.
Qed.

Lemma counts_ADD_commentsCount (w w' : world) (p c : string) (d : Z) :
  posts w' = <[p := ADD_commentsCount d (default (PostItem.blank p) (posts w !! p))]> (posts w) →
  commentCount c w' = (if decide (c = p) then commentCount c w + d else commentCount c w)%Z
  ∧ likeCount c w' = likeCount c w.
Proof.
  intros Hp. unfold likeCount, commentCount. rewrite Hp.
  destruct (decide (c = p)) as [->|Hne].
  - rewrite lookup_insert_eq. destruct (posts w !! p) as [q|]; simpl; done.
  - rewrite lookup_insert_ne by done. done.
Qed.

Lemma undeleted_insert (w w' : world) (k : string) (row : InteractionItem.t) ty c :
  interactions w' = <[k := row]> (interactions w) →
  interactions w !! k = None →
  undeleted ty c w'
  = if decide (targets ty c (k, row)) then S (undeleted ty c w) else undeleted ty c w.
Proof. intros Hi Hk. unfold undeleted. rewrite Hi. by apply size_filter_insert_fresh. Qed.

Lemma undeleted_delete (w w' : world) (k : string) (row : InteractionItem.t) ty c :
  interactions w' = delete k (interactions w) →
  interactions w !! k = Some row →
  undeleted ty c w
  = if decide (targets ty c (k, row)) then S (undeleted ty c w') else undeleted ty c w'.
Proof. intros Hi Hk. unfold undeleted. rewrite Hi. by apply size_filter_delete. Qed.

Lemma keyed_insert (w w' : world) (k : string) (row : InteractionItem.t) :
  interactions w' = <[k := row]> (interactions w) →
  InteractionItem.interactionId row = k → keyed w → keyed w'.
Proof.
  intros Hi Hrow Hw k' i. rewrite Hi. destruct (decide (k = k')) as [->|Hne].
  - rewrite lookup_insert_eq. by intros [= <-].
  - rewrite lookup_insert_ne by done. apply Hw.
Qed.

Lemma keyed_delete (w w' : world) (k : string) :
  interactions w' = delete k (interactions w) → keyed w → keyed w'.
Proof.
  intros Hi Hw k' i. rewrite Hi. intros [_ Hl]%lookup_delete_Some. by apply Hw.
Qed.

(** ** One operation keeps the counters in step with the ledger *)

Ltac count_cases :=
  repeat case_decide; unfold targets in *; simpl in *; subst;
  first [lia | done | exfalso; intuition congruence].

Lemma like_steady (w : world) uuidv4 now postId userId :
  steady w → admissible (LikeOp uuidv4 now postId userId) w →
  steady (step (LikeOp uuidv4 now postId userId) w).
Proof.
  intros (Hf & Hk & Hc) Hfresh. simpl in *. rewrite like_after by done.
  set (w' := set_interactions _ _).
  assert (posts w' = <[postId := ADD_likesCount 1
            (default (PostItem.blank postId) (posts w !! postId))]> (posts w)) as Hp by done.
  assert (interactions w' = <[uuidv4 := like_row uuidv4 now postId userId]> (interactions w))
    as Hi by done.
  split; [done|]. split; [by eapply keyed_insert|].
  intros c. destruct (Hc c) as [Hl Hm].
  destruct (counts_ADD_likesCount w w' postId c 1 Hp) as [-> ->].
  rewrite !(undeleted_insert w w' uuidv4 _ _ c Hi Hfresh).
  split; count_cases.
Qed.

Lemma is_like_of_true (userId postId : string) (i : InteractionItem.t) :
  Post.is_like_of userId postId i = true →
  InteractionItem.userId i = userId
  ∧ InteractionItem.contentId i = postId
  ∧ InteractionItem.type i = "like".
Proof.
  unfold Post.is_like_of. rewrite !andb_true_iff, !bool_decide_eq_true. tauto.
Qed.

Lemma unlike_steady (w : world) postId userId :
  steady w → steady (step (UnlikeOp postId userId) w).
Proof. intros Hw. simpl. rewrite unlike_after; [done|apply Hw]. Qed.

Lemma comment_steady (w : world) uuidv4 now interactionId userId contentId content parentId :
  steady w →
  steady (step (CommentOp uuidv4 now interactionId userId contentId content parentId) w).
Proof.
  intros (Hf & Hk & Hc). rewrite comment_after by done.
  destruct (or_null parentId) as [parent|] eqn:Hparent; [|done].
  destruct (interactions w !! or_else interactionId uuidv4) eqn:Hfresh; [done|].
  set (w' := set_posts _ _).
  assert (posts w' = <[contentId := ADD_commentsCount 1
            (default (PostItem.blank contentId) (posts w !! contentId))]> (posts w)) as Hp by done.
  assert (interactions w'
          = <[or_else interactionId uuidv4 :=
                comment_row uuidv4 now interactionId userId contentId content parentId]>
              (interactions w)) as Hi by done.
  split; [done|]. split; [by eapply keyed_insert|].
  intros c. destruct (Hc c) as [Hl Hm].
  destruct (counts_ADD_commentsCount w w' contentId c 1 Hp) as [-> ->].
  rewrite !(undeleted_insert w w' _ _ _ c Hi Hfresh).
  split; count_cases.
Qed.

Lemma delete_steady (w : world) interactionId userId :
  steady w → admissible (DeleteCommentOp interactionId userId) w →
  steady (step (DeleteCommentOp interactionId userId) w).
Proof.
  intros (Hf & Hk & Hc) Hadm. simpl in *. rewrite delete_after by done.
  destruct (interactions w !! interactionId) as [i|] eqn:Hrow; [|done].
  destruct (decide (InteractionItem.userId i ≠ userId)); [done|].
  specialize (Hadm i eq_refl). rewrite decide_True by done. simpl.
  set (w' := set_posts _ _).
  assert (posts w' = <[InteractionItem.contentId i := ADD_commentsCount (-1)
            (default (PostItem.blank (InteractionItem.contentId i))
               (posts w !! InteractionItem.contentId i))]> (posts w)) as Hp by done.
  assert (interactions w' = delete interactionId (interactions w)) as Hi by done.
  split; [done|]. split; [by eapply keyed_delete|].
  intros c. destruct (Hc c) as [Hl Hm].
  destruct (counts_ADD_commentsCount w w' _ c (-1) Hp) as [-> ->].
  rewrite Hl, Hm, !(undeleted_delete w w' interactionId i _ c Hi Hrow).
  split; count_cases.
Qed.

Lemma step_steady (o : operation) (w : world) :
  steady w → admissible o w → steady (step o w).
Proof.
  destruct o; intros Hw Ha.
  - by apply like_steady.
  - by apply unlike_steady.
  - by apply comment_steady.
  - by apply delete_steady.
Qed.

Lemma run_steady (ops : list operation) (w : world) :
  steady w → admissible_run ops w → steady (run ops w).
Proof.
  revert w. induction ops as [|o ops IH]; intros w Hw Ha; [done|].
  destruct Ha as [Ho Hops]. simpl. apply IH; [by apply step_steady|done].
Qed.

(** ** The interaction ledger: claims *)

(** the sibling path: [Post.like] writes the counter and the row in one
    transaction, so whatever calls are refused it leaves both or neither *)
Lemma like_all_or_nothing (w : world) uuidv4 now postId userId :
  let w' := after (Post.like uuidv4 now postId userId) w in
  (posts w' = posts w ∧ interactions w' = interactions w)
  ∨ (posts w' = <[postId := ADD_likesCount 1 (default (PostItem.blank postId) (posts w !! postId))]>
                  (posts w)
     ∧ interactions w' = <[uuidv4 := like_row uuidv4 now postId userId]> (interactions w)).
Proof.
  destruct w as [us ps ixs ss ns rl pub em fs]; simpl.
  unfold after, Post.like, Post.read_likesCount, Post.getById, bind,
    dynamoDb.transactWrite, dynamoDb.get, remote; simpl.
  destruct fs as [|[] fs]; simpl.
  - right. by rewrite lookup_insert_eq.
  - by left.
  - right. destruct fs as [|[] fs]; simpl; [by rewrite lookup_insert_eq|done|].
    by rewrite lookup_insert_eq.
Qed.

(** C1 (the code departs from it): [Interaction.create] with [type: 'comment']
    writes the row and the counter in two separate calls.  When the store
    takes the first and refuses the second, the call fails and leaves the
    comment row appended with the counter of the post not incremented: here
    the reply c2 to the comment c1 on post p1, whose counter stays at 1 with
    two comments in the ledger. *)
Theorem create_comment_partial_write :
  let w := set_faults [false; true] world_p1 in
  let reply := InteractionData.Build None "comment" "u1" "p1" (Some "thanks") (Some "c1") in
  let w' := after (Interaction.create "c2" 3000 reply) w in
  result (Interaction.create "c2" 3000 reply) w = Throw ServiceUnavailable
  ∧ interactions w' !! "c2"
    = Some (comment_row "c2" 3000 None "u1" "p1" (Some "thanks") (Some "c1"))
  ∧ posts w' = posts w
  ∧ undeleted "comment" "p1" w' = 2
  ∧ commentCount "p1" w' = 1%Z.
Proof. vm_compute. done. Qed.

Lemma counters_match_world_p1 : counters_match world_p1.
Proof.
  intros c. unfold likeCount, commentCount, undeleted, world_p1. simpl.
  rewrite !map_filter_singleton. destruct (decide (c = "p1")) as [->|Hne].
  - rewrite lookup_singleton_eq. simpl.
    by rewrite map_size_empty, map_size_singleton.
  - rewrite lookup_singleton_ne by done. simpl.
    rewrite ?decide_False by (unfold targets; simpl; intros [_ ?]; done).
    by rewrite map_size_empty.
Qed.

(** C2 (the code departs from it): the counters do not follow the ledger
    through every sequence of operations.  From any state whose counters
    match, a comment that replies to another, created under a free id on a
    store that takes the put of the row and refuses the update of the
    counter, leaves one more undeleted comment on the content than its
    comment counter says. *)
Theorem counters_drift_when_the_update_is_refused
    (w : world) (uuidv4 : string) (now : Z) (userId contentId parentId : string)
    (content : option string) :
  counters_match w →
  interactions w !! uuidv4 = None →
  parentId ≠ "" →
  let reply := InteractionData.Build None "comment" userId contentId content (Some parentId) in
  let w' := after (Interaction.create uuidv4 now reply) (set_faults [false; true] w) in
  Z.of_nat (undeleted "comment" contentId w') = (commentCount contentId w' + 1)%Z
  ∧ ¬ counters_match w'.
Proof.
  intros Hm Hfresh Hparent reply w'.
  assert (interactions w'
          = <[uuidv4 := comment_row uuidv4 now None userId contentId content (Some parentId)]>
              (interactions w)
          ∧ posts w' = posts w) as [Hi Hp].
  { subst w' reply. destruct w as [us ps ixs ss ns rl pub em fs]; simpl in *.
    unfold after, Interaction.create, bind, dynamoDb.put, remote, comment_row, or_null; simpl.
    rewrite decide_False by done. simpl. rewrite Hfresh. simpl. done. }
  assert (Z.of_nat (undeleted "comment" contentId w') = (commentCount contentId w' + 1)%Z) as Hd.
  { rewrite (undeleted_insert w w' uuidv4 _ "comment" contentId Hi Hfresh).
    rewrite decide_True by done.
    unfold commentCount. rewrite Hp. destruct (Hm contentId) as [_ Hc].
    unfold commentCount in Hc. lia. }
  split; [exact Hd|]. intros Hm'. destruct (Hm' contentId) as [_ Hc]. lia.
Qed.

Lemma counters_drift_when_the_update_is_refused_witness :
  Z.of_nat (undeleted "comment" "p1"
              (after (Interaction.create "c2" 3000
                        (InteractionData.Build None "comment" "u1" "p1" (Some "thanks")
                           (Some "c1")))
                 (set_faults [false; true] world_p1)))
  = (commentCount "p1"
       (after (Interaction.create "c2" 3000
                 (InteractionData.Build None "comment" "u1" "p1" (Some "thanks") (Some "c1")))
          (set_faults [false; true] world_p1)) + 1)%Z.
Proof.
  apply (proj1 (counters_drift_when_the_update_is_refused world_p1 "c2" 3000 "u1" "p1" "c1"
                  (Some "thanks") counters_match_world_p1 eq_refl ltac:(done))).
Defined.

(** C4 as stated fails: a successful removal of a comment can leave the
    comment counter negative.  With the counter of p1 at 0 and comment c1 in
    the ledger, removing c1 succeeds and leaves the counter at -1. *)
Lemma remove_has_no_floor :
  ¬ (∀ (w : world) (interactionId actorId : string) (i : InteractionItem.t),
       interactions w !! interactionId = Some i →
       InteractionItem.type i = "comment" →
       result (Interaction.delete interactionId actorId) w = Ok true →
       (0 ≤ commentCount (InteractionItem.contentId i)
              (after (Interaction.delete interactionId actorId) w))%Z).
Proof.
  intros H.
  specialize (H world_c1 "c1" "u2"
                (comment_row "c1" 2000 None "u2" "p1" (Some "nice") None)).
  vm_compute in H. by apply H.
Qed.

(** C4, amended: [Interaction.delete] loads the interaction first and throws
    'Unauthorized to delete this interaction', with nothing written, when the
    stored actor is not the caller; when it succeeds on a comment the row is
    gone and the comment counter of the owning content is the counter before
    minus 1, with no floor. *)
Theorem remove_checks_actor_then_decrements
    (w : world) (interactionId actorId : string) (i : InteractionItem.t) :
  faults w = [] →
  interactions w !! interactionId = Some i →
  (InteractionItem.userId i ≠ actorId →
     Interaction.delete interactionId actorId w
     = (Throw (Error "Unauthorized to delete this interaction"), w))
  ∧ (InteractionItem.userId i = actorId → InteractionItem.type i = "comment" →
     let w' := after (Interaction.delete interactionId actorId) w in
     result (Interaction.delete interactionId actorId) w = Ok true
     ∧ interactions w' !! interactionId = None
     ∧ commentCount (InteractionItem.contentId i) w'
       = (commentCount (InteractionItem.contentId i) w - 1)%Z).
Proof.
  intros Hf Hrow. split.
  - intros Hne. destruct w as [us ps ixs ss ns rl pub em fs]; simpl in *; subst fs.
    unfold Interaction.delete, Interaction.getById, bind, dynamoDb.get, remote; simpl.
    rewrite Hrow. by rewrite decide_True.
  - intros Hu Hty; simpl. split; [|split].
    + destruct w as [us ps ixs ss ns rl pub em fs]; simpl in *; subst fs.
      unfold result, Interaction.delete, Interaction.getById, bind, dynamoDb.get,
        dynamoDb.delete, dynamoDb.update, remote; simpl.
      rewrite Hrow. rewrite decide_False by (by intros ?).
      simpl. by rewrite decide_True.
    + rewrite delete_after, Hrow by done.
      rewrite decide_False by (by intros ?). rewrite decide_True by done.
      simpl. apply lookup_delete_eq.
    + rewrite delete_after, Hrow by done.
      rewrite decide_False by (by intros ?). rewrite decide_True by done.
      simpl. set (w' := set_posts _ _).
      destruct (counts_ADD_commentsCount w w' (InteractionItem.contentId i)
                  (InteractionItem.contentId i) (-1)) as [-> _]; [done|].
      rewrite decide_True by done. lia.
Qed.

Lemma remove_checks_actor_then_decrements_witness :
  Interaction.delete "c1" "u1" world_c1
  = (Throw (Error "Unauthorized to delete this interaction"), world_c1)
  ∧ commentCount "p1" (after (Interaction.delete "c1" "u2") world_c1) = (-1)%Z.
Proof.
  destruct (remove_checks_actor_then_decrements world_c1 "c1" "u1"
              (comment_row "c1" 2000 None "u2" "p1" (Some "nice") None))
    as [Hdenied _]; [reflexivity|reflexivity|].
  destruct (remove_checks_actor_then_decrements world_c1 "c1" "u2"
              (comment_row "c1" 2000 None "u2" "p1" (Some "nice") None))
    as [_ Hdone]; [reflexivity|reflexivity|].
  split.
  - apply Hdenied. vm_compute. discriminate.
  - destruct Hdone as (_ & _ & Hcount); [reflexivity|reflexivity|]. exact Hcount.
Defined.

(** C5 as stated fails: a second like by the same actor on the same content
    is a second row.  After two calls there are two like interactions of u1
    on p1, the counter is 2, and the state is not the one after one call. *)
Lemma second_like_is_a_second_row :
  let once := after (Post.like "l1" 10 "p1" "u1") empty_world in
  let twice := after (Post.like "l2" 20 "p1" "u1") once in
  likes_of "u1" "p1" once = 1
  ∧ likes_of "u1" "p1" twice = 2
  ∧ likeCount "p1" twice = 2%Z
  ∧ twice ≠ once.
Proof.
  vm_compute. repeat split; done.
Qed.

Lemma likes_of_insert (w w' : world) (k : string) (row : InteractionItem.t) actor c :
  interactions w' = <[k := row]> (interactions w) →
  interactions w !! k = None →
  likes_of actor c w'
  = if decide (targets "like" c (k, row) ∧ InteractionItem.userId row = actor)
    then S (likes_of actor c w) else likes_of actor c w.
Proof.
  intros Hi Hk. unfold likes_of. rewrite Hi.
  by rewrite (size_filter_insert_fresh
                (λ r : string * InteractionItem.t,
                   targets "like" c r ∧ InteractionItem.userId r.2 = actor)).
Qed.

(** C5, amended: [Post.like] makes no existence check and writes every like
    under the fresh id that [uuidv4()] returns, so two like calls of one
    actor on one content item add two like interactions for the pair and
    raise the like counter by 2. *)
Theorem like_twice_counts_twice
    (w : world) (id1 id2 : string) (now1 now2 : Z) (postId actorId : string) :
  faults w = [] →
  interactions w !! id1 = None → interactions w !! id2 = None → id1 ≠ id2 →
  let twice := after (Post.like id2 now2 postId actorId)
                 (after (Post.like id1 now1 postId actorId) w) in
  likes_of actorId postId twice = 2 + likes_of actorId postId w
  ∧ likeCount postId twice = (likeCount postId w + 2)%Z.
Proof.
  intros Hf H1 H2 Hne; simpl.
  set (once := after (Post.like id1 now1 postId actorId) w).
  assert (once = set_interactions (<[id1 := like_row id1 now1 postId actorId]> (interactions w))
            (set_posts (<[postId := ADD_likesCount 1
               (default (PostItem.blank postId) (posts w !! postId))]> (posts w)) w))
    as Honce by (by apply like_after).
  assert (faults once = []) as Hf1 by (by rewrite Honce).
  assert (interactions once !! id2 = None) as H2'.
  { rewrite Honce; simpl. by rewrite lookup_insert_ne. }
  rewrite (like_after once) by done.
  set (twice := set_interactions _ _). split.
  - rewrite (likes_of_insert once twice id2 (like_row id2 now2 postId actorId)) by done.
    rewrite (likes_of_insert w once id1 (like_row id1 now1 postId actorId))
      by (by rewrite ?Honce).
    unfold targets; simpl. by rewrite !decide_True.
  - destruct (counts_ADD_likesCount once twice postId postId 1) as [-> _]; [done|].
    destruct (counts_ADD_likesCount w once postId postId 1) as [-> _]; [by rewrite Honce|].
    rewrite !decide_True by done. lia.
Qed.

Lemma like_twice_counts_twice_witness :
  likes_of "u1" "p1" (after (Post.like "l2" 20 "p1" "u1")
                        (after (Post.like "l1" 10 "p1" "u1") empty_world)) = 2
  ∧ likeCount "p1" (after (Post.like "l2" 20 "p1" "u1")
                      (after (Post.like "l1" 10 "p1" "u1") empty_world)) = 2%Z.
Proof.
  apply (like_twice_counts_twice empty_world "l1" "l2" 10 20 "p1" "u1");
    [reflexivity | reflexivity | reflexivity | discriminate].
Defined.

(** ** The social graph *)

(** C3 (the code departs from it): [followUser] and [unfollowUser] build the
    parameters of their first update with [dynamoDb.createSet], which the
    wrapper of config/dynamodb.js does not have.  Both throw a TypeError
    before any call to the store, in every world and for every pair of users,
    and leave the world as it was; so after [follow(u1, u2)] between two
    registered users, u1 does not follow u2 and u2 has no follower. *)
Theorem followUser_throws_before_any_write (w : world) (a b : string) :
  User.followUser a b w = (Throw (TypeError "dynamoDb.createSet is not a function"), w)
  ∧ User.unfollowUser a b w = (Throw (TypeError "dynamoDb.createSet is not a function"), w)
  ∧ result (isFollowing "u1" "u2") (after (User.followUser "u1" "u2") world_p1) = Ok false
  ∧ result (User.getFollowers "u2") (after (User.followUser "u1" "u2") world_p1) = Ok [].
Proof. repeat split. Qed.

(** ** The password hash stays in the store *)

(** C10: the user object that [User.create], [User.getById] and
    [User.getByUsername] return has no [passwordHash] field, whatever the
    store holds; [User.getByEmail] returns the stored item as it is, the
    password hash included. *)
Theorem passwordHash_only_from_getByEmail
    (genSalt : string) (hash : string → string → string) (w : world) :
  (∀ uuidv4 now userData u,
     result (User.create genSalt hash uuidv4 now userData) w = Ok u →
     UserItem.passwordHash u = None)
  ∧ (∀ userId u,
       result (User.getById userId) w = Ok (Some u) → UserItem.passwordHash u = None)
  ∧ (∀ username u,
       result (User.getByUsername username) w = Ok (Some u) →
       UserItem.passwordHash u = None)
  ∧ (∀ email u,
       result (User.getByEmail email) w = Ok (Some u) →
       ∃ k, users w !! k = Some u ∧ UserItem.email u = Some email).
Proof.
  destruct w as [us ps ixs ss ns rl pub em fs].
  split; [|split; [|split]].
  - intros uuidv4 now userData u.
    unfold result, User.create, bind, dynamoDb.put, remote; simpl.
    destruct fs as [|[] fs]; simpl; try done;
      destruct (bool_decide _); simpl; try done; by intros [= <-].
  - intros userId u.
    unfold result, User.getById, bind, dynamoDb.get, remote; simpl.
    destruct fs as [|[] fs]; simpl; try done;
      destruct (us !! userId); simpl; try done; by intros [= <-].
  - intros username u.
    unfold result, User.getByUsername, bind, dynamoDb.query, remote.
    destruct fs as [|[] fs]; simpl; try done;
      destruct (scan_index us _ _ _ _) as [|x l]; simpl; try done; by intros [= <-].
  - intros email u.
    unfold result, User.getByEmail, bind, dynamoDb.query, remote.
    destruct fs as [|[] fs]; simpl; try done;
      (destruct (scan_index us _ _ _ _) as [|x l] eqn:Hq; simpl; [done|];
       intros [= ->];
       destruct (scan_index_elem us (λ u, bool_decide (UserItem.email u = Some email))
                   (λ _, 0%Z) true None u) as (k & Hk & Hc); [rewrite Hq; left|];
       apply bool_decide_eq_true in Hc; eauto).
Qed.

Lemma passwordHash_only_from_getByEmail_witness :
  (∃ u, result (User.create "salt" (λ p s, p +:+ s) "u2" 2000 bob_data) world_alice = Ok u
        ∧ UserItem.passwordHash u = None)
  ∧ result (User.getById "u1") world_alice = Ok (Some (UserItem.delete_passwordHash alice))
  ∧ result (User.getByUsername "alice") world_alice
    = Ok (Some (UserItem.delete_passwordHash alice))
  ∧ result (User.getByEmail "alice@example.org") world_alice = Ok (Some alice)
  ∧ users (after (User.create "salt" (λ p s, p +:+ s) "u2" 2000 bob_data) world_alice)
      !! "u2" ≫= UserItem.passwordHash
    = Some (Some "secretsalt").
Proof.
  destruct (passwordHash_only_from_getByEmail "salt" (λ p s, p +:+ s) world_alice)
    as (Hcreate & Hid & Hname & Hemail).
  assert (result (User.getById "u1") world_alice
          = Ok (Some (UserItem.delete_passwordHash alice))) as H1 by reflexivity.
  assert (result (User.getByUsername "alice") world_alice
          = Ok (Some (UserItem.delete_passwordHash alice))) as H2 by reflexivity.
  assert (result (User.getByEmail "alice@example.org") world_alice = Ok (Some alice))
    as H3 by reflexivity.
  pose proof (Hid _ _ H1) as _. pose proof (Hname _ _ H2) as _.
  pose proof (Hemail _ _ H3) as _.
  split; [eexists; split; [reflexivity|]; apply (Hcreate "u2" 2000%Z bob_data); reflexivity|].
  repeat split; reflexivity.
Defined.

(** ** The rate limiter *)

Section limiter.
Import rateLimit.
Variables (opts : options) (req : request) (Date_now : Z) (w : world).
Hypothesis quiet : faults w = [].

(** within the window and at the limit: the 429 response, nothing written *)
Lemma denied_without_increment (r : RateItem.t) :
  rateLimiting w !! recordId opts req = Some r →
  (RateItem.timestamp r > Date_now / 1000 - windowSizeInSeconds opts)%Z →
  (RateItem.count r >= maxRequests opts)%Z →
  rateLimiter opts Date_now req w = (Ok TooManyRequests, w).
Proof.
  intros Hr Hts Hcount. destruct w as [us ps ixs ss ns rl pub em fs]; simpl in *; subst fs.
  unfold rateLimiter, try_catch, bind, get, remote; simpl. rewrite Hr.
  rewrite !bool_decide_eq_true_2 by done. done.
Qed.

(** within the window and below the limit: admitted, counted, and the
    quota that remains after this request reported *)
Lemma admitted_and_counted (r : RateItem.t) :
  rateLimiting w !! recordId opts req = Some r →
  (RateItem.timestamp r > Date_now / 1000 - windowSizeInSeconds opts)%Z →
  (RateItem.count r < maxRequests opts)%Z →
  ∃ o, result (rateLimiter opts Date_now req) w = Ok o
       ∧ allowed o = true
       ∧ remaining o = Some (maxRequests opts - (RateItem.count r + 1))%Z
       ∧ stored_count opts req (after (rateLimiter opts Date_now req) w)
         = Some (RateItem.count r + 1)%Z.
Proof.
  intros Hr Hts Hcount. destruct w as [us ps ixs ss ns rl pub em fs]; simpl in *; subst fs.
  unfold result, after, stored_count, rateLimiter, try_catch, bind, get, update_count,
    remote; simpl. rewrite Hr.
  rewrite bool_decide_eq_true_2 by done. rewrite bool_decide_eq_false_2 by lia.
  simpl. rewrite Hr. simpl. eexists. split; [done|]. split; [done|]. split.
  - simpl. f_equal. lia.
  - by rewrite lookup_insert_eq.
Qed.

(** a stored record whose window has elapsed: admitted into a new window
    that counts 1, while the headers are computed from the old record *)
Lemma fresh_window_after_stale (r : RateItem.t) :
  rateLimiting w !! recordId opts req = Some r →
  ¬ (RateItem.timestamp r > Date_now / 1000 - windowSizeInSeconds opts)%Z →
  ∃ o, result (rateLimiter opts Date_now req) w = Ok o
       ∧ allowed o = true
       ∧ remaining o = Some (maxRequests opts - RateItem.count r - 1)%Z
       ∧ stored_count opts req (after (rateLimiter opts Date_now req) w) = Some 1%Z.
Proof.
  intros Hr Hts. destruct w as [us ps ixs ss ns rl pub em fs]; simpl in *; subst fs.
  unfold result, after, stored_count, rateLimiter, try_catch, bind, get, put,
    remote; simpl. rewrite Hr.
  rewrite bool_decide_eq_false_2 by done.
  simpl. eexists. split; [done|]. split; [done|]. split; [done|].
  by rewrite lookup_insert_eq.
Qed.

(** no stored record: admitted into a new window that counts 1, and no
    header is set *)
Lemma fresh_window_without_record :
  rateLimiting w !! recordId opts req = None →
  result (rateLimiter opts Date_now req) w = Ok (Next None)
  ∧ stored_count opts req (after (rateLimiter opts Date_now req) w) = Some 1%Z.
Proof.
  intros Hr. destruct w as [us ps ixs ss ns rl pub em fs]; simpl in *; subst fs.
  unfold result, after, stored_count, rateLimiter, try_catch, bind, get, put,
    remote; simpl. rewrite Hr. simpl. split; [done|].
  by rewrite lookup_insert_eq.
Qed.
End limiter.

(** the calls of one window, up to the limit, are all admitted and counted *)
Lemma calls_within_window (opts : rateLimit.options) (req : rateLimit.request)
    (times : list Z) (w : world) (r : RateItem.t) :
  faults w = [] →
  rateLimiting w !! rateLimit.recordId opts req = Some r →
  Forall (λ t, RateItem.timestamp r > t / 1000 - rateLimit.windowSizeInSeconds opts)%Z times →
  (RateItem.count r + Z.of_nat (length times) ≤ rateLimit.maxRequests opts)%Z →
  ∃ os w',
    rateLimit.calls opts req times w = (Ok os, w')
    ∧ Forall (λ o, rateLimit.allowed o = true) os
    ∧ faults w' = []
    ∧ rateLimiting w' !! rateLimit.recordId opts req
      = Some (RateItem.set_count (RateItem.count r + Z.of_nat (length times)) r).
Proof.
  revert w r. induction times as [|t times IH]; intros w r Hq Hr Hts Hn.
  - exists [], w. simpl. rewrite Z.add_0_r. by destruct r.
  - apply Forall_cons in Hts as [Ht Hts]. simpl in Hn.
    destruct (admitted_and_counted opts req t w Hq r Hr Ht) as (o & Ho & Hallowed & _ & Hc);
      [lia|].
    set (w1 := after (rateLimit.rateLimiter opts t req) w) in *.
    assert (rateLimit.rateLimiter opts t req w = (Ok o, w1)) as Hrun.
    { unfold result in Ho. unfold w1, after.
      destruct (rateLimit.rateLimiter opts t req w) as [x y]. simpl in *. by subst. }
    assert (faults w1 = [] ∧ rateLimiting w1 !! rateLimit.recordId opts req
                             = Some (RateItem.set_count (RateItem.count r + 1) r))
      as [Hq1 Hr1].
    { clear -Hq Hr Ht Hn. unfold w1. clear w1.
      destruct w as [us ps ixs ss ns rl pub em fs]; simpl in *; subst fs.
      unfold after, rateLimit.rateLimiter, try_catch, bind, rateLimit.get,
        rateLimit.update_count, remote; simpl. rewrite Hr.
      rewrite bool_decide_eq_true_2 by done. rewrite bool_decide_eq_false_2 by lia.
      simpl. rewrite Hr. simpl. by rewrite lookup_insert_eq. }
    destruct (IH w1 _ Hq1 Hr1) as (os & w' & Hrest & Hall & Hq' & Hr'); [done|simpl; lia|].
    exists (o :: os), w'. split; [|split; [|split]].
    + simpl. unfold bind. rewrite Hrun, Hrest. done.
    + by constructor.
    + done.
    + rewrite Hr'. f_equal. unfold RateItem.set_count; simpl. f_equal. lia.
Qed.

Lemma calls_app (opts : rateLimit.options) (req : rateLimit.request)
    (times1 times2 : list Z) (w : world) :
  rateLimit.calls opts req (times1 ++ times2)%list w
  = (let* os1 := rateLimit.calls opts req times1 in
     let* os2 := rateLimit.calls opts req times2 in
     ret (os1 ++ os2)%list) w.
Proof.
  revert w. induction times1 as [|t times1 IH]; intros w; simpl.
  - unfold bind, ret. destruct (rateLimit.calls opts req times2 w) as [[?|?] ?]; reflexivity.
  - unfold bind, ret in *.
    destruct (rateLimit.rateLimiter opts t req w) as [[o|e] w1]; [|done].
    rewrite IH. destruct (rateLimit.calls opts req times1 w1) as [[os1|e] w2]; [|done].
    destruct (rateLimit.calls opts req times2 w2) as [[?|?] ?]; reflexivity.
Qed.

(** the part of C6 that the code keeps, for every client and route: once a
    window is open, the calls up to the limit are admitted and the next call
    within the window is denied without being counted *)
Lemma call_beyond_the_limit_denied (opts : rateLimit.options) (req : rateLimit.request)
    (times : list Z) (last : Z) (w : world) (r : RateItem.t) :
  faults w = [] →
  rateLimiting w !! rateLimit.recordId opts req = Some r →
  Forall (λ t, RateItem.timestamp r > t / 1000 - rateLimit.windowSizeInSeconds opts)%Z
         (times ++ [last])%list →
  (RateItem.count r + Z.of_nat (length times) = rateLimit.maxRequests opts)%Z →
  ∃ os w',
    rateLimit.calls opts req (times ++ [last])%list w
    = (Ok (os ++ [rateLimit.TooManyRequests])%list, w')
    ∧ Forall (λ o, rateLimit.allowed o = true) os
    ∧ rateLimit.stored_count opts req w' = Some (rateLimit.maxRequests opts).
Proof.
  intros Hq Hr Hts Hn. apply Forall_app in Hts as [Hts Hlast].
  rewrite Forall_singleton in Hlast.
  destruct (calls_within_window opts req times w r) as (os & w' & Hrun & Hall & Hq' & Hr');
    [done|done|done|lia|].
  exists os, w'. split; [|split; [done|]].
  - rewrite calls_app. unfold bind. rewrite Hrun. simpl. unfold bind.
    erewrite denied_without_increment; [done|done|exact Hr'|done|simpl; lia].
  - unfold rateLimit.stored_count. rewrite Hr'. simpl. f_equal. lia.
Qed.

(** C6 (the code departs from it): with limit 5 and a window of 60 seconds,
    the sixth call of a client on a route within the window is denied and
    leaves the stored count at 5.  But the first admission once the window
    has elapsed does not report [remaining = limit - 1 = 4]: the header is
    computed from the record of the elapsed window and reads -1, although
    the new window counts 1. *)
Theorem fresh_window_reports_stale_remaining :
  let first_six := [1000000; 1010000; 1020000; 1030000; 1040000; 1059000]%Z in
  let w6 := after (rateLimit.calls five_per_minute get_posts first_six) empty_world in
  let seventh := rateLimit.rateLimiter five_per_minute 1060000 get_posts in
  rateLimit.allowed <$> default [] (match result (rateLimit.calls five_per_minute get_posts
                                                    first_six) empty_world with
                                    | Ok os => Some os
                                    | Throw _ => None
                                    end)
  = [true; true; true; true; true; false]
  ∧ rateLimit.stored_count five_per_minute get_posts w6 = Some 5%Z
  ∧ result seventh w6
    = Ok (rateLimit.Next (Some (rateLimit.Headers 5 (-1) 0)))
  ∧ rateLimit.stored_count five_per_minute get_posts (after seventh w6) = Some 1%Z.
Proof. vm_compute. done. Qed.

(** ** Rules for asynchronous code *)

Lemma hoare_ret {A} (P : world → Prop) (a : A) (Q : res A → world → Prop) :
  (∀ w, P w → Q (Ok a) w) → hoare P (ret a) Q.
Proof. intros H w Hw. by apply H. Qed.

Lemma hoare_throw {A} (P : world → Prop) (e : exn) (Q : res A → world → Prop) :
  (∀ w, P w → Q (Throw e) w) → hoare P (throw e) Q.
Proof. intros H w Hw. by apply H. Qed.

Lemma hoare_bind {A B} (P : world → Prop) (m : M A) (k : A → M B)
    (R : res A → world → Prop) (Q : res B → world → Prop) :
  hoare P m R →
  (∀ a, hoare (R (Ok a)) (k a) Q) →
  (∀ e w, R (Throw e) w → Q (Throw e) w) →
  hoare P (bind m k) Q.
Proof.
  intros Hm Hk He w Hw. specialize (Hm w Hw). unfold bind.
  destruct (m w) as [[a|e] w']; simpl in *; [by apply Hk|by apply He].
Qed.

Lemma hoare_try {A} (P : world → Prop) (m : M A) (h : exn → M A)
    (R : res A → world → Prop) (Q : res A → world → Prop) :
  hoare P m R →
  (∀ a w, R (Ok a) w → Q (Ok a) w) →
  (∀ e, hoare (R (Throw e)) (h e) Q) →
  hoare P (try_catch m h) Q.
Proof.
  intros Hm Ha Hh w Hw. specialize (Hm w Hw). unfold try_catch.
  destruct (m w) as [[a|e] w']; simpl in *; [by apply Ha|by apply Hh].
Qed.

Lemma hoare_weaken {A} (P P' : world → Prop) (m : M A) (Q Q' : res A → world → Prop) :
  hoare P' m Q' → (∀ w, P w → P' w) → (∀ r w, Q' r w → Q r w) → hoare P m Q.
Proof. intros Hm HP HQ w Hw. apply HQ, Hm, HP, Hw. Qed.

Lemma hoare_remote {A} (P : world → Prop) (body : M A) (Q : res A → world → Prop) :
  stable P →
  (∀ w, P w → Q (Throw ServiceUnavailable) w) →
  hoare P body Q →
  hoare P (remote body) Q.
Proof.
  intros Hst Hthrow Hbody w Hw. unfold remote.
  destruct (faults w) as [|[] fs]; simpl.
  - by apply Hbody.
  - by apply Hthrow, Hst.
  - by apply Hbody, Hst.
Qed.

Lemma keeps_ret {A} (I : world → Prop) (a : A) : keeps I (ret a).
Proof. by apply hoare_ret. Qed.

Lemma keeps_throw {A} (I : world → Prop) (e : exn) : keeps I (@throw A e).
Proof. by apply hoare_throw. Qed.

Lemma keeps_bind {A B} (I : world → Prop) (m : M A) (k : A → M B) :
  keeps I m → (∀ a, keeps I (k a)) → keeps I (bind m k).
Proof. intros Hm Hk. eapply hoare_bind; [exact Hm|exact Hk|done]. Qed.

Lemma keeps_try {A} (I : world → Prop) (m : M A) (h : exn → M A) :
  keeps I m → (∀ e, keeps I (h e)) → keeps I (try_catch m h).
Proof. intros Hm Hh. eapply hoare_try; [exact Hm|done|exact Hh]. Qed.

Lemma keeps_remote {A} (I : world → Prop) (body : M A) :
  stable I → keeps I body → keeps I (remote body).
Proof. intros Hst Hb. apply hoare_remote; [done|done|done]. Qed.

(** a read keeps everything that does not read the fault schedule, and
    resolves to what the table holds *)
Lemma hoare_get {V} (T : table V) (k : string) (I : world → Prop) :
  stable I →
  hoare I (dynamoDb.get T k) (λ r w, I w ∧ ∀ v, r = Ok v → v = items T w !! k).
Proof.
  intros Hst. apply hoare_remote; [done|by intros w Hw; split|].
  intros w Hw; simpl. split; [done|]. by intros v [= <-].
Qed.

Lemma keeps_get {V} (T : table V) (k : string) (I : world → Prop) :
  stable I → keeps I (dynamoDb.get T k).
Proof. intros Hst. apply keeps_remote; [done|]. by intros w Hw. Qed.

Lemma keeps_query {V} (T : table V) cond range fwd Limit (I : world → Prop) :
  stable I → keeps I (dynamoDb.query T cond range fwd Limit).
Proof. intros Hst. apply keeps_remote; [done|]. by intros w Hw. Qed.

(** a write keeps what its effect on the tables keeps *)
Lemma keeps_put {V} (T : table V) (item : V) (c : bool) (I : world → Prop) :
  stable I → (∀ w, I w → I (apply_item (Put T item) w)) →
  keeps I (dynamoDb.put T item c).
Proof.
  intros Hst Hw. apply keeps_remote; [done|]. intros w HI; simpl.
  destruct (c && _); simpl; [done|by apply Hw].
Qed.

Lemma keeps_put_null_key {V} (T : table V) (item : V) (c : bool) (I : world → Prop) :
  stable I → keeps I (dynamoDb.put_null_key T item c).
Proof.
  intros Hst. apply keeps_remote; [done|]. intros w HI; simpl.
  by destruct (c && _).
Qed.

Lemma keeps_update {V} (T : table V) (k : string) (blank : V) (expr : V → V)
    (I : world → Prop) :
  stable I → (∀ w, I w → I (apply_item (Update T k blank expr) w)) →
  keeps I (dynamoDb.update T k blank expr).
Proof. intros Hst Hw. apply keeps_remote; [done|]. intros w HI; simpl. by apply Hw. Qed.

Lemma keeps_transactWrite (its : list transactItem) (I : world → Prop) :
  stable I → (∀ it w, it ∈ its → I w → I (apply_item it w)) →
  keeps I (dynamoDb.transactWrite its).
Proof.
  intros Hst Hw. apply keeps_remote; [done|]. intros w HI; simpl.
  revert w HI. induction its as [|it its IH]; intros w HI; simpl; [done|].
  apply IH.
  - intros it' w' Hin. apply Hw. by right.
  - apply Hw; [by left|done].
Qed.

(** ** Likes and shares of one's own post *)

Lemma own_post_stable postId actor c : stable (own_post postId actor c).
Proof. intros [us ps ixs ss ns rl pub em fs] fs' H. exact H. Qed.

Lemma own_post_ADD postId actor c (expr : PostItem.t → PostItem.t) (w : world) :
  (∀ p, PostItem.userId (expr p) = PostItem.userId p) →
  own_post postId actor c w →
  own_post postId actor c
    (apply_item (Update TABLES.POSTS postId (PostItem.blank postId) expr) w).
Proof.
  intros Hexpr [(p & Hp & Ho) Hc]. split; [|by destruct w].
  exists (expr p). destruct w as [us ps ixs ss ns rl pub em fs]; simpl in *.
  rewrite Hp; simpl. rewrite lookup_insert_eq. split; [done|]. by rewrite Hexpr.
Qed.

Lemma own_post_interactions postId actor c (it : InteractionItem.t) (w : world) :
  own_post postId actor c w →
  own_post postId actor c (apply_item (Put TABLES.INTERACTIONS it) w).
Proof. intros H. by destruct w. Qed.

Lemma like_keeps_own_post postId actor c uuidv4 now userId :
  keeps (own_post postId actor c) (Post.like uuidv4 now postId userId).
Proof.
  unfold Post.like. apply keeps_bind.
  - apply keeps_transactWrite; [apply own_post_stable|].
    intros it w Hit Hw.
    apply elem_of_cons in Hit as [->|Hit]; [by apply own_post_ADD|].
    apply list_elem_of_singleton in Hit as ->. by apply own_post_interactions.
  - intros _. apply keeps_bind.
    + unfold Post.read_likesCount. apply keeps_bind.
      * apply keeps_get, own_post_stable.
      * intros [post|]; [apply keeps_ret|apply keeps_throw].
    + intros n. apply keeps_ret.
Qed.

Lemma share_keeps_own_post postId actor c userId :
  keeps (own_post postId actor c) (Post.share postId userId).
Proof.
  unfold Post.share. apply keeps_bind.
  - apply keeps_update; [apply own_post_stable|]. intros w Hw. by apply own_post_ADD.
  - intros result. apply keeps_ret.
Qed.

(** what follows the like or the share in the handler: the post is read
    again, and on one's own post the guard skips the fan-out *)
Lemma guard_skips_fanout {A} postId userId c
    (fanout : PostItem.t → M unit) (answer : M A) :
  keeps (own_post postId userId c) answer →
  keeps (own_post postId userId c)
    (let* post := Post.getById postId in
     let* _ :=
       match post with
       | Some post =>
           if decide (PostItem.userId post ≠ Some userId) then fanout post else ret ()
       | None => ret ()
       end in
     answer).
Proof.
  intros Hanswer. eapply hoare_bind.
  - apply hoare_get, own_post_stable.
  - intros post w [HI Hpost]. specialize (Hpost post eq_refl). subst post.
    destruct HI as [(p & Hp & Ho) Hc]. simpl. rewrite Hp.
    rewrite decide_False by (by intros ?). apply Hanswer. by split; [exists p|].
  - by intros e w [HI _].
Qed.

(** on one's own post neither handler lets anything out *)
Lemma likePost_keeps_own_post postId userId c uuidv4 now :
  keeps (own_post postId userId c) (postController.likePost uuidv4 now postId userId).
Proof.
  apply keeps_try; [|intros e; apply keeps_ret].
  apply keeps_bind; [apply like_keeps_own_post|]. intros result.
  apply guard_skips_fanout, keeps_ret.
Qed.

Lemma sharePost_keeps_own_post postId userId c now :
  keeps (own_post postId userId c) (postController.sharePost now postId userId).
Proof.
  apply keeps_try; [|intros e; apply keeps_ret].
  apply keeps_bind; [apply share_keeps_own_post|]. intros result.
  apply guard_skips_fanout, keeps_ret.
Qed.

(** ** A comment on one's own content *)

Lemma hoare_learn {A} (P : world → Prop) (φ : Prop) (m : M A) (Q : res A → world → Prop) :
  (∀ w, P w → φ) → (φ → hoare P m Q) → hoare P m Q.
Proof. intros Hφ Hm w Hw. apply Hm; [by eapply Hφ|done]. Qed.

Section own_content.
Variables (uuidv4 : string) (now : Z) (errors : list string)
          (contentId : string) (content parentId : option string) (userId : string).

(** [I] reads the channels only, and is kept when a reply notification goes
    out to a user other than the commenter *)
Variable I : world → Prop.
Hypothesis I_channels : ∀ w w', channels w = channels w' → I w → I w'.
Hypothesis I_reply :
  ∀ (parent author text : string) (w : world),
    interactionController.truthy parentId = Some parent →
    author ≠ userId →
    I w →
    I (set_published (published w ++ [reply_notification userId author parent text now]) w)
    ∧ I (set_emitted
           (emitted w ++ [(Some author, reply_notification userId author parent text now)])
           w).

Lemma I_stable : stable I.
Proof. intros w fs. apply I_channels. by destruct w. Qed.

Lemma create_keeps_channels u n (d : InteractionData.t) :
  keeps I (Interaction.create u n d).
Proof.
  unfold Interaction.create. apply keeps_bind.
  - simpl. destruct (or_null _); [|apply keeps_put_null_key, I_stable].
    apply keeps_put; [apply I_stable|]. intros w. apply I_channels. by destruct w.
  - intros _. apply keeps_bind; [|intros _; apply keeps_ret].
    destruct (decide _); [|apply keeps_ret].
    apply keeps_bind; [|intros _; apply keeps_ret].
    apply keeps_update; [apply I_stable|]. intros w. apply I_channels. by destruct w.
Qed.

Lemma getById_keeps_channels (u : string) : keeps I (User.getById u).
Proof.
  unfold User.getById. apply keeps_bind; [apply keeps_get, I_stable|].
  intros [user|]; apply keeps_ret.
Qed.

Lemma property_keeps {A B} (what : string) (x : option A) (f : A → B) :
  keeps I (property what x f).
Proof. destruct x; [apply keeps_ret|apply keeps_throw]. Qed.

Lemma addComment_own_content :
  hoare (λ w, owner contentId w = Some userId ∧ I w)
    (interactionController.addComment uuidv4 now errors contentId content parentId userId)
    (λ _, I).
Proof.
  unfold interactionController.addComment.
  apply hoare_try with (R := λ _, I); [|done|intros e; apply keeps_ret].
  destruct (negb (bool_decide (errors = []))); [by apply hoare_ret; intros w [_ ?]|].
  (* the post is looked up *)
  eapply hoare_bind with
    (R := λ r w, (owner contentId w = Some userId ∧ I w)
                 ∧ ∀ v, r = Ok v → v = posts w !! contentId);
    [apply (hoare_get TABLES.POSTS) | | by intros e w [[_ ?] _]].
  { intros w fs [Ho HI]. split; [by destruct w|by apply I_stable]. }
  intros post.
  apply hoare_learn with (φ := ∀ p, post = Some p → PostItem.userId p = Some userId).
  { intros w [[Ho _] Hp] p ->. specialize (Hp _ eq_refl).
    unfold owner in Ho. by rewrite <- Hp in Ho. }
  intros Hpost.
  (* then the story, when there is no such post *)
  eapply hoare_bind with
    (R := λ r w, I w ∧ ∀ story, r = Ok story →
                   post = None → ∃ s, story = Some s ∧ StoryItem.userId s = userId);
    [ | | by intros e w [? _]].
  { destruct post as [p|].
    - apply hoare_ret. intros w [[_ HI] _]. split; [done|]. by intros story _ ?.
    - eapply hoare_weaken;
        [apply (hoare_get TABLES.STORIES contentId
                  (λ w, (owner contentId w = Some userId ∧ I w)
                        ∧ posts w !! contentId = None)) | | ].
      + intros w fs [[Ho HI] Hp].
        split; [split; [by destruct w|by apply I_stable]|by destruct w].
      + intros w [HP Hp]. split; [done|]. symmetry. by apply Hp.
      + intros r w [[[Ho HI] Hp] Hs]. split; [done|]. intros story -> _.
        specialize (Hs _ eq_refl). unfold owner in Ho. rewrite Hp in Ho.
        simpl in Hs. rewrite <- Hs in Ho.
        destruct story as [s|]; [|done]. exists s. split; [done|]. by injection Ho. }
  intros story.
  apply hoare_learn with
    (φ := post = None → ∃ s, story = Some s ∧ StoryItem.userId s = userId).
  { intros w [_ Hs]. by apply Hs. }
  intros Hstory.
  eapply hoare_weaken with (P' := I) (Q' := λ _, I); [|by intros w [? _]|done].
  (* the owner of the content is the commenter *)
  assert (match post, story with
          | Some post, _ => PostItem.userId post
          | None, Some story => Some (StoryItem.userId story)
          | None, None => None
          end = Some userId) as ->.
  { destruct post as [p|]; [by apply Hpost|].
    destruct Hstory as (s & -> & <-); done. }
  assert (bool_decide (is_Some post ∨ is_Some story) = true) as ->.
  { apply bool_decide_eq_true. destruct post as [p|]; [by left|].
    destruct Hstory as (s & -> & _); [done|]. by right. }
  simpl.
  apply keeps_bind.
  { destruct (interactionController.truthy parentId); [|apply keeps_ret].
    apply keeps_bind; [apply keeps_get, I_stable|].
    intros [parentComment|]; apply keeps_ret. }
  intros [|]; simpl; [|apply keeps_ret].
  apply keeps_bind; [apply create_keeps_channels|]. intros comment.
  apply keeps_bind; [apply getById_keeps_channels|]. intros user.
  apply keeps_bind; [apply property_keeps|]. intros username.
  apply keeps_bind.
  { (* no notification to the owner *)
    unfold interactionController.truthy, or_null.
    destruct (decide (userId = "")); [apply keeps_ret|].
    rewrite decide_False by (by intros ?). apply keeps_ret. }
  intros _. apply keeps_bind; [|intros _; apply keeps_ret].
  (* the reply notification *)
  destruct (interactionController.truthy parentId) as [parent|] eqn:Hparent;
    [|apply keeps_ret].
  apply keeps_try; [|intros e; apply keeps_ret].
  apply keeps_bind; [apply keeps_get, I_stable|].
  intros [parentComment|]; [|apply keeps_ret].
  destruct (decide _) as [Hother|]; [|apply keeps_ret].
  apply keeps_bind; [apply getById_keeps_channels|]. intros parentAuthor.
  apply keeps_bind.
  - apply keeps_remote; [apply I_stable|]. intros w HI; simpl.
    by apply (I_reply parent _ _ w eq_refl Hother).
  - intros _. apply keeps_throw.
Qed.
End own_content.

Lemma no_fanout_channels (w w' : world) : channels w' = channels w → no_fanout w w'.
Proof. unfold channels, no_fanout. by intros [= -> -> ->]. Qed.

Lemma only_replies_channels (actor : string) (w0 w w' : world) :
  channels w = channels w' →
  only_replies_to_others actor w0 w → only_replies_to_others actor w0 w'.
Proof.
  unfold channels, only_replies_to_others. by intros [= <- <- <-].
Qed.

Lemma reply_notification_to_other (userId author parent text : string) (now : Z) :
  author ≠ userId →
  reply_to_other userId (reply_notification userId author parent text now).
Proof. intros Hne. split; [done|]. split; [done|]. simpl. congruence. Qed.

(** C9: when the acting user owns the target content, the like, the share
    and the comment notify nobody of it.  After a like or a share of one's
    own post, and after a comment on one's own content that is not a reply,
    the Notifications table, the SNS topic and the socket.io rooms are as
    before.  A reply on one's own content persists no Notification record
    either, and all it can send is the reply notification to the author of
    the parent comment, who is another user: nothing is addressed to the
    acting user. *)
Theorem self_notification_suppressed (w : world) (userId : string) :
  (∀ uuidv4 now postId p,
     posts w !! postId = Some p → PostItem.userId p = Some userId →
     no_fanout w (after (postController.likePost uuidv4 now postId userId) w))
  ∧ (∀ now postId p,
       posts w !! postId = Some p → PostItem.userId p = Some userId →
       no_fanout w (after (postController.sharePost now postId userId) w))
  ∧ (∀ uuidv4 now errors contentId content parentId,
       owner contentId w = Some userId →
       let w' := after (interactionController.addComment uuidv4 now errors contentId
                          content parentId userId) w in
       only_replies_to_others userId w w'
       ∧ (interactionController.truthy parentId = None → no_fanout w w')).
Proof.
  split; [|split].
  - intros uuidv4 now postId p Hp Ho. apply no_fanout_channels.
    by apply (likePost_keeps_own_post postId userId (channels w) uuidv4 now w); split; eauto.
  - intros now postId p Hp Ho. apply no_fanout_channels.
    by apply (sharePost_keeps_own_post postId userId (channels w) now w); split; eauto.
  - intros uuidv4 now errors contentId content parentId Ho; simpl. split.
    + apply (addComment_own_content uuidv4 now errors contentId content parentId userId
               (only_replies_to_others userId w)).
      * apply only_replies_channels.
      * intros parent author text w1 _ Hne (Hn & Hp & He). split.
        -- split; [by destruct w1|]. split; [|by destruct w1].
           intros m. destruct w1; simpl in *. rewrite elem_of_app, list_elem_of_singleton.
           intros [?| ->]; [by apply Hp|right]. by apply reply_notification_to_other.
        -- split; [by destruct w1|]. split; [by destruct w1|].
           intros room m. destruct w1; simpl in *.
           rewrite elem_of_app, list_elem_of_singleton.
           intros [?|[= -> ->]]; [by apply He|right].
           split; [congruence|]. by apply reply_notification_to_other.
      * split; [done|]. split; [done|]. split; [by left|]. intros room m ?. by left.
    + intros Hnone. apply no_fanout_channels.
      apply (addComment_own_content uuidv4 now errors contentId content parentId userId
               (λ w', channels w' = channels w)).
      * by intros w1 w2 <-.
      * intros parent author text w1 Hsome. congruence.
      * done.
Qed.

Lemma self_notification_suppressed_witness :
  no_fanout world_p1 (after (postController.likePost "l1" 3000 "p1" "u1") world_p1)
  ∧ no_fanout world_p1 (after (postController.sharePost 3000 "p1" "u1") world_p1)
  ∧ only_replies_to_others "u1" world_p1
      (after (interactionController.addComment "c2" 3000 [] "p1" (Some "thanks")
                (Some "c1") "u1") world_p1)
  ∧ no_fanout world_p1
      (after (interactionController.addComment "c3" 3000 [] "p1" (Some "hello") None "u1")
         world_p1).
Proof.
  destruct (self_notification_suppressed world_p1 "u1") as (Hlike & Hshare & Hcomment).
  split; [|split; [|split]].
  - by apply (Hlike "l1" 3000%Z "p1" (ADD_commentsCount 1 post_p1)).
  - by apply (Hshare 3000%Z "p1" (ADD_commentsCount 1 post_p1)).
  - by apply (Hcomment "c2" 3000%Z [] "p1" (Some "thanks") (Some "c1")).
  - by apply (Hcomment "c3" 3000%Z [] "p1" (Some "hello") None).
Defined.

(** the guard at work: the same like by another user reaches the owner, and
    the reply of the owner reaches the author of the parent comment *)
Example like_by_another_user_notifies_the_owner :
  published (after (postController.likePost "l1" 3000 "p1" "u2") world_p1)
  = [NotificationMessage.Build "like" "u2" (Some "u1") "p1" "post"
       "bob liked your post" 3000]
  ∧ published (after (interactionController.addComment "c2" 3000 [] "p1" (Some "thanks")
                        (Some "c1") "u1") world_p1)
    = [reply_notification "u1" "u2" "c1" "alice replied to your comment" 3000].
Proof. vm_compute. done. Qed.

(** ** The timeline *)

(** whatever the tables hold, every per-owner result is the bare array that
    the wrapper returns *)
Lemma query_all_arrays (userIds : list string) (limit : nat) (w : world) :
  faults w = [] →
  ∃ pages, Post.query_all userIds limit w = (Ok (ItemArray <$> pages), w)
           ∧ length pages = length userIds.
Proof.
  intros Hq. induction userIds as [|u userIds IH]; simpl.
  - by exists [].
  - destruct IH as (pages & Hrest & Hlen). unfold bind, dynamoDb.query.
    rewrite remote_quiet by done. rewrite Hrest. eexists (_ :: pages). simpl.
    split; [done|]. by rewrite Hlen.
Qed.

Lemma flatMap_Items_of_arrays {V} (pages : list (list V)) :
  Array_flatMap get_Items (ItemArray <$> pages) = replicate (length pages) None.
Proof.
  induction pages as [|p pages IH]; [done|].
  change (Array_flatMap get_Items (ItemArray <$> p :: pages))
    with (@None V :: Array_flatMap get_Items (ItemArray <$> pages)).
  by rewrite IH.
Qed.

Lemma Array_sort_undefined {A} (cmp : A → A → Z) (n : nat) :
  Array_sort cmp (replicate n None) = replicate n None.
Proof.
  unfold Array_sort.
  assert (omap id (replicate n (@None A)) = []) as ->.
  { induction n as [|n IH]; simpl; [done|]. exact IH. }
  simpl. by rewrite length_replicate, Nat.sub_0_r.
Qed.

(** one [undefined] per owner, cut at the limit: the timeline of the code,
    whatever the owners posted *)
Lemma getTimelinePosts_undefined (userIds : list string) (limit : nat) (w : world) :
  faults w = [] →
  result (Post.getTimelinePosts userIds limit) w
  = Ok (replicate (limit `min` length userIds) None).
Proof.
  intros Hq. destruct (query_all_arrays userIds limit w Hq) as (pages & Hrun & Hlen).
  unfold result, Post.getTimelinePosts, bind. rewrite Hrun. unfold ret. cbv zeta. cbn [fst].
  rewrite flatMap_Items_of_arrays, Array_sort_undefined, take_replicate. by rewrite Hlen.
Qed.

(** C7 (the code departs from it): for owners u1 with posts at 10, 8, 5 and
    u2 with posts at 9, 7 and limit 3, the per-owner queries do return the
    five posts, and concatenating, sorting newest first and cutting at 3
    gives the posts at 10, 9, 8.  But [getTimelinePosts] reads [result.Items]
    on what is already the array of items, so what it returns is
    [[undefined, undefined]]. *)
Theorem timeline_of_two_owners_is_undefined :
  result (Post.query_all ["u1"; "u2"] 3) world_timeline
  = Ok [ ItemArray [post_at "c" "u1" 5; post_at "b" "u1" 8; post_at "a" "u1" 10];
         ItemArray [post_at "e" "u2" 7; post_at "d" "u2" 9] ]
  ∧ aggregate_spec 3 [ [post_at "c" "u1" 5; post_at "b" "u1" 8; post_at "a" "u1" 10];
                        [post_at "e" "u2" 7; post_at "d" "u2" 9] ]
    = [post_at "a" "u1" 10; post_at "d" "u2" 9; post_at "b" "u1" 8]
  ∧ result (Post.getTimelinePosts ["u1"; "u2"] 3) world_timeline = Ok [None; None].
Proof. vm_compute. done. Qed.

(** ** The cursor codec *)

Local Open Scope Z_scope.

(** *** base64 *)

Lemma list_ind3 {A} (P : list A → Prop) :
  P [] → (∀ a, P [a]) → (∀ a b, P [a; b]) →
  (∀ a b c l, P l → P (a :: b :: c :: l)) →
  ∀ l, P l.
Proof.
  intros H0 H1 H2 H3. fix IH 1.
  intros [|a [|b [|c l]]]; [exact H0|apply H1|apply H2|apply H3, IH].
Qed.

Lemma unbase64_alphabet (x : Z) :
  0 <= x < 64 → base64.alphabet x ≠ 61 ∧ base64.unbase64 (base64.alphabet x) = Some x.
Proof.
  intros Hx.
  assert (∃ n : nat, (n < 64)%nat ∧ x = Z.of_nat n) as (n & Hn & ->)
    by (exists (Z.to_nat x); lia).
  do 64 (destruct n as [|n]; [vm_compute; split; [discriminate|reflexivity]|]). lia.
Qed.

Lemma sextets_alphabet (x : Z) (s : list Z) :
  0 <= x < 64 → base64.sextets (base64.alphabet x :: s) = x :: base64.sextets s.
Proof.
  intros Hx. destruct (unbase64_alphabet x Hx) as [Hne Hun]. simpl.
  destruct (Z.eqb_spec (base64.alphabet x) 61); [done|]. by rewrite Hun.
Qed.

Ltac sextet_range := Z.div_mod_to_equations; lia.

Lemma base64_decode_encode (bytes : list Z) :
  Forall is_byte bytes → base64.decode (base64.encode bytes) = bytes.
Proof.
  unfold base64.decode, is_byte.
  induction bytes as [|a|a b|a b c rest IH] using list_ind3; intros Hb.
  - done.
  - apply Forall_cons in Hb as [Ha _]. simpl base64.encode.
    rewrite !sextets_alphabet by sextet_range. simpl. f_equal. sextet_range.
  - apply Forall_cons in Hb as [Ha Hb]. apply Forall_cons in Hb as [Hb _].
    simpl base64.encode. rewrite !sextets_alphabet by sextet_range. simpl.
    f_equal; [sextet_range|]. f_equal. sextet_range.
  - apply Forall_cons in Hb as [Ha Hb]. apply Forall_cons in Hb as [Hb Hc].
    apply Forall_cons in Hc as [Hc Hrest].
    simpl base64.encode. rewrite !sextets_alphabet by sextet_range.
    change (base64.bytes_of (?x1 :: ?x2 :: ?x3 :: ?x4 :: ?t))
      with ((x1 * 4 + x2 / 16) :: (x2 mod 16 * 16 + x3 / 4) :: (x3 mod 4 * 64 + x4)
              :: base64.bytes_of t).
    rewrite IH by done. f_equal; [sextet_range|]. f_equal; [sextet_range|].
    f_equal. sextet_range.
Qed.

(** *** UTF-8 *)

(** settle the comparisons of the goal that the hypotheses decide *)
Ltac settle :=
  repeat (match goal with
          | |- context [?a =? ?b] => destruct (Z.eqb_spec a b)
          | |- context [?a <? ?b] => destruct (Z.ltb_spec a b)
          | |- context [?a <=? ?b] => destruct (Z.leb_spec a b)
          end; try (exfalso; lia); cbn [andb orb negb]).

Lemma scalar_range (c : Z) :
  scalar c = true → 0 <= c < 0x110000 ∧ ¬ (0xD800 <= c <= 0xDFFF).
Proof.
  unfold scalar, JSON.is_surrogate, utf8.between.
  rewrite !andb_true_iff, negb_true_iff, andb_false_iff.
  rewrite Z.leb_le, Z.ltb_lt, !Z.leb_gt. lia.
Qed.

(** a code point by its groups of six bits, from the lowest *)
Lemma six_bit_groups (c : Z) :
  0 <= c →
  ∃ r1 r2 r3 q3,
    c mod 64 = r1 ∧ c / 64 mod 64 = r2 ∧ c / 4096 mod 64 = r3
    ∧ c / 64 = r2 + 64 * (c / 4096) ∧ c / 4096 = r3 + 64 * q3 ∧ c / 262144 = q3
    ∧ c = r1 + 64 * r2 + 4096 * r3 + 262144 * q3
    ∧ 0 <= r1 < 64 ∧ 0 <= r2 < 64 ∧ 0 <= r3 < 64 ∧ 0 <= q3.
Proof.
  intros Hc.
  exists (c mod 64), (c / 64 mod 64), (c / 4096 mod 64), (c / 262144).
  assert (c / 4096 = c / 64 / 64) as H4096 by (by rewrite Z.div_div by lia).
  assert (c / 262144 = c / 4096 / 64) as H262144 by (by rewrite Z.div_div by lia).
  pose proof (Z.div_mod c 64 ltac:(lia)).
  pose proof (Z.div_mod (c / 64) 64 ltac:(lia)).
  pose proof (Z.div_mod (c / 4096) 64 ltac:(lia)).
  pose proof (Z.mod_pos_bound c 64 ltac:(lia)).
  pose proof (Z.mod_pos_bound (c / 64) 64 ltac:(lia)).
  pose proof (Z.mod_pos_bound (c / 4096) 64 ltac:(lia)).
  pose proof (Z.div_pos c 262144 Hc ltac:(lia)).
  rewrite <- H4096 in *. rewrite <- H262144 in *. repeat split; lia.
Qed.

Lemma utf8_decode_1 (b : Z) (rest : list Z) :
  b < 0x80 → utf8.decode (b :: rest) = b :: utf8.decode rest.
Proof.
  intros Hb. change (utf8.decode (b :: rest)) with (utf8.decode_from utf8.decode b rest).
  unfold utf8.decode_from. by rewrite (proj2 (Z.ltb_lt b 128)).
Qed.

Lemma utf8_decode_2 (b c1 : Z) (rest : list Z) :
  0xC2 <= b <= 0xDF → 0x80 <= c1 <= 0xBF →
  utf8.decode (b :: c1 :: rest) = ((b - 0xC0) * 64 + (c1 - 0x80)) :: utf8.decode rest.
Proof.
  intros Hb H1.
  change (utf8.decode (b :: ?t)) with (utf8.decode_from utf8.decode b t).
  unfold utf8.decode_from, utf8.between. settle. done.
Qed.

Lemma utf8_decode_3 (b c1 c2 : Z) (rest : list Z) :
  0xE0 <= b <= 0xEF →
  (if b =? 0xE0 then 0xA0 else 0x80) <= c1 <= (if b =? 0xED then 0x9F else 0xBF) →
  0x80 <= c2 <= 0xBF →
  utf8.decode (b :: c1 :: c2 :: rest)
  = ((b - 0xE0) * 4096 + (c1 - 0x80) * 64 + (c2 - 0x80)) :: utf8.decode rest.
Proof.
  intros Hb H1 H2.
  change (utf8.decode (b :: ?t)) with (utf8.decode_from utf8.decode b t).
  unfold utf8.decode_from, utf8.between.
  destruct (Z.eqb_spec b 0xE0); destruct (Z.eqb_spec b 0xED); settle; done.
Qed.

Lemma utf8_decode_4 (b c1 c2 c3 : Z) (rest : list Z) :
  0xF0 <= b <= 0xF4 →
  (if b =? 0xF0 then 0x90 else 0x80) <= c1 <= (if b =? 0xF4 then 0x8F else 0xBF) →
  0x80 <= c2 <= 0xBF → 0x80 <= c3 <= 0xBF →
  utf8.decode (b :: c1 :: c2 :: c3 :: rest)
  = ((b - 0xF0) * 262144 + (c1 - 0x80) * 4096 + (c2 - 0x80) * 64 + (c3 - 0x80))
      :: utf8.decode rest.
Proof.
  intros Hb H1 H2 H3.
  change (utf8.decode (b :: ?t)) with (utf8.decode_from utf8.decode b t).
  unfold utf8.decode_from, utf8.between.
  destruct (Z.eqb_spec b 0xF0); destruct (Z.eqb_spec b 0xF4); settle; done.
Qed.

Lemma utf8_decode_code_point (c : Z) (rest : list Z) :
  scalar c = true →
  utf8.decode (utf8.encode_code_point c ++ rest) = c :: utf8.decode rest.
Proof.
  intros [Hc Hs]%scalar_range. unfold utf8.encode_code_point.
  destruct (six_bit_groups c) as
    (r1 & r2 & r3 & q3 & -> & -> & -> & H64 & H4096 & -> & Hsum & ? & ? & ? & ?); [lia|].
  rewrite ?H64, ?H4096. clear H64 H4096.
  destruct (Z.ltb_spec c 0x80); [by apply utf8_decode_1|].
  destruct (Z.ltb_spec c 0x800).
  { simpl app. rewrite utf8_decode_2 by lia. f_equal. lia. }
  replace ((0xD800 <=? c) && (c <=? 0xDFFF)) with false
    by (symmetry; apply andb_false_iff; rewrite !Z.leb_gt; lia).
  destruct (Z.ltb_spec c 0x10000).
  { simpl app. rewrite utf8_decode_3; [f_equal; lia|lia| |lia].
    destruct (Z.eqb_spec (224 + (r3 + 64 * q3)) 224);
      destruct (Z.eqb_spec (224 + (r3 + 64 * q3)) 237); lia. }
  simpl app. rewrite utf8_decode_4; [f_equal; lia|lia| |lia|lia].
  destruct (Z.eqb_spec (240 + q3) 240); destruct (Z.eqb_spec (240 + q3) 244); lia.
Qed.

Lemma utf8_decode_encode (s : list Z) :
  forallb scalar s = true → utf8.decode (utf8.encode s) = s.
Proof.
  induction s as [|c s IH]; [done|]. intros [Hc Hs]%andb_true_iff.
  change (utf8.encode (c :: s)) with (utf8.encode_code_point c ++ utf8.encode s).
  rewrite utf8_decode_code_point by done. by rewrite IH.
Qed.

(** *** JSON: strings *)

Lemma parse_chars_cons (c : Z) (s : list Z) :
  JSON.parse_chars (c :: s)
  = if c =? 34 then Some ([], s)
    else if c =? 92 then
      match s with
      | e :: s'' =>
          if e =? 117 then
            match s'' with
            | h1 :: h2 :: h3 :: h4 :: s3 =>
                match JSON.unhex h1, JSON.unhex h2, JSON.unhex h3, JSON.unhex h4 with
                | Some d1, Some d2, Some d3, Some d4 =>
                    JSON.cons_char (d1 * 4096 + d2 * 256 + d3 * 16 + d4) (JSON.parse_chars s3)
                | _, _, _, _ => None
                end
            | _ => None
            end
          else
            match JSON.unescape e with
            | Some c' => JSON.cons_char c' (JSON.parse_chars s'')
            | None => None
            end
      | [] => None
      end
    else if c <? 32 then None
    else JSON.cons_char c (JSON.parse_chars s).
Proof. reflexivity. Qed.

(** a quoted code point reads back as itself *)
Lemma parse_chars_quote (c : Z) (rest : list Z) :
  scalar c = true →
  JSON.parse_chars (JSON.quote_code_point c ++ rest)
  = JSON.cons_char c (JSON.parse_chars rest).
Proof.
  intros [Hc Hs]%scalar_range.
  destruct (Z.ltb_spec c 32) as [Hlow|Hhigh].
  - assert (∃ n : nat, (n < 32)%nat ∧ c = Z.of_nat n) as (n & Hn & ->)
      by (exists (Z.to_nat c); lia).
    do 32 (destruct n as [|n]; [reflexivity|]). lia.
  - unfold JSON.quote_code_point, JSON.is_surrogate, utf8.between.
    destruct (Z.eqb_spec c 34) as [->|]; [reflexivity|].
    destruct (Z.eqb_spec c 92) as [->|]; [reflexivity|].
    settle. all: simpl app; rewrite parse_chars_cons; settle; done.
Qed.

Lemma parse_chars_quoted (s rest : list Z) :
  forallb scalar s = true →
  JSON.parse_chars ((s ≫= JSON.quote_code_point) ++ 34 :: rest) = Some (s, rest).
Proof.
  induction s as [|c s IH]; [done|]. intros [Hc Hs]%andb_true_iff.
  change ((c :: s) ≫= JSON.quote_code_point)
    with (JSON.quote_code_point c ++ (s ≫= JSON.quote_code_point)).
  rewrite <- app_assoc, parse_chars_quote by done. by rewrite IH.
Qed.

Lemma pair_surrogates_scalar (s : list Z) :
  forallb scalar s = true → JSON.pair_surrogates s = s.
Proof.
  induction s as [|hi s IH]; [done|]. intros [Hc Hs]%andb_true_iff.
  destruct s as [|lo s]; [done|].
  change (JSON.pair_surrogates (hi :: lo :: s))
    with (if utf8.between 0xD800 0xDBFF hi && utf8.between 0xDC00 0xDFFF lo
          then (0x10000 + (hi - 0xD800) * 1024 + (lo - 0xDC00)) :: JSON.pair_surrogates s
          else hi :: JSON.pair_surrogates (lo :: s)).
  apply scalar_range in Hc as [Hc Hsur].
  replace (utf8.between 0xD800 0xDBFF hi) with false
    by (unfold utf8.between; symmetry; apply andb_false_iff; rewrite !Z.leb_gt; lia).
  simpl andb. cbv iota. by rewrite IH.
Qed.

(** a quoted string, from after its opening quote, reads back as itself *)
Lemma parse_string_quoted (s rest : list Z) :
  forallb scalar s = true →
  JSON.parse_string ((s ≫= JSON.quote_code_point) ++ 34 :: rest) = Some (s, rest).
Proof.
  intros Hs. unfold JSON.parse_string.
  rewrite parse_chars_quoted by done. by rewrite pair_surrogates_scalar.
Qed.

(** *** JSON: numbers *)

Lemma to_int_leading (n : Z) :
  match Z.to_int n with
  | Decimal.Pos u | Decimal.Neg u => leading u = true
  end.
Proof.
  pose proof (DecimalZ.to_of (Z.to_int n)) as Hnorm. rewrite DecimalZ.of_to in Hnorm.
  assert (∀ u, Decimal.nzhead u ≠ Decimal.Nil → leading (Decimal.nzhead u) = true) as Hnz.
  { intros u Hu. pose proof (DecimalFacts.nzhead_nonzero u) as H0.
    destruct (Decimal.nzhead u) as [|v| | | | | | | | |]; try done. by destruct (H0 v). }
  destruct (Z.to_int n) as [u|u]; simpl in Hnorm.
  - injection Hnorm as ->. unfold Decimal.unorm.
    destruct (Decimal.nzhead u) eqn:Hu; try done; rewrite <- Hu; apply Hnz; by rewrite Hu.
  - destruct (Decimal.nzhead u) eqn:Hu; try done;
      injection Hnorm as ->; rewrite <- Hu; apply Hnz; by rewrite Hu.
Qed.

Lemma delimited_ends_number (rest : list Z) :
  delimited rest = true → JSON.continues_number rest = false.
Proof.
  destruct rest as [|c rest]; [done|]. simpl. intros H%bool_decide_eq_true.
  by destruct H as [->|[->| ->]].
Qed.

Lemma read_digits_print (u : Decimal.uint) (rest : list Z) :
  JSON.continues_number rest = false →
  JSON.read_digits (JSON.print_uint u ++ rest) = (u, rest).
Proof.
  intros Hrest. induction u; simpl; try (by rewrite IHu).
  destruct rest as [|c rest]; [done|]. simpl in *.
  apply orb_false_iff in Hrest as [Hrest _]. apply orb_false_iff in Hrest as [Hrest _].
  apply orb_false_iff in Hrest as [Hrest _]. by rewrite Hrest.
Qed.

Lemma parse_digits_print (u : Decimal.uint) (rest : list Z) :
  leading u = true → JSON.continues_number rest = false →
  JSON.parse_digits (JSON.print_uint u ++ rest) = Some (u, rest).
Proof.
  intros Hu Hrest.
  destruct u as [|u| | | | | | | | |]; try done;
    try (unfold JSON.parse_digits; rewrite read_digits_print by done;
         simpl; by rewrite Hrest).
  destruct u; try done. simpl. by rewrite Hrest.
Qed.

Lemma parse_number_print (n : Z) (rest : list Z) :
  JSON.continues_number rest = false →
  JSON.parse_number (JSON.print_int (Z.to_int n) ++ rest) = Some (JNum n, rest).
Proof.
  intros Hrest. pose proof (to_int_leading n) as Hu.
  pose proof (DecimalZ.of_to n) as Hn.
  destruct (Z.to_int n) as [u|u]; simpl JSON.print_int.
  - assert (JSON.parse_number (JSON.print_uint u ++ rest)
            = match JSON.parse_digits (JSON.print_uint u ++ rest) with
              | Some (u, rest) => Some (JNum (Z.of_int (Decimal.Pos u)), rest)
              | None => None
              end) as ->.
    { destruct u as [|u| | | | | | | | |]; try done. }
    rewrite parse_digits_print by done. by rewrite Hn.
  - change (JSON.parse_number ((45 :: JSON.print_uint u) ++ rest))
      with (match JSON.parse_digits (JSON.print_uint u ++ rest) with
            | Some (u, rest) => Some (JNum (Z.of_int (Decimal.Neg u)), rest)
            | None => None
            end).
    rewrite parse_digits_print by done. by rewrite Hn.
Qed.

(** *** JSON: values *)

Lemma json_nested_ind (P : json → Prop) :
  P JNull → (∀ b, P (JBool b)) → (∀ n, P (JNum n)) → (∀ s, P (JStr s)) →
  (∀ elements, Forall P elements → P (JArr elements)) →
  (∀ members, Forall (λ m : list Z * json, P m.2) members → P (JObj members)) →
  ∀ v, P v.
Proof.
  intros Hnull Hbool Hnum Hstr Harr Hobj. fix IH 1. intros [|b|n|s|elements|members].
  - exact Hnull.
  - apply Hbool.
  - apply Hnum.
  - apply Hstr.
  - apply Harr. induction elements as [|x elements IHl]; constructor; [apply IH|exact IHl].
  - apply Hobj. induction members as [|[k x] members IHl]; constructor;
      [apply IH|exact IHl].
Qed.

Lemma parse_value_string (f : nat) (t : list Z) :
  JSON.parse_value (S f) (34 :: t)
  = match JSON.parse_string t with
    | Some (str, rest) => Some (JStr str, rest)
    | None => None
    end.
Proof. reflexivity. Qed.

Lemma parse_value_array (f : nat) (t : list Z) :
  JSON.parse_value (S f) (91 :: t)
  = match JSON.skip_ws t with
    | c' :: rest =>
        if c' =? 93 then Some (JArr [], rest)
        else match JSON.parse_elements f t with
             | Some (elements, rest') => Some (JArr elements, rest')
             | None => None
             end
    | [] => None
    end.
Proof. reflexivity. Qed.

Lemma parse_value_object (f : nat) (t : list Z) :
  JSON.parse_value (S f) (123 :: t)
  = match JSON.skip_ws t with
    | c' :: rest =>
        if c' =? 125 then Some (JObj [], rest)
        else match JSON.parse_members f t with
             | Some (members, rest') => Some (JObj (JSON.own_properties members), rest')
             | None => None
             end
    | [] => None
    end.
Proof. reflexivity. Qed.

Lemma parse_value_number (f : nat) (c : Z) (t : list Z) :
  JSON.is_digit c = true ∨ c = 45 →
  JSON.parse_value (S f) (c :: t) = JSON.parse_number (c :: t).
Proof.
  intros [Hc| ->]; [|reflexivity].
  unfold JSON.is_digit, utf8.between in Hc. apply andb_true_iff in Hc as [H1 H2].
  apply Z.leb_le in H1, H2.
  assert (∃ n : nat, (n < 10)%nat ∧ c = 48 + Z.of_nat n) as (n & Hn & ->)
    by (exists (Z.to_nat (c - 48)); lia).
  do 10 (destruct n as [|n]; [reflexivity|]). lia.
Qed.

Lemma parse_elements_step (f : nat) (s : list Z) :
  JSON.parse_elements (S f) s
  = match JSON.parse_value f s with
    | Some (v, rest) =>
        match JSON.skip_ws rest with
        | c :: rest' =>
            if c =? 44 then
              match JSON.parse_elements f rest' with
              | Some (elements, rest'') => Some (v :: elements, rest'')
              | None => None
              end
            else if c =? 93 then Some ([v], rest')
            else None
        | [] => None
        end
    | None => None
    end.
Proof. reflexivity. Qed.

Lemma parse_members_step (f : nat) (t : list Z) :
  JSON.parse_members (S f) (34 :: t)
  = match JSON.parse_string t with
    | Some (k, rest) =>
        match JSON.skip_ws rest with
        | c1 :: rest1 =>
            if c1 =? 58 then
              match JSON.parse_value f rest1 with
              | Some (v, rest2) =>
                  match JSON.skip_ws rest2 with
                  | c2 :: rest3 =>
                      if c2 =? 44 then
                        match JSON.parse_members f rest3 with
                        | Some (members, rest4) => Some ((k, v) :: members, rest4)
                        | None => None
                        end
                      else if c2 =? 125 then Some ([(k, v)], rest3)
                      else None
                  | [] => None
                  end
              | None => None
              end
            else None
        | [] => None
        end
    | None => None
    end.
Proof. reflexivity. Qed.

Lemma print_uint_head (u : Decimal.uint) :
  leading u = true →
  ∃ c t, JSON.print_uint u = c :: t ∧ JSON.is_digit c = true.
Proof. destruct u; try done; intros _; eexists _, _; split; done. Qed.

(** the first character of a written value: not white space, nor a closing
    bracket *)
Lemma stringify_head (v : json) :
  ∃ c t, JSON.stringify v = c :: t ∧ JSON.is_ws c = false ∧ c ≠ 93.
Proof.
  destruct v as [|[|]|n|s|elements|members]; try (eexists _, _; split; [reflexivity|done]).
  simpl. pose proof (to_int_leading n) as Hu.
  destruct (Z.to_int n) as [u|u]; simpl; [|eexists _, _; split; [reflexivity|done]].
  destruct (print_uint_head u Hu) as (c & t & -> & Hc). exists c, t. split; [done|].
  unfold JSON.is_digit, utf8.between in Hc. apply andb_true_iff in Hc as [H1 H2].
  apply Z.leb_le in H1, H2. unfold JSON.is_ws. split; [settle; done|lia].
Qed.

Lemma skip_ws_head (c : Z) (t : list Z) :
  JSON.is_ws c = false → JSON.skip_ws (c :: t) = c :: t.
Proof. intros H. simpl. by rewrite H. Qed.

Lemma commas_cons (t1 t2 : list Z) (texts : list (list Z)) :
  JSON.commas (t1 :: t2 :: texts) = t1 ++ 44 :: JSON.commas (t2 :: texts).
Proof. reflexivity. Qed.

Lemma parse_elements_commas (l : list json) :
  Forall reads_back l → l ≠ [] →
  ∀ (fuel : nat) (rest : list Z),
    (2 * length (JSON.commas (JSON.stringify <$> l)) + 1 < fuel)%nat →
    JSON.parse_elements fuel (JSON.commas (JSON.stringify <$> l) ++ 93 :: rest)
    = Some (l, rest).
Proof.
  induction l as [|x l IH]; [done|]. intros Hall _ fuel rest Hfuel.
  apply Forall_cons in Hall as [Hx Hl].
  destruct fuel as [|f]; [lia|]. rewrite parse_elements_step.
  destruct l as [|y l].
  - change (JSON.commas (JSON.stringify <$> [x])) with (JSON.stringify x) in *.
    rewrite (Hx f (93 :: rest)) by (done || lia). reflexivity.
  - change (JSON.stringify <$> x :: y :: l)
      with (JSON.stringify x :: JSON.stringify y :: (JSON.stringify <$> l)) in *.
    rewrite commas_cons in *. rewrite length_app in Hfuel.
    change (length (44 :: ?t)) with (S (length t)) in Hfuel.
    rewrite <- app_assoc. simpl app.
    rewrite (Hx f (44 :: _)) by (done || lia).
    change (JSON.skip_ws (44 :: ?t)) with (44 :: t). cbv iota.
    change (44 =? 44) with true. cbv iota.
    change (JSON.stringify y :: (JSON.stringify <$> l)) with (JSON.stringify <$> y :: l).
    rewrite IH; [done|done|done|].
    change (JSON.stringify <$> y :: l)
      with (JSON.stringify y :: (JSON.stringify <$> l)). lia.
Qed.

Lemma member_text_app (k : list Z) (v : json) (t : list Z) :
  (JSON.quote k ++ 58 :: JSON.stringify v) ++ t
  = 34 :: (k ≫= JSON.quote_code_point) ++ 34 :: 58 :: (JSON.stringify v ++ t).
Proof.
  unfold JSON.quote. rewrite <- !app_comm_cons, <- !app_assoc.
  by rewrite <- app_comm_cons.
Qed.

Lemma parse_members_commas (ms : list (list Z * json)) :
  Forall (λ m : list Z * json, forallb scalar m.1 = true ∧ reads_back m.2) ms → ms ≠ [] →
  ∀ (fuel : nat) (rest : list Z),
    (2 * length (JSON.commas (member_text <$> ms)) + 1 < fuel)%nat →
    JSON.parse_members fuel (JSON.commas (member_text <$> ms) ++ 125 :: rest)
    = Some (ms, rest).
Proof.
  induction ms as [|[k v] ms IH]; [done|]. intros Hall _ fuel rest Hfuel.
  apply Forall_cons in Hall as [[Hk Hv] Hms]. simpl in Hk, Hv.
  destruct fuel as [|f]; [lia|].
  destruct ms as [|m ms].
  - clear IH.
    change (JSON.commas (member_text <$> [(k, v)]))
      with (JSON.quote k ++ 58 :: JSON.stringify v) in *.
    rewrite member_text_app, parse_members_step, parse_string_quoted by done.
    change (JSON.skip_ws (58 :: ?t)) with (58 :: t). cbv iota.
    change (58 =? 58) with true. cbv iota.
    rewrite length_app in Hfuel. change (length (58 :: ?t)) with (S (length t)) in Hfuel.
    rewrite (Hv f (125 :: rest)) by (done || lia). reflexivity.
  - assert (JSON.commas (member_text <$> (k, v) :: m :: ms)
            = (JSON.quote k ++ 58 :: JSON.stringify v)
              ++ 44 :: JSON.commas (member_text <$> m :: ms)) as Htext by reflexivity.
    rewrite Htext in *. clear Htext.
    rewrite <- app_assoc, member_text_app, parse_members_step, parse_string_quoted by done.
    change (JSON.skip_ws (58 :: ?t)) with (58 :: t). cbv iota.
    change (58 =? 58) with true. cbv iota.
    rewrite !length_app in Hfuel.
    change (length (58 :: ?t)) with (S (length t)) in Hfuel.
    change (length (44 :: ?t)) with (S (length t)) in Hfuel.
    rewrite <- app_comm_cons.
    rewrite (Hv f (44 :: _)) by (done || lia).
    change (JSON.skip_ws (44 :: ?t)) with (44 :: t). cbv iota.
    change (44 =? 44) with true. cbv iota.
    rewrite IH; [done|done|done|lia].
Qed.

Lemma define_fresh (k : list Z) (v : json) (o : list (list Z * json)) :
  k ∉ o.*1 → JSON.define k v o = (o ++ [(k, v)])%list.
Proof.
  induction o as [|[k' v'] o IH]; simpl; [done|]. intros Hk.
  apply not_elem_of_cons in Hk as [Hne Hk].
  rewrite decide_False by done. by rewrite IH.
Qed.

Lemma own_properties_distinct (ms : list (list Z * json)) :
  NoDup ms.*1 → JSON.own_properties ms = ms.
Proof.
  unfold JSON.own_properties.
  assert (∀ acc : list (list Z * json),
            NoDup (acc.*1 ++ ms.*1) →
            foldl (λ o m, JSON.define m.1 m.2 o) acc ms = (acc ++ ms)%list) as H.
  { induction ms as [|[k v] ms IH]; intros acc Hnd; simpl.
    - by rewrite app_nil_r.
    - rewrite define_fresh.
      + rewrite IH; [by rewrite <- app_assoc|].
        rewrite fmap_app. simpl. rewrite <- app_assoc. exact Hnd.
      + simpl in Hnd. apply NoDup_app in Hnd as (_ & Hdisj & _).
        intros Hin. apply (Hdisj k Hin). by left. }
  intros Hnd. by apply (H []).
Qed.

Lemma print_int_head (n : Z) :
  ∃ c t, JSON.print_int (Z.to_int n) = c :: t ∧ (JSON.is_digit c = true ∨ c = 45).
Proof.
  pose proof (to_int_leading n) as Hu. destruct (Z.to_int n) as [u|u]; simpl.
  - destruct (print_uint_head u Hu) as (c & t & -> & Hc). eauto.
  - eauto.
Qed.

(** what [JSON.stringify] writes of a serializable value, the parser reads
    back as that value *)
Lemma stringify_reads_back (v : json) : serializable v = true → reads_back v.
Proof.
  induction v as [|b|n|s|elements IH|members IH] using json_nested_ind;
    intros Hser fuel rest Hfuel Hrest; (destruct fuel as [|f]; [lia|]).
  - reflexivity.
  - destruct b; reflexivity.
  - pose proof (parse_number_print n rest (delimited_ends_number rest Hrest)) as Hnum.
    destruct (print_int_head n) as (c & t & Heq & Hc).
    change (JSON.stringify (JNum n)) with (JSON.print_int (Z.to_int n)).
    rewrite Heq in *. rewrite <- app_comm_cons in *. by rewrite parse_value_number.
  - change (JSON.stringify (JStr s)) with (34 :: (s ≫= JSON.quote_code_point) ++ [34]).
    rewrite <- app_comm_cons, <- app_assoc. change ([34] ++ rest) with (34 :: rest).
    rewrite parse_value_string. by rewrite parse_string_quoted.
  - destruct elements as [|x l]; [reflexivity|].
    change (JSON.stringify (JArr (x :: l)))
      with (91 :: JSON.commas (JSON.stringify <$> x :: l) ++ [93]) in *.
    rewrite <- app_comm_cons, <- app_assoc. change ([93] ++ rest) with (93 :: rest).
    rewrite parse_value_array.
    assert (∃ c t, JSON.commas (JSON.stringify <$> x :: l) ++ 93 :: rest = c :: t
                   ∧ JSON.is_ws c = false ∧ c ≠ 93) as (c & t & Htext & Hws & Hne).
    { destruct (stringify_head x) as (c & t & Hx & Hws & Hne).
      destruct l as [|y l].
      - change (JSON.commas (JSON.stringify <$> [x])) with (JSON.stringify x).
        rewrite Hx. eauto.
      - change (JSON.stringify <$> x :: y :: l)
          with (JSON.stringify x :: JSON.stringify y :: (JSON.stringify <$> l)).
        rewrite commas_cons, Hx. eauto. }
    rewrite Htext, skip_ws_head by done. rewrite (proj2 (Z.eqb_neq c 93)) by done.
    rewrite <- Htext. rewrite parse_elements_commas; [done| |done|].
    + change (forallb serializable (x :: l) = true) in Hser.
      rewrite forallb_forall in Hser. rewrite Forall_forall in IH.
      apply Forall_forall. intros y Hy. apply IH; [done|].
      by apply Hser, list_elem_of_In.
    + rewrite length_cons, length_app, length_cons in Hfuel. lia.
  - destruct members as [|[k x] ms]; [reflexivity|].
    change (JSON.stringify (JObj ((k, x) :: ms)))
      with (123 :: JSON.commas (member_text <$> (k, x) :: ms) ++ [125]) in *.
    rewrite <- app_comm_cons, <- app_assoc. change ([125] ++ rest) with (125 :: rest).
    rewrite parse_value_object.
    assert (∃ t, JSON.commas (member_text <$> (k, x) :: ms) ++ 125 :: rest = 34 :: t)
      as (t & Htext).
    { destruct ms as [|m ms]; eexists; reflexivity. }
    rewrite Htext. change (JSON.skip_ws (34 :: t)) with (34 :: t). cbv iota.
    change (34 =? 125) with false. cbv iota. rewrite <- Htext.
    change (bool_decide (NoDup ((k, x) :: ms).*1)
            && forallb (λ m : list Z * json, forallb scalar m.1 && serializable m.2)
                 ((k, x) :: ms) = true) in Hser.
    apply andb_true_iff in Hser as [Hnd Hser].
    apply bool_decide_eq_true in Hnd. rewrite forallb_forall in Hser.
    rewrite parse_members_commas; [by rewrite own_properties_distinct| |done|].
    + rewrite Forall_forall in IH. apply Forall_forall. intros m Hm.
      specialize (Hser m (proj1 (list_elem_of_In _ _) Hm)).
      apply andb_true_iff in Hser as [Hk Hv]. split; [done|]. by apply IH.
    + rewrite length_cons, length_app, length_cons in Hfuel. lia.
Qed.

Lemma JSON_parse_stringify (v : json) :
  serializable v = true → JSON.parse (JSON.stringify v) = Ok v.
Proof.
  intros Hser. unfold JSON.parse.
  rewrite <- (app_nil_r (JSON.stringify v)) at 2.
  rewrite (stringify_reads_back v Hser); [done|lia|done].
Qed.

(** *** The cursor: what is written is Unicode text, and its UTF-8 is bytes *)

Lemma scalar_below_surrogates (c : Z) : 0 <= c < 0xD800 → scalar c = true.
Proof.
  intros Hc. unfold scalar, JSON.is_surrogate, utf8.between.
  rewrite !andb_true_iff, negb_true_iff, andb_false_iff.
  rewrite Z.leb_le, Z.ltb_lt, !Z.leb_gt. lia.
Qed.

Lemma forallb_scalar (s : list Z) :
  forallb scalar s = true ↔ Forall (λ c, scalar c = true) s.
Proof.
  induction s as [|c s IH]; [by split|].
  change (forallb scalar (c :: s)) with (scalar c && forallb scalar s).
  rewrite andb_true_iff, Forall_cons, IH. done.
Qed.

Lemma hex_digit_scalar (d : Z) : 0 <= d < 16 → scalar (JSON.hex_digit d) = true.
Proof.
  intros Hd. apply scalar_below_surrogates. unfold JSON.hex_digit.
  destruct (Z.ltb_spec d 10); lia.
Qed.

Lemma quote_code_point_scalar (c : Z) :
  scalar c = true → Forall (λ x, scalar x = true) (JSON.quote_code_point c).
Proof.
  intros Hs. pose proof (scalar_range c Hs) as [Hc Hsur].
  unfold JSON.quote_code_point.
  repeat (match goal with
          | |- context [?a =? ?b] => destruct (Z.eqb_spec a b)
          end; [by repeat constructor|]).
  destruct (Z.ltb_spec c 32); cbn [orb].
  - repeat constructor; try apply hex_digit_scalar; sextet_range.
  - replace (JSON.is_surrogate c) with false; [by repeat constructor|].
    symmetry. unfold JSON.is_surrogate, utf8.between.
    apply andb_false_iff. rewrite !Z.leb_gt. lia.
Qed.

Lemma quote_scalar (s : list Z) :
  forallb scalar s = true → Forall (λ x, scalar x = true) (JSON.quote s).
Proof.
  intros Hs%forallb_scalar. unfold JSON.quote.
  constructor; [done|]. apply Forall_app. split; [|by repeat constructor].
  apply Forall_bind. eapply Forall_impl; [exact Hs|]. apply quote_code_point_scalar.
Qed.

Lemma print_int_scalar (i : Decimal.int) :
  Forall (λ x, scalar x = true) (JSON.print_int i).
Proof.
  assert (∀ u, Forall (λ x, scalar x = true) (JSON.print_uint u)) as Hu.
  { induction u; by constructor. }
  destruct i as [u|u]; [apply Hu|]. constructor; [done|apply Hu].
Qed.

Lemma commas_scalar (texts : list (list Z)) :
  Forall (Forall (λ x, scalar x = true)) texts →
  Forall (λ x, scalar x = true) (JSON.commas texts).
Proof.
  induction 1 as [|t texts Ht Htexts IH]; [constructor|].
  destruct texts as [|t' texts]; [exact Ht|].
  rewrite commas_cons. apply Forall_app. split; [exact Ht|]. by constructor.
Qed.

Lemma stringify_scalar (v : json) :
  serializable v = true → Forall (λ x, scalar x = true) (JSON.stringify v).
Proof.
  induction v as [|b|n|s|elements IH|members IH] using json_nested_ind; intros Hser.
  - by repeat constructor.
  - destruct b; by repeat constructor.
  - apply print_int_scalar.
  - by apply quote_scalar.
  - change (forallb serializable elements = true) in Hser.
    rewrite forallb_forall in Hser. rewrite Forall_forall in IH.
    change (JSON.stringify (JArr elements))
      with (91 :: JSON.commas (JSON.stringify <$> elements) ++ [93]).
    constructor; [done|]. apply Forall_app. split; [|by repeat constructor].
    apply commas_scalar, Forall_fmap, Forall_forall. intros x Hx.
    apply IH; [done|]. by apply Hser, list_elem_of_In.
  - change (bool_decide (NoDup members.*1)
            && forallb (λ m : list Z * json, forallb scalar m.1 && serializable m.2)
                 members = true) in Hser.
    apply andb_true_iff in Hser as [_ Hser]. rewrite forallb_forall in Hser.
    rewrite Forall_forall in IH.
    change (JSON.stringify (JObj members))
      with (123 :: JSON.commas (member_text <$> members) ++ [125]).
    constructor; [done|]. apply Forall_app. split; [|by repeat constructor].
    apply commas_scalar, Forall_fmap, Forall_forall. intros [k x] Hm.
    specialize (Hser (k, x) (proj1 (list_elem_of_In _ _) Hm)).
    apply andb_true_iff in Hser as [Hk Hx].
    change (Forall (λ c, scalar c = true) (JSON.quote k ++ 58 :: JSON.stringify x)).
    apply Forall_app. split; [by apply quote_scalar|].
    constructor; [done|]. by apply (IH (k, x)).
Qed.

Lemma utf8_encode_bytes (s : list Z) :
  Forall (λ x, scalar x = true) s → Forall is_byte (utf8.encode s).
Proof.
  intros Hs. apply Forall_bind. eapply Forall_impl; [exact Hs|].
  intros c [Hc Hsur]%scalar_range. unfold compose, utf8.encode_code_point, is_byte.
  destruct (Z.ltb_spec c 0x80); [repeat constructor; lia|].
  destruct (Z.ltb_spec c 0x800); [repeat constructor; sextet_range|].
  replace ((0xD800 <=? c) && (c <=? 0xDFFF)) with false
    by (symmetry; apply andb_false_iff; rewrite !Z.leb_gt; lia).
  destruct (Z.ltb_spec c 0x10000); repeat constructor; sextet_range.
Qed.

(** ** The cursor of [getComments] *)

(** C8: the cursor that [getComments] writes for a position marker, read by
    the same handler on the next request, is that marker: for every marker
    that JSON carries without loss, decoding the encoded cursor gives the
    marker back.  The token "garbage" is answered by 400 'Invalid lastKey
    format', and whatever the token, the decoding either gives a value or
    this answer, and nothing else. *)
Theorem cursor_round_trip :
  (∀ p : json, serializable p = true → parse_lastKey (nextKey p) = inr p)
  ∧ parse_lastKey (chars "garbage") = inl (Response 400 "Invalid lastKey format")
  ∧ (∀ lastKey : list Z,
       (∃ p : json, parse_lastKey lastKey = inr p)
       ∨ parse_lastKey lastKey = inl (Response 400 "Invalid lastKey format")).
Proof.
  split; [|split].
  - intros p Hser. unfold parse_lastKey, nextKey.
    pose proof (stringify_scalar p Hser) as Htext.
    rewrite base64_decode_encode by by apply utf8_encode_bytes.
    rewrite utf8_decode_encode by by apply forallb_scalar.
    by rewrite JSON_parse_stringify.
  - vm_compute. reflexivity.
  - intros lastKey. unfold parse_lastKey.
    destruct (JSON.parse _) as [v|e]; [left; by exists v|by right].
Qed.

Lemma cursor_round_trip_witness :
  serializable lastEvaluatedKey_c1 = true
  ∧ parse_lastKey (nextKey lastEvaluatedKey_c1) = inr lastEvaluatedKey_c1.
Proof.
  split; [vm_compute; reflexivity|].
  apply (proj1 cursor_round_trip). vm_compute. reflexivity.
Defined.

Local Close Scope Z_scope.

(** ** The rate limiter, further *)

(** one admitted call within the window: the outcome, and the world after it *)
Lemma rateLimiter_admits (opts : rateLimit.options) (req : rateLimit.request)
    (t : Z) (w : world) (r : RateItem.t) :
  faults w = [] →
  rateLimiting w !! rateLimit.recordId opts req = Some r →
  (RateItem.timestamp r > t / 1000 - rateLimit.windowSizeInSeconds opts)%Z →
  (RateItem.count r < rateLimit.maxRequests opts)%Z →
  ∃ o w1, rateLimit.rateLimiter opts t req w = (Ok o, w1)
          ∧ rateLimit.allowed o = true
          ∧ faults w1 = []
          ∧ rateLimiting w1 !! rateLimit.recordId opts req
            = Some (RateItem.set_count (RateItem.count r + 1) r).
Proof.
  intros Hq Hr Ht Hn. destruct w as [us ps ixs ss ns rl pub em fs]; simpl in *; subst fs.
  unfold rateLimit.rateLimiter, try_catch, bind, rateLimit.get, rateLimit.update_count,
    remote; simpl. rewrite Hr.
  rewrite bool_decide_eq_true_2 by done. rewrite bool_decide_eq_false_2 by lia.
  simpl. rewrite Hr. simpl. eexists _, _. split; [done|]. split; [done|]. split; [done|].
  simpl. by rewrite lookup_insert_eq.
Qed.

(** X1: the limiter fails open.  When the store refuses the read of the
    record, the request goes on to [next()] with no header set and nothing
    is written; when the store answers the read and refuses the write, the
    table is left as it was and the request is not blocked by the failure: it
    goes on, unless the record read already stood at the limit. *)
Theorem rateLimiter_fails_open (opts : rateLimit.options) (Date_now : Z)
    (req : rateLimit.request) (w : world) (fs : list bool) :
  (faults w = true :: fs →
     rateLimit.rateLimiter opts Date_now req w
     = (Ok (rateLimit.Next None), set_faults fs w))
  ∧ (faults w = false :: true :: fs →
     rateLimiting (after (rateLimit.rateLimiter opts Date_now req) w) = rateLimiting w
     ∧ (result (rateLimit.rateLimiter opts Date_now req) w = Ok (rateLimit.Next None)
        ∨ (result (rateLimit.rateLimiter opts Date_now req) w = Ok rateLimit.TooManyRequests
           ∧ ∃ r, rateLimiting w !! rateLimit.recordId opts req = Some r
                  ∧ (RateItem.count r >= rateLimit.maxRequests opts)%Z))).
Proof.
  destruct w as [us ps ixs ss ns rl pub em fs0]; simpl. split; intros ->.
  - reflexivity.
  - unfold result, after, rateLimit.rateLimiter, try_catch, bind, rateLimit.get,
      rateLimit.update_count, rateLimit.put, remote; simpl.
    destruct (rl !! rateLimit.recordId opts req) as [r|] eqn:Hr; simpl; [|by auto].
    case_bool_decide; simpl; [|by auto].
    case_bool_decide; simpl; [|by auto].
    split; [done|]. right. split; [done|]. by exists r.
Qed.

Lemma rateLimiter_fails_open_witness :
  rateLimit.rateLimiter five_per_minute 1000000 get_posts (set_faults [true] empty_world)
  = (Ok (rateLimit.Next None), empty_world)
  ∧ rateLimiting (after (rateLimit.rateLimiter five_per_minute 1000000 get_posts)
                    (set_faults [false; true] empty_world)) = ∅.
Proof.
  split.
  - apply (proj1 (rateLimiter_fails_open five_per_minute 1000000 get_posts
                    (set_faults [true] empty_world) [])). reflexivity.
  - apply (proj2 (rateLimiter_fails_open five_per_minute 1000000 get_posts
                    (set_faults [false; true] empty_world) [])). reflexivity.
Defined.

(** X2: a call of the limiter reads and writes one record, that of the
    client and route of the request: every other record of the rate limiting
    table, and every other table and channel, is as before, whatever the store
    does. *)
Theorem rateLimiter_touches_one_record (opts : rateLimit.options) (Date_now : Z)
    (req : rateLimit.request) (w : world) (id : string) :
  id ≠ rateLimit.recordId opts req →
  let w' := after (rateLimit.rateLimiter opts Date_now req) w in
  rateLimiting w' !! id = rateLimiting w !! id
  ∧ users w' = users w ∧ posts w' = posts w ∧ interactions w' = interactions w
  ∧ stories w' = stories w ∧ notifications w' = notifications w
  ∧ published w' = published w ∧ emitted w' = emitted w.
Proof.
  intros Hid. destruct w as [us ps ixs ss ns rl pub em fs]; simpl.
  unfold after, rateLimit.rateLimiter, try_catch, bind, rateLimit.get,
    rateLimit.update_count, rateLimit.put, remote; simpl.
  destruct fs as [|[|] fs]; simpl; [|done|].
  - destruct (rl !! rateLimit.recordId opts req) as [r|] eqn:Hr; simpl.
    + repeat case_bool_decide; simpl; rewrite ?Hr; simpl;
        rewrite ?lookup_insert_ne by done; done.
    + rewrite ?lookup_insert_ne by done; done.
  - destruct (rl !! rateLimit.recordId opts req) as [r|] eqn:Hr; simpl.
    + repeat case_bool_decide; simpl; try done;
        destruct fs as [|[|] fs]; simpl; rewrite ?Hr; simpl;
        rewrite ?lookup_insert_ne by done; done.
    + destruct fs as [|[|] fs]; simpl; rewrite ?lookup_insert_ne by done; done.
Qed.

Lemma rateLimiter_touches_one_record_witness :
  rateLimiting (after (rateLimit.rateLimiter five_per_minute 1000000 get_posts) empty_world)
    !! "10.0.0.8:GET/api/posts/timeline" = None.
Proof.
  apply (rateLimiter_touches_one_record five_per_minute 1000000 get_posts empty_world
           "10.0.0.8:GET/api/posts/timeline").
  vm_compute. discriminate.
Defined.

(** X3: within one window, and when the store refuses nothing, the calls of
    a client on a route are admitted until the stored count reaches the limit
    and every later call is denied: of [n] calls, the first
    [maxRequests - count] go on to [next()], the others get 429, and the
    stored count ends at the smaller of [count + n] and [maxRequests]. *)
Theorem window_admits_up_to_the_limit (opts : rateLimit.options)
    (req : rateLimit.request) (times : list Z) (w : world) (r : RateItem.t) :
  faults w = [] →
  rateLimiting w !! rateLimit.recordId opts req = Some r →
  Forall (λ t, RateItem.timestamp r > t / 1000 - rateLimit.windowSizeInSeconds opts)%Z times →
  (RateItem.count r ≤ rateLimit.maxRequests opts)%Z →
  let quota := Z.to_nat (rateLimit.maxRequests opts - RateItem.count r) in
  ∃ os w',
    rateLimit.calls opts req times w = (Ok os, w')
    ∧ rateLimit.allowed <$> os
      = replicate (length times `min` quota) true ++ replicate (length times - quota) false
    ∧ rateLimit.stored_count opts req w'
      = Some (Z.min (RateItem.count r + Z.of_nat (length times)) (rateLimit.maxRequests opts)).
Proof.
  revert w r. induction times as [|t times IH]; intros w r Hq Hr Hts Hn quota.
  - exists [], w. split; [done|]. split; [done|].
    unfold rateLimit.stored_count. rewrite Hr. simpl. f_equal. lia.
  - apply Forall_cons in Hts as [Ht Hts].
    destruct (decide (RateItem.count r < rateLimit.maxRequests opts)%Z) as [Hlt|Hge].
    + destruct (rateLimiter_admits opts req t w r) as (o & w1 & Hrun & Hallowed & Hq1 & Hr1);
        [done..|].
      destruct (IH w1 _ Hq1 Hr1) as (os & w' & Hrest & Hos & Hc); [done|simpl; lia|].
      exists (o :: os), w'. split; [|split].
      * simpl. unfold bind. by rewrite Hrun, Hrest.
      * rewrite fmap_cons, Hallowed, Hos. simpl RateItem.count.
        assert (quota = S (Z.to_nat (rateLimit.maxRequests opts - (RateItem.count r + 1))))
          as -> by (unfold quota; lia).
        reflexivity.
      * rewrite Hc. simpl. f_equal. lia.
    + assert (quota = 0) as -> by (unfold quota; lia).
      pose proof (denied_without_increment opts req t w Hq r Hr Ht) as Hden.
      destruct (IH w r Hq Hr Hts Hn) as (os & w' & Hrest & Hos & Hc).
      exists (rateLimit.TooManyRequests :: os), w'. split; [|split].
      * simpl. unfold bind. rewrite Hden by lia. by rewrite Hrest.
      * rewrite fmap_cons, Hos.
        replace (Z.to_nat (rateLimit.maxRequests opts - RateItem.count r)) with 0 by lia.
        rewrite !Nat.min_0_r, !Nat.sub_0_r. reflexivity.
      * rewrite Hc. f_equal. simpl length. lia.
Qed.

Lemma window_admits_up_to_the_limit_witness :
  ∃ os w',
    rateLimit.calls five_per_minute get_posts [1001000; 1002000; 1003000]%Z
      (after (rateLimit.calls five_per_minute get_posts
                [1000000; 1000100; 1000200; 1000300]%Z) empty_world)
    = (Ok os, w')
    ∧ rateLimit.allowed <$> os = [true; false; false]
    ∧ rateLimit.stored_count five_per_minute get_posts w' = Some 5%Z.
Proof.
  apply (window_admits_up_to_the_limit five_per_minute get_posts
           [1001000; 1002000; 1003000]%Z
           (after (rateLimit.calls five_per_minute get_posts
                     [1000000; 1000100; 1000200; 1000300]%Z) empty_world)
           (RateItem.Build "10.0.0.7:GET/api/posts/timeline" 4 1000 1120)).
  - reflexivity.
  - vm_compute. reflexivity.
  - repeat constructor; vm_compute; reflexivity.
  - vm_compute. discriminate.
Defined.

(** X4: the stored count never passes the limit.  Whatever the times of the
    calls and whatever the store refuses, a sequence of calls of one client
    on one route leaves the stored count at or below [maxRequests] when it
    was so before (or when there was no record), for a limit of at least 1. *)
Theorem stored_count_stays_within_limit (opts : rateLimit.options)
    (req : rateLimit.request) (times : list Z) (w : world) :
  (1 ≤ rateLimit.maxRequests opts)%Z →
  (∀ n, rateLimit.stored_count opts req w = Some n → (n ≤ rateLimit.maxRequests opts)%Z) →
  ∀ n, rateLimit.stored_count opts req (after (rateLimit.calls opts req times) w) = Some n →
       (n ≤ rateLimit.maxRequests opts)%Z.
Proof.
  intros Hmax. revert w. induction times as [|t times IH]; intros w Hw; [exact Hw|].
  assert (∀ n, rateLimit.stored_count opts req (after (rateLimit.rateLimiter opts t req) w)
               = Some n → (n ≤ rateLimit.maxRequests opts)%Z) as Hstep.
  { clear IH. destruct w as [us ps ixs ss ns rl pub em fs].
    unfold rateLimit.stored_count in *. simpl in Hw.
    unfold after, rateLimit.rateLimiter, try_catch, bind, rateLimit.get,
      rateLimit.update_count, rateLimit.put, remote; simpl.
    destruct fs as [|[|] fs]; simpl; [|done|].
    - destruct (rl !! rateLimit.recordId opts req) as [r|] eqn:Hr; simpl.
      + specialize (Hw _ eq_refl).
        repeat case_bool_decide; simpl; rewrite ?Hr; simpl;
          rewrite ?lookup_insert_eq, ?Hr; simpl; intros n [= <-]; lia.
      + rewrite lookup_insert_eq. simpl. intros n [= <-]. lia.
    - destruct (rl !! rateLimit.recordId opts req) as [r|] eqn:Hr; simpl.
      + specialize (Hw _ eq_refl).
        repeat case_bool_decide; simpl; rewrite ?Hr; simpl;
          destruct fs as [|[|] fs]; simpl; rewrite ?Hr; simpl;
          rewrite ?lookup_insert_eq, ?Hr; simpl; intros n [= <-]; lia.
      + destruct fs as [|[|] fs]; simpl; rewrite ?lookup_insert_eq, ?Hr; simpl;
          intros n; try done; intros [= <-]; lia. }
  intros n. unfold after. simpl. unfold bind.
  destruct (rateLimit.rateLimiter opts t req w) as [[o|e] w1] eqn:Hrun.
  - unfold after in Hstep. rewrite Hrun in Hstep. simpl in Hstep.
    specialize (IH w1 Hstep n). unfold after in IH.
    destruct (rateLimit.calls opts req times w1) as [[os|e] w2]; simpl in *; exact IH.
  - unfold after in Hstep. rewrite Hrun in Hstep. simpl in *. apply Hstep.
Qed.

Lemma stored_count_stays_within_limit_witness :
  rateLimit.stored_count five_per_minute get_posts
    (after (rateLimit.calls five_per_minute get_posts
              [1000000; 1000100; 1000200; 1000300; 1000400; 1000500; 1000600]%Z)
       (set_faults [false; false; true; false; false; true] empty_world)) = Some 5%Z
  ∧ (5 ≤ rateLimit.maxRequests five_per_minute)%Z.
Proof.
  split; [vm_compute; reflexivity|].
  apply (stored_count_stays_within_limit five_per_minute get_posts
           [1000000; 1000100; 1000200; 1000300; 1000400; 1000500; 1000600]%Z
           (set_faults [false; false; true; false; false; true] empty_world)).
  - vm_compute. discriminate.
  - vm_compute. discriminate.
  - vm_compute. reflexivity.
Defined.

(** ** The ledger, further *)



(** X6: what [Interaction.create] returns is what [Interaction.getById]
    reads back, for a reply; an interaction without a parent is refused.  On
    a store that refuses nothing and under an id that no row has: with a
    non-empty [parentId], [create] resolves to the item it wrote, with the
    type, author and content id it was given and an absent content stored as
    the empty string, and [getById] on that id then resolves to the same
    item; without one, the item holds [parentId: null], on which the
    ParentIndex of the table keys, and [create] throws ValidationException
    and writes nothing. *)
Theorem create_then_getById (w : world) (uuidv4 : string) (now : Z)
    (interactionData : InteractionData.t) :
  faults w = [] →
  interactions w !! or_else (InteractionData.interactionId interactionData) uuidv4 = None →
  let id := or_else (InteractionData.interactionId interactionData) uuidv4 in
  (∀ parent, or_null (InteractionData.parentId interactionData) = Some parent →
     let item :=
       InteractionItem.Build id (InteractionData.type interactionData)
         (InteractionData.userId interactionData) (InteractionData.contentId interactionData)
         (Some (or_else (InteractionData.content interactionData) ""))
         (Some parent) now in
     result (Interaction.create uuidv4 now interactionData) w = Ok item
     ∧ result (Interaction.getById id)
         (after (Interaction.create uuidv4 now interactionData) w) = Ok (Some item))
  ∧ (or_null (InteractionData.parentId interactionData) = None →
     Interaction.create uuidv4 now interactionData w = (Throw ValidationException, w)).
Proof.
  intros Hq Hi. destruct w as [us ps ixs ss ns rl pub em fs]; simpl in *; subst fs.
  split.
  - intros parent Hparent.
    unfold result, after, Interaction.create, Interaction.getById, bind, ret,
      dynamoDb.put, dynamoDb.get, dynamoDb.update, remote; simpl.
    rewrite Hparent. simpl. rewrite Hi.
    rewrite bool_decide_eq_false_2 by (intros [? ?]; done). simpl.
    destruct (decide (InteractionData.type interactionData = "comment")); simpl;
      by rewrite lookup_insert_eq.
  - intros Hparent.
    unfold Interaction.create, bind, dynamoDb.put_null_key, remote; simpl.
    rewrite Hparent. simpl. rewrite Hi.
    by rewrite bool_decide_eq_false_2 by (intros [? ?]; done).
Qed.

Lemma create_then_getById_witness :
  result (Interaction.getById "c2")
    (after (Interaction.create "c2" 3000
              (InteractionData.Build None "comment" "u1" "p1" None (Some "c1"))) world_c1)
  = Ok (Some (InteractionItem.Build "c2" "comment" "u1" "p1" (Some "") (Some "c1") 3000))
  ∧ Interaction.create "c2" 3000
      (InteractionData.Build None "comment" "u1" "p1" (Some "hello") None) world_c1
    = (Throw ValidationException, world_c1).
Proof.
  split.
  - apply (proj1 (create_then_getById world_c1 "c2" 3000
                    (InteractionData.Build None "comment" "u1" "p1" None (Some "c1"))
                    eq_refl eq_refl) "c1" eq_refl).
  - apply (proj2 (create_then_getById world_c1 "c2" 3000
                    (InteractionData.Build None "comment" "u1" "p1" (Some "hello") None)
                    eq_refl eq_refl) eq_refl).
Defined.

(** X7: [Interaction.delete] decrements a counter for comments only.  The
    author of an interaction of another type deletes the row and no post is
    written; so, where the counters matched the ledger, deleting a like row
    this way leaves the like counter of its post one above the number of
    like rows that remain. *)
Theorem delete_of_a_like_row_keeps_the_counter (w : world) (interactionId actorId : string)
    (i : InteractionItem.t) :
  faults w = [] →
  interactions w !! interactionId = Some i →
  InteractionItem.userId i = actorId →
  InteractionItem.type i ≠ "comment" →
  let w' := after (Interaction.delete interactionId actorId) w in
  result (Interaction.delete interactionId actorId) w = Ok true
  ∧ interactions w' = delete interactionId (interactions w)
  ∧ posts w' = posts w
  ∧ (InteractionItem.type i = "like" → counters_match w →
     likeCount (InteractionItem.contentId i) w'
     = (Z.of_nat (undeleted "like" (InteractionItem.contentId i) w') + 1)%Z).
Proof.
  intros Hq Hi Hactor Hty w'.
  assert (result (Interaction.delete interactionId actorId) w = Ok true
          ∧ interactions w' = delete interactionId (interactions w)
          ∧ posts w' = posts w) as (Hres & Hint & Hposts).
  { unfold w'. clear w'. destruct w as [us ps ixs ss ns rl pub em fs]; simpl in *; subst fs.
    unfold result, after, Interaction.delete, Interaction.getById, bind, ret,
      dynamoDb.get, dynamoDb.delete, remote; simpl. rewrite Hi.
    rewrite decide_False by (intros H; by apply H).
    simpl. by rewrite decide_False by done. }
  split; [done|]. split; [done|]. split; [done|]. intros Hlike Hm.
  destruct (Hm (InteractionItem.contentId i)) as [Hl _].
  unfold likeCount in *. rewrite Hposts, Hl.
  rewrite (undeleted_delete w w' interactionId i "like" (InteractionItem.contentId i) Hint Hi).
  rewrite decide_True by done. lia.
Qed.

Lemma delete_of_a_like_row_keeps_the_counter_witness :
  interactions (after (Interaction.delete "l1" "u2") world_l1) = ∅
  ∧ likeCount "p1" (after (Interaction.delete "l1" "u2") world_l1) = 1%Z.
Proof.
  destruct (delete_of_a_like_row_keeps_the_counter world_l1 "l1" "u2"
              (like_row "l1" 2000 "p1" "u2")) as (_ & Hint & Hposts & _).
  - reflexivity.
  - vm_compute. reflexivity.
  - reflexivity.
  - discriminate.
  - split.
    + rewrite Hint. vm_compute. reflexivity.
    + unfold likeCount. rewrite Hposts. vm_compute. reflexivity.
Defined.

(** *** Likes: what [unlike] does *)

(** X8: [Post.unlike] removes no like.  Its query names [contentId] in the
    key condition, which is no key of UserContentIndex, and [type], a
    reserved word, in the filter; the store refuses it, so [unlike] throws
    before it reads or writes, in every world.  After a like under a free
    id on a store that refuses nothing, the unlike by the same user on the
    same post leaves the world of the like: the row is in the ledger and the
    counter of the post is one above what it was. *)
Theorem unlike_leaves_the_like (w : world) (uuidv4 : string) (now : Z)
    (postId userId : string) :
  faults w = [] →
  interactions w !! uuidv4 = None →
  let w1 := after (Post.like uuidv4 now postId userId) w in
  Post.unlike postId userId w1 = (Throw ValidationException, w1)
  ∧ interactions w1 !! uuidv4 = Some (like_row uuidv4 now postId userId)
  ∧ likes_of userId postId w1 = S (likes_of userId postId w)
  ∧ likeCount postId w1 = (likeCount postId w + 1)%Z.
Proof.
  intros Hq Hfresh w1. unfold w1. rewrite like_after by done. clear w1.
  set (w1 := set_interactions _ _).
  assert (interactions w1 = <[uuidv4 := like_row uuidv4 now postId userId]> (interactions w))
    as Hi by done.
  assert (posts w1 = <[postId := ADD_likesCount 1
            (default (PostItem.blank postId) (posts w !! postId))]> (posts w)) as Hp by done.
  split; [|split; [|split]].
  - destruct w as [us ps ixs ss ns rl pub em fs]; simpl in *; subst fs. reflexivity.
  - rewrite Hi. apply lookup_insert_eq.
  - rewrite (likes_of_insert w w1 uuidv4 (like_row uuidv4 now postId userId)) by done.
    rewrite decide_True; [done|]. by repeat split.
  - destruct (counts_ADD_likesCount w w1 postId postId 1 Hp) as [-> _].
    by rewrite decide_True by done.
Qed.

Lemma unlike_leaves_the_like_witness :
  Post.unlike "p1" "u2" (after (Post.like "l1" 3000 "p1" "u2") world_p1)
  = (Throw ValidationException, after (Post.like "l1" 3000 "p1" "u2") world_p1)
  ∧ likeCount "p1" (after (Post.like "l1" 3000 "p1" "u2") world_p1) = 1%Z.
Proof.
  destruct (unlike_leaves_the_like world_p1 "l1" 3000 "p1" "u2" eq_refl eq_refl)
    as (Hthrow & _ & _ & Hcount).
  split; [exact Hthrow|]. rewrite Hcount. reflexivity.
Defined.

(** X9: a like of a post that is not stored creates the post.  The [ADD] of
    the transaction makes an item that holds the key and [likesCount: 1] and
    nothing else; [likePost] answers 200, and since that item has no owner,
    the notification of the like is published with no recipient. *)
Theorem likePost_of_a_missing_post (w : world) (uuidv4 : string) (now : Z)
    (postId userId : string) (u : UserItem.t) :
  faults w = [] →
  posts w !! postId = None →
  users w !! userId = Some u →
  let w' := after (postController.likePost uuidv4 now postId userId) w in
  let message :=
    NotificationMessage.Build "like" userId None postId "post"
      (template (UserItem.username u) +:+ " liked your post") now in
  result (postController.likePost uuidv4 now postId userId) w
  = Ok (Response 200 "Post liked successfully")
  ∧ posts w' !! postId = Some (PostItem.set_likesCount (Some 1%Z) (PostItem.blank postId))
  ∧ published w' = published w ++ [message].
Proof.
  intros Hq Hp Hu. destruct w as [us ps ixs ss ns rl pub em fs]; simpl in *; subst fs.
  unfold result, after, postController.likePost, Post.like, Post.read_likesCount,
    Post.getById, User.getById, property, try_catch, bind, ret,
    snsService.publishNotification, io_emit,
    dynamoDb.transactWrite, dynamoDb.get, remote; simpl.
  repeat (progress (rewrite ?lookup_insert_eq, ?Hp, ?Hu; simpl)). done.
Qed.

Lemma likePost_of_a_missing_post_witness :
  posts (after (postController.likePost "l1" 3000 "p7" "u1") world_p1) !! "p7"
  = Some (PostItem.set_likesCount (Some 1%Z) (PostItem.blank "p7"))
  ∧ published (after (postController.likePost "l1" 3000 "p7" "u1") world_p1)
    = [NotificationMessage.Build "like" "u1" None "p7" "post" "alice liked your post" 3000].
Proof.
  destruct (likePost_of_a_missing_post world_p1 "l1" 3000 "p7" "u1" alice)
    as (_ & Hposts & Hpub).
  - reflexivity.
  - vm_compute. reflexivity.
  - vm_compute. reflexivity.
  - split; [exact Hposts|]. rewrite Hpub. reflexivity.
Defined.

(** X10: [unlikePost] answers 500 to every request.  [Post.unlike] throws
    for every post and user, whether the user likes the post or not, and the
    handler answers 500 'Server error'; no table is written and nothing is
    sent.  All that the call spends is the one request to the store. *)
Theorem unlikePost_answers_500 (w : world) (postId userId : string) :
  postController'.unlikePost postId userId w
  = (Ok (Response 500 "Server error"), set_faults (tail (faults w)) w).
Proof.
  unfold postController'.unlikePost, try_catch.
  destruct (unlike_throws w postId userId) as [e He].
  unfold bind. rewrite He. reflexivity.
Qed.

(** *** The comment handlers *)

(** X11: [deleteComment] answers 200 or 500, never the 404 that its source
    holds: [Interaction.delete] resolves to [true] or throws.  On a store
    that refuses nothing, a comment id that names no row, or a row of another
    author, is answered by 500 'Server error' and nothing is written. *)
Theorem deleteComment_answers_200_or_500 (commentId userId : string) (w : world) :
  (∃ r, result (interactionController'.deleteComment commentId userId) w = Ok r
        ∧ (r = Response 200 "Comment deleted successfully"
           ∨ r = Response 500 "Server error"))
  ∧ (faults w = [] →
     (∀ i, interactions w !! commentId = Some i → InteractionItem.userId i ≠ userId) →
     interactionController'.deleteComment commentId userId w
     = (Ok (Response 500 "Server error"), w)).
Proof.
  split.
  - unfold result, interactionController'.deleteComment, try_catch.
    destruct (bind _ _ w) as [[r|e] w'] eqn:Hrun; simpl; [|eauto].
    exists r. split; [done|].
    unfold Interaction.delete, Interaction.getById, bind, ret, throw in Hrun.
    destruct (dynamoDb.get TABLES.INTERACTIONS commentId w) as [[[i|]|?] w1];
      [|done..].
    destruct (decide (InteractionItem.userId i ≠ userId)); [done|].
    destruct (dynamoDb.delete TABLES.INTERACTIONS commentId w1) as [[b|?] w2]; [|done].
    destruct (decide (InteractionItem.type i = "comment")).
    + destruct (dynamoDb.update _ _ _ _ w2) as [[p|?] w3]; [|done].
      simpl in Hrun. injection Hrun as <- _. by left.
    + simpl in Hrun. injection Hrun as <- _. by left.
  - intros Hq Hi. destruct w as [us ps ixs ss ns rl pub em fs]; simpl in *; subst fs.
    unfold interactionController'.deleteComment, try_catch, Interaction.delete,
      Interaction.getById, bind, ret, throw, dynamoDb.get, remote; simpl.
    destruct (ixs !! commentId) as [i|] eqn:Hl; simpl; [|done].
    by rewrite decide_True by (by apply Hi).
Qed.

Lemma deleteComment_answers_200_or_500_witness :
  interactionController'.deleteComment "c1" "u1" world_c1
  = (Ok (Response 500 "Server error"), world_c1).
Proof.
  apply (deleteComment_answers_200_or_500 "c1" "u1" world_c1); [reflexivity|].
  intros i. vm_compute. intros [= <-]. discriminate.
Defined.

(** X12: [likeComment] writes no like.  On a store that refuses nothing: an
    id that names no row, or a row that is not a comment, is answered by 404
    'Comment not found'; for a stored comment the handler creates the like
    with [parentId: null], which the table refuses, and answers 500 'Server
    error'.  In both cases no table is written and nobody is notified. *)
Theorem likeComment_answers_404_or_500 (w : world) (uuidv4 : string) (now sent : Z)
    (commentId userId : string) :
  faults w = [] →
  ((∀ i, interactions w !! commentId = Some i → InteractionItem.type i ≠ "comment") →
   interactionController'.likeComment uuidv4 now sent commentId userId w
   = (Ok (Response 404 "Comment not found"), w))
  ∧ (∀ i, interactions w !! commentId = Some i →
          InteractionItem.type i = "comment" →
          interactionController'.likeComment uuidv4 now sent commentId userId w
          = (Ok (Response 500 "Server error"), w)).
Proof.
  intros Hq. destruct w as [us ps ixs ss ns rl pub em fs]; simpl in *; subst fs.
  split.
  - intros Hi.
    unfold interactionController'.likeComment, try_catch, Interaction.getById, bind, ret,
      dynamoDb.get, remote; simpl.
    destruct (ixs !! commentId) as [i|] eqn:Hl; simpl; [|done].
    by rewrite decide_True by (by apply Hi).
  - intros i Hi Hty.
    unfold interactionController'.likeComment, try_catch,
      Interaction.getById, Interaction.create, bind, ret,
      dynamoDb.get, dynamoDb.put_null_key, remote; simpl.
    rewrite Hi. simpl. rewrite decide_False by (intros H; by apply H). simpl.
    by destruct (bool_decide _).
Qed.

Lemma likeComment_answers_404_or_500_witness :
  interactionController'.likeComment "l9" 3000 3001 "l1" "u1" world_l1
  = (Ok (Response 404 "Comment not found"), world_l1)
  ∧ interactionController'.likeComment "l9" 3000 3001 "c1" "u1" world_p1
    = (Ok (Response 500 "Server error"), world_p1).
Proof.
  split.
  - apply (proj1 (likeComment_answers_404_or_500 world_l1 "l9" 3000 3001 "l1" "u1"
                    eq_refl)).
    intros i. vm_compute. intros [= <-]. discriminate.
  - apply (proj2 (likeComment_answers_404_or_500 world_p1 "l9" 3000 3001 "c1" "u1"
                    eq_refl)
             (comment_row "c1" 2000 None "u2" "p1" (Some "nice") None));
      vm_compute; reflexivity.
Defined.

(** *** Posts *)

(** X13: a post is created with its counters at zero, under an id that no
    post has.  On a store that refuses nothing: under a free id [Post.create]
    resolves to the item it wrote, owned by the given user, with the three
    counters 0, and [Post.getById] reads that item back; under the id of a
    stored post it throws ConditionalCheckFailedException and writes
    nothing. *)
Theorem Post_create_then_getById (w : world) (uuidv4 : string) (now : Z)
    (postData : PostData.t) :
  faults w = [] →
  let id := or_else (PostData.postId postData) uuidv4 in
  (posts w !! id = None →
   ∃ item,
     result (Post'.create uuidv4 now postData) w = Ok item
     ∧ PostItem.postId item = id
     ∧ PostItem.userId item = Some (PostData.userId postData)
     ∧ PostItem.likesCount item = Some 0%Z
     ∧ PostItem.commentsCount item = Some 0%Z
     ∧ PostItem.sharesCount item = Some 0%Z
     ∧ result (Post.getById id) (after (Post'.create uuidv4 now postData) w)
       = Ok (Some item))
  ∧ (∀ p, posts w !! id = Some p →
          Post'.create uuidv4 now postData w = (Throw ConditionalCheckFailedException, w)).
Proof.
  intros Hq id. destruct w as [us ps ixs ss ns rl pub em fs]; simpl in *; subst fs.
  split.
  - intros Hfree.
    unfold result, after, Post'.create, Post.getById, bind, ret, dynamoDb.put,
      dynamoDb.get, remote; simpl. fold id. rewrite Hfree.
    rewrite bool_decide_eq_false_2 by (intros [? ?]; done). simpl.
    eexists. split; [reflexivity|]. simpl. by rewrite lookup_insert_eq.
  - intros p Hp.
    unfold Post'.create, bind, dynamoDb.put, remote; simpl. fold id. rewrite Hp.
    by rewrite bool_decide_eq_true_2 by done.
Qed.

Lemma Post_create_then_getById_witness :
  (∃ item,
     result (Post'.create "p2" 3000 (PostData.Build None "u2" (Some "hi") None None None))
       world_p1 = Ok item
     ∧ PostItem.likesCount item = Some 0%Z)
  ∧ Post'.create "p2" 3000 (PostData.Build (Some "p1") "u2" (Some "hi") None None None)
      world_p1
    = (Throw ConditionalCheckFailedException, world_p1).
Proof.
  split.
  - destruct (proj1 (Post_create_then_getById world_p1 "p2" 3000
                       (PostData.Build None "u2" (Some "hi") None None None) eq_refl))
      as (item & Hitem & _ & _ & Hlikes & _).
    + vm_compute. reflexivity.
    + by exists item.
  - apply (proj2 (Post_create_then_getById world_p1 "p2" 3000
                    (PostData.Build (Some "p1") "u2" (Some "hi") None None None) eq_refl)
             (ADD_commentsCount 1 post_p1)).
    vm_compute. reflexivity.
Defined.

(** X14: [Post.delete] removes the post of its owner and nothing else.  On a
    store that refuses nothing: for a post id that is not stored, or a post
    of another user, it throws 'Unauthorized to delete this post' and writes
    nothing; for the owner it removes the item, and the interactions that
    target the post stay in the ledger, so the numbers of its undeleted likes
    and comments are what they were while its counters are gone. *)
Theorem Post_delete_removes_the_post_only (w : world) (postId userId : string) :
  faults w = [] →
  ((∀ p, posts w !! postId = Some p → PostItem.userId p ≠ Some userId) →
   Post'.delete postId userId w = (Throw (Error "Unauthorized to delete this post"), w))
  ∧ (∀ p, posts w !! postId = Some p → PostItem.userId p = Some userId →
          let w' := after (Post'.delete postId userId) w in
          result (Post'.delete postId userId) w = Ok true
          ∧ posts w' = delete postId (posts w)
          ∧ interactions w' = interactions w
          ∧ (∀ ty, undeleted ty postId w' = undeleted ty postId w)
          ∧ likeCount postId w' = 0%Z ∧ commentCount postId w' = 0%Z).
Proof.
  intros Hq. destruct w as [us ps ixs ss ns rl pub em fs]; simpl in *; subst fs.
  split.
  - intros Hp.
    unfold Post'.delete, Post.getById, bind, throw, dynamoDb.get, remote; simpl.
    destruct (ps !! postId) as [p|] eqn:Hl; simpl; [|done].
    by rewrite decide_True by (by apply Hp).
  - intros p Hp Hown.
    unfold result, after, Post'.delete, Post.getById, bind, ret, throw,
      dynamoDb.get, dynamoDb.delete, remote, likeCount, commentCount, undeleted; simpl.
    rewrite Hp. simpl. rewrite decide_False by (intros H; by apply H). simpl.
    by rewrite lookup_delete_eq.
Qed.

Lemma Post_delete_removes_the_post_only_witness :
  Post'.delete "p1" "u2" world_p1
  = (Throw (Error "Unauthorized to delete this post"), world_p1)
  ∧ undeleted "comment" "p1" (after (Post'.delete "p1" "u1") world_p1) = 1
  ∧ commentCount "p1" (after (Post'.delete "p1" "u1") world_p1) = 0%Z.
Proof.
  split.
  - apply (proj1 (Post_delete_removes_the_post_only world_p1 "p1" "u2" eq_refl)).
    intros p. vm_compute. intros [= <-]. discriminate.
  - destruct (proj2 (Post_delete_removes_the_post_only world_p1 "p1" "u1" eq_refl)
                (ADD_commentsCount 1 post_p1)) as (_ & _ & _ & Hrows & _ & Hc).
    + vm_compute. reflexivity.
    + reflexivity.
    + split; [|exact Hc]. rewrite Hrows. vm_compute. reflexivity.
Defined.

(** ** Users and passwords *)

(** X15: a changed password verifies.  For a bcrypt whose [compare] accepts
    a password against its own non-empty [hash], and on a store that refuses
    nothing, [verifyPassword] with the new password resolves to [true] after
    [changePassword]; the change writes the hash and [updatedAt] of that user
    and nothing else, and makes the item when the user has none. *)
Theorem changePassword_then_verifyPassword
    (genSalt : string) (hash : string → string → string) (compare : string → string → bool)
    (w : world) (now : Z) (userId newPassword : string) :
  compare newPassword (hash newPassword genSalt) = true →
  hash newPassword genSalt ≠ "" →
  faults w = [] →
  let w' := after (User'.changePassword genSalt hash now userId newPassword) w in
  result (User'.verifyPassword compare userId newPassword) w' = Ok true
  ∧ users w'
    = <[userId := User'.SET_passwordHash (hash newPassword genSalt) now
                    (default (UserItem.blank userId) (users w !! userId))]> (users w)
  ∧ posts w' = posts w ∧ interactions w' = interactions w.
Proof.
  intros Hcompare Hhash Hq.
  destruct w as [us ps ixs ss ns rl pub em fs]; simpl in *; subst fs.
  unfold result, after, User'.changePassword, User'.verifyPassword, bind, ret,
    dynamoDb.update, dynamoDb.get, remote; simpl.
  rewrite lookup_insert_eq. simpl. rewrite decide_False by done. by rewrite Hcompare.
Qed.

Lemma changePassword_then_verifyPassword_witness :
  result (User'.verifyPassword sample_compare "u1" "hunter2")
    (after (User'.changePassword "salt" sample_hash 3000 "u1" "hunter2") world_secret)
  = Ok true.
Proof.
  apply (changePassword_then_verifyPassword "salt" sample_hash sample_compare
           world_secret 3000 "u1" "hunter2").
  - reflexivity.
  - discriminate.
  - reflexivity.
Defined.

(** X16: the [changePassword] handler changes the password only for who
    knows the current one.  On a store that refuses nothing: when the user
    has no item, no hash, or a hash that [compare] rejects for the password
    given as current, it answers 401 'Current password is incorrect' and
    writes nothing; when [compare] accepts it, it answers 200 and stores the
    hash of the new password. *)
Theorem changePassword_requires_the_current_password
    (genSalt : string) (hash : string → string → string) (compare : string → string → bool)
    (w : world) (now : Z) (currentPassword newPassword userId : string) :
  faults w = [] →
  ((∀ u h, users w !! userId = Some u → UserItem.passwordHash u = Some (Some h) →
           compare currentPassword h = false) →
   authController.changePassword genSalt hash compare now currentPassword newPassword
     userId w
   = (Ok (Response 401 "Current password is incorrect"), w))
  ∧ (∀ u h, users w !! userId = Some u → UserItem.passwordHash u = Some (Some h) →
            h ≠ "" → compare currentPassword h = true →
            let w' := after (authController.changePassword genSalt hash compare now
                               currentPassword newPassword userId) w in
            result (authController.changePassword genSalt hash compare now
                      currentPassword newPassword userId) w
            = Ok (Response 200 "Password changed successfully")
            ∧ users w' !! userId
              = Some (User'.SET_passwordHash (hash newPassword genSalt) now u)).
Proof.
  intros Hq. destruct w as [us ps ixs ss ns rl pub em fs]; simpl in *; subst fs.
  split.
  - intros Hwrong.
    unfold authController.changePassword, try_catch, User'.verifyPassword, bind, ret,
      dynamoDb.get, remote; simpl.
    destruct (us !! userId) as [u|] eqn:Hu; simpl; [|done].
    destruct (UserItem.passwordHash u) as [[h|]|] eqn:Hh; simpl; [|done..].
    destruct (decide (h = "")); simpl; [done|].
    by rewrite (Hwrong u h).
  - intros u h Hu Hh Hne Hright.
    unfold result, after, authController.changePassword, try_catch,
      User'.verifyPassword, User'.changePassword, bind, ret,
      dynamoDb.get, dynamoDb.update, remote; simpl.
    rewrite Hu. simpl. rewrite Hh. rewrite decide_False by done. simpl.
    rewrite Hright. simpl. rewrite Hu. simpl. by rewrite lookup_insert_eq.
Qed.

Lemma changePassword_requires_the_current_password_witness :
  authController.changePassword "salt" sample_hash sample_compare 3000 "guess" "hunter2"
    "u1" world_secret
  = (Ok (Response 401 "Current password is incorrect"), world_secret)
  ∧ users (after (authController.changePassword "salt" sample_hash sample_compare 3000
                    "secret" "hunter2" "u1") world_secret) !! "u1"
    = Some (User'.SET_passwordHash "hunter2salt" 3000
              (User'.SET_passwordHash "secretsalt" 1500 alice)).
Proof.
  split.
  - apply (proj1 (changePassword_requires_the_current_password "salt" sample_hash
                    sample_compare world_secret 3000 "guess" "hunter2" "u1" eq_refl)).
    intros u h. vm_compute. intros [= <-] [= <-]. reflexivity.
  - apply (proj2 (changePassword_requires_the_current_password "salt" sample_hash
                    sample_compare world_secret 3000 "secret" "hunter2" "u1" eq_refl)
             (User'.SET_passwordHash "secretsalt" 1500 alice) "secretsalt").
    + vm_compute. reflexivity.
    + reflexivity.
    + discriminate.
    + reflexivity.
Defined.

(** X17: [User.update] writes the profile and nothing else.  Whatever the
    store refuses, after [update] the item of every other user is as before,
    and the item of the user, when there is one, has the password hash, the
    email, the follow sets and the creation time that it had (or, made by the
    update, none); what [update] resolves to has no password hash. *)
Theorem User_update_writes_the_profile_only (w : world) (now : Z) (userId : string)
    (updates : User'.updates) :
  let w' := after (User'.update now userId updates) w in
  let before := default (UserItem.blank userId) (users w !! userId) in
  (∀ other, other ≠ userId → users w' !! other = users w !! other)
  ∧ (∀ u, users w' !! userId = Some u →
          users w !! userId = Some u
          ∨ (UserItem.passwordHash u = UserItem.passwordHash before
             ∧ UserItem.email u = UserItem.email before
             ∧ UserItem.following u = UserItem.following before
             ∧ UserItem.followers u = UserItem.followers before
             ∧ UserItem.createdAt u = UserItem.createdAt before
             ∧ UserItem.updatedAt u = Some now))
  ∧ (∀ u, result (User'.update now userId updates) w = Ok u →
          UserItem.passwordHash u = None
          ∧ users w' !! userId = Some (User'.SET_profile now updates before)).
Proof.
  destruct w as [us ps ixs ss ns rl pub em fs]; simpl.
  unfold result, after, User'.update, bind, ret, dynamoDb.update, remote; simpl.
  destruct fs as [|[|] fs]; simpl.
  - split; [|split].
    + intros other Hne. by rewrite lookup_insert_ne.
    + intros u. rewrite lookup_insert_eq. intros [= <-]. right. done.
    + intros u [= <-]. by rewrite lookup_insert_eq.
  - split; [done|]. split; [by left|done].
  - split; [|split].
    + intros other Hne. by rewrite lookup_insert_ne.
    + intros u. rewrite lookup_insert_eq. intros [= <-]. right. done.
    + intros u [= <-]. by rewrite lookup_insert_eq.
Qed.

(** *** Notifications *)

(** X18: [markAsRead] and [deleteNotification] never write.  Each handler
    reads [notification.Item] on the item that the wrapper has already
    unwrapped: on a store that refuses nothing, a stored notification is
    answered by 404 'Notification not found', whoever asks, and an id that
    names none by 500 'Server error'; in every world the Notifications table
    is left as it was. *)
Theorem notification_handlers_never_write (w : world) (notificationId userId : string) :
  notifications (after (notificationController.markAsRead notificationId userId) w)
  = notifications w
  ∧ notifications (after (notificationController.deleteNotification notificationId userId) w)
    = notifications w
  ∧ (faults w = [] →
     notificationController.markAsRead notificationId userId w
     = (Ok (match notifications w !! notificationId with
            | Some _ => Response 404 "Notification not found"
            | None => Response 500 "Server error"
            end), w)
     ∧ notificationController.deleteNotification notificationId userId w
       = (Ok (match notifications w !! notificationId with
              | Some _ => Response 404 "Notification not found"
              | None => Response 500 "Server error"
              end), w)).
Proof.
  destruct w as [us ps ixs ss ns rl pub em fs]; simpl.
  unfold after, notificationController.markAsRead, notificationController.deleteNotification,
    Notification'.markAsRead, Notification'.delete, Notification'.get_Item, property,
    try_catch, bind, ret, throw, dynamoDb.get, remote; simpl.
  split; [|split].
  - destruct fs as [|[|] fs]; simpl; try done; by destruct (ns !! notificationId).
  - destruct fs as [|[|] fs]; simpl; try done; by destruct (ns !! notificationId).
  - intros ->. by destruct (ns !! notificationId).
Qed.

Lemma notification_handlers_never_write_witness :
  notificationController.markAsRead "n1" "u1" world_n1
  = (Ok (Response 404 "Notification not found"), world_n1)
  ∧ notificationController.deleteNotification "n2" "u1" world_n1
    = (Ok (Response 500 "Server error"), world_n1).
Proof.
  destruct (notification_handlers_never_write world_n1 "n1" "u1") as (_ & _ & Hn1).
  destruct (notification_handlers_never_write world_n1 "n2" "u1") as (_ & _ & Hn2).
  split; [apply (Hn1 eq_refl)|apply (Hn2 eq_refl)].
Defined.

(** *** Registration *)

(** an item that satisfies the condition of a query is among its results *)
Lemma scan_index_complete {V} (m : gmap string V) (condition : V → bool) (range : V → Z)
    (k : string) (x : V) :
  m !! k = Some x → condition x = true →
  x ∈ scan_index m condition range true None.
Proof.
  intros Hk Hc. unfold scan_index. simpl. rewrite stable_sort_perm.
  apply list_elem_of_filter. split; [done|].
  apply list_elem_of_fmap. exists (k, x). split; [done|].
  by apply elem_of_map_to_list.
Qed.

(** X19: a user created with a password verifies with it and is found.  For
    a bcrypt whose [compare] accepts a password against its own non-empty
    [hash], on a store that refuses nothing and under an id that no user has:
    after [User.create], [verifyPassword] with the password resolves to
    [true], [getById] reads back what [create] returned, and [getByEmail]
    finds a user with that email. *)
Theorem create_then_verifyPassword
    (genSalt : string) (hash : string → string → string) (compare : string → string → bool)
    (w : world) (uuidv4 : string) (now : Z) (userData : UserData.t) (password : string) :
  UserData.password userData = Some password →
  password ≠ "" →
  compare password (hash password genSalt) = true →
  hash password genSalt ≠ "" →
  faults w = [] →
  users w !! or_else (UserData.userId userData) uuidv4 = None →
  let id := or_else (UserData.userId userData) uuidv4 in
  let w' := after (User.create genSalt hash uuidv4 now userData) w in
  result (User'.verifyPassword compare id password) w' = Ok true
  ∧ (∃ item, result (User.create genSalt hash uuidv4 now userData) w = Ok item
             ∧ result (User.getById id) w' = Ok (Some item))
  ∧ (∃ u, result (User.getByEmail (UserData.email userData)) w' = Ok (Some u)
          ∧ UserItem.email u = Some (UserData.email userData)).
Proof.
  intros Hpw Hne Hcompare Hhash Hq Hfree id w'. subst id.
  set (id := or_else (UserData.userId userData) uuidv4) in *.
  assert (∃ item,
            User.create genSalt hash uuidv4 now userData w
            = (Ok (UserItem.delete_passwordHash item),
               set_users (<[id := item]> (users w)) w)
            ∧ UserItem.passwordHash item = Some (Some (hash password genSalt))
            ∧ UserItem.email item = Some (UserData.email userData))
    as (item & Hrun & Hhashed & Hemail).
  { destruct w as [us ps ixs ss ns rl pub em fs]; simpl in *; subst fs.
    unfold User.create, bind, ret, dynamoDb.put, remote; simpl. fold id.
    rewrite Hfree. rewrite bool_decide_eq_false_2 by (intros [? ?]; done). simpl.
    eexists. split; [reflexivity|]. simpl. rewrite Hpw.
    by rewrite decide_False by done. }
  unfold w', result, after. rewrite Hrun. simpl.
  destruct w as [us ps ixs ss ns rl pub em fs]; simpl in *; subst fs.
  split; [|split].
  - unfold User'.verifyPassword, bind, ret, dynamoDb.get, remote; simpl.
    rewrite lookup_insert_eq. simpl. rewrite Hhashed.
    rewrite decide_False by done. by rewrite Hcompare.
  - eexists. split; [reflexivity|].
    unfold User.getById, bind, ret, dynamoDb.get, remote; simpl.
    by rewrite lookup_insert_eq.
  - unfold User.getByEmail, bind, ret, dynamoDb.query, remote; simpl.
    set (found := scan_index _ _ _ _ _).
    assert (item ∈ found) as Hin.
    { apply (scan_index_complete _ _ _ id); [by rewrite lookup_insert_eq|].
      by rewrite Hemail, bool_decide_eq_true_2. }
    destruct found as [|first rest] eqn:Hfound; [by apply elem_of_nil in Hin|].
    simpl. exists first. split; [done|].
    assert (first ∈ found) as Hfirst by (rewrite Hfound; left).
    apply scan_index_elem in Hfirst as (k & _ & Hc).
    by apply bool_decide_eq_true in Hc.
Qed.

Lemma create_then_verifyPassword_witness :
  result (User'.verifyPassword sample_compare "u2" "secret")
    (after (User.create "salt" sample_hash "u2" 2000 bob_data) world_alice)
  = Ok true.
Proof.
  apply (create_then_verifyPassword "salt" sample_hash sample_compare world_alice "u2" 2000
           bob_data "secret").
  - reflexivity.
  - discriminate.
  - reflexivity.
  - discriminate.
  - reflexivity.
  - vm_compute. reflexivity.
Defined.

(** X20: a lookup by email or by user name resolves to null exactly when no
    stored user has it.  On a store that refuses nothing, [getByEmail]
    resolves to [null] if and only if no item of the Users table has that
    email, and [getByUsername] likewise for the user name. *)
Theorem lookup_resolves_to_null_iff_nobody (w : world) (name : string) :
  faults w = [] →
  (result (User.getByEmail name) w = Ok None
   ↔ ∀ k u, users w !! k = Some u → UserItem.email u ≠ Some name)
  ∧ (result (User.getByUsername name) w = Ok None
     ↔ ∀ k u, users w !! k = Some u → UserItem.username u ≠ Some name).
Proof.
  intros Hq. destruct w as [us ps ixs ss ns rl pub em fs]; simpl in *; subst fs.
  split.
  - unfold result, User.getByEmail, bind, ret, dynamoDb.query, remote; simpl.
    set (found := scan_index _ _ _ _ _). split.
    + intros Hnone k u Hk Hemail.
      assert (u ∈ found) as Hin.
      { apply (scan_index_complete _ _ _ k); [done|]. by rewrite bool_decide_eq_true_2. }
      destruct found as [|first rest]; [by apply elem_of_nil in Hin|]. done.
    + intros Hnobody. destruct found as [|first rest] eqn:Hfound; [done|exfalso].
      assert (first ∈ found) as Hfirst by (rewrite Hfound; left).
      apply scan_index_elem in Hfirst as (k & Hk & Hc).
      apply bool_decide_eq_true in Hc. by apply (Hnobody k first).
  - unfold result, User.getByUsername, bind, ret, dynamoDb.query, remote; simpl.
    set (found := scan_index _ _ _ _ _). split.
    + intros Hnone k u Hk Hname.
      assert (u ∈ found) as Hin.
      { apply (scan_index_complete _ _ _ k); [done|]. by rewrite bool_decide_eq_true_2. }
      destruct found as [|first rest]; [by apply elem_of_nil in Hin|]. done.
    + intros Hnobody. destruct found as [|first rest] eqn:Hfound; [done|exfalso].
      assert (first ∈ found) as Hfirst by (rewrite Hfound; left).
      apply scan_index_elem in Hfirst as (k & Hk & Hc).
      apply bool_decide_eq_true in Hc. by apply (Hnobody k first).
Qed.

Lemma lookup_resolves_to_null_iff_nobody_witness :
  result (User.getByEmail "carol@example.org") world_alice = Ok None.
Proof.
  apply (proj1 (lookup_resolves_to_null_iff_nobody world_alice "carol@example.org" eq_refl)).
  intros k u Hk. unfold world_alice in Hk. simpl in Hk.
  apply lookup_singleton_Some in Hk as [_ <-]. discriminate.
Defined.

(** ** The listings *)

(** what the wrapper resolves a paged query to is an array *)
Lemma paged_query_array (dynamoDB : documentClient) {V} (T : table V)
    (params : QueryInput.t) (w w' : world) (r : queryOutput V) :
  dynamoDb'.query dynamoDB T params w = (Ok r, w') → ∃ items, r = ItemArray items.
Proof.
  unfold dynamoDb'.query, remote. intros Hrun.
  destruct (faults w) as [|[|] fs]; try done;
    match type of Hrun with
    | context [dynamoDB V T params ?w0] =>
        destruct (dynamoDB V T params w0) as [[items k]|e]
    end; try done; injection Hrun as <- _; eauto.
Qed.

(** a paged query writes no table *)
Lemma paged_query_reads (dynamoDB : documentClient) {V} (T : table V)
    (params : QueryInput.t) (w : world) :
  ∃ fs, after (dynamoDb'.query dynamoDB T params) w = set_faults fs w.
Proof.
  unfold after, dynamoDb'.query, remote.
  destruct w as [us ps ixs ss ns rl pub em fs]. simpl.
  destruct fs as [|[|] fs]; simpl.
  - exists []. by destruct (dynamoDB V T params _) as [[??]|?].
  - by exists fs.
  - exists fs. by destruct (dynamoDB V T params _) as [[??]|?].
Qed.

Lemma parse_lastKey_invalid (lastKey : list Z) (invalid : response) :
  parse_lastKey lastKey = inl invalid → invalid = Response 400 "Invalid lastKey format".
Proof. unfold parse_lastKey. destruct (JSON.parse _); [done|]. by intros [= <-]. Qed.

Lemma decode_lastKey_invalid (lastKey : option (list Z)) (invalid : response) :
  decode_lastKey lastKey = inl invalid → invalid = Response 400 "Invalid lastKey format".
Proof.
  destruct lastKey as [[|c s]|]; simpl; [done| |done]. apply parse_lastKey_invalid.
Qed.

(** X21: the listings of comments and of replies are never delivered.
    [Interaction.getByContentId] and [getReplies] read [Items] and
    [LastEvaluatedKey] off the array that the wrapper has already taken out of
    the result, so what they resolve to holds neither a page nor a position;
    the handlers then call [filter] and [map] on [undefined].  For every
    store, every world and every request, [getComments] and [getReplies]
    answer 400 'Invalid lastKey format' or 500 'Server error', and never
    200. *)
Theorem comment_listings_answer_400_or_500 (dynamoDB : documentClient) (w : world)
    (id : string) (limit : option Z) (lastKey : option (list Z)) :
  (∀ type lastEvaluatedKey page,
     result (Interaction'.getByContentId dynamoDB id type limit lastEvaluatedKey) w = Ok page →
     page = Interaction'.Page None None)
  ∧ (∃ r, result (interactionController'.getComments dynamoDB id limit lastKey) w = Ok r
          ∧ (r = Response 400 "Invalid lastKey format" ∨ r = Response 500 "Server error"))
  ∧ (∃ r, result (interactionController'.getReplies dynamoDB id limit lastKey) w = Ok r
          ∧ (r = Response 400 "Invalid lastKey format" ∨ r = Response 500 "Server error")).
Proof.
  split; [|split].
  - intros type k page. unfold result, Interaction'.getByContentId, bind, ret.
    destruct (dynamoDb'.query _ _ _ w) as [[r|e] w1] eqn:Hrun; simpl; [|done].
    apply paged_query_array in Hrun as [items ->]. by intros [= <-].
  - unfold result, interactionController'.getComments, try_catch.
    destruct (decode_lastKey lastKey) as [invalid|k] eqn:Hk.
    + apply decode_lastKey_invalid in Hk as ->. simpl. eauto.
    + unfold Interaction'.getByContentId, bind, ret.
      destruct (dynamoDb'.query _ _ _ w) as [[r|e] w1] eqn:Hrun; simpl; [|eauto].
      apply paged_query_array in Hrun as [items ->]. simpl. eauto.
  - unfold result, interactionController'.getReplies, try_catch.
    destruct (decode_lastKey lastKey) as [invalid|k] eqn:Hk.
    + apply decode_lastKey_invalid in Hk as ->. simpl. eauto.
    + unfold Interaction'.getReplies, bind, ret.
      destruct (dynamoDb'.query _ _ _ w) as [[r|e] w1] eqn:Hrun; simpl; [|eauto].
      apply paged_query_array in Hrun as [items ->]. simpl. eauto.
Qed.

(** X22: [getUserPosts] delivers no page either.  For every store, world
    and request it answers 400 'Invalid lastKey format', 404 'User not found'
    or 500 'Server error'; for a user who is stored the answer is never the
    404, so a stored user's posts are answered by an error. *)
Theorem getUserPosts_answers_an_error (dynamoDB : documentClient) (w : world)
    (userId : string) (limit : option Z) (lastKey : option (list Z)) :
  ∃ r, result (postController'.getUserPosts dynamoDB userId limit lastKey) w = Ok r
       ∧ (r = Response 400 "Invalid lastKey format"
          ∨ (r = Response 404 "User not found" ∧ users w !! userId = None)
          ∨ r = Response 500 "Server error").
Proof.
  unfold result, postController'.getUserPosts, try_catch.
  destruct (decode_lastKey lastKey) as [invalid|k] eqn:Hk.
  - apply decode_lastKey_invalid in Hk as ->. simpl. eauto.
  - unfold Post'.getByUserId, bind, ret.
    destruct (paged_query_reads dynamoDB TABLES.POSTS
                (QueryInput.Build "UserIdIndex" "userId = :userId" None
                   [(":userId", QueryInput.str userId)] (Some false) limit
                   (if json_truthy k then Some k else None)) w) as [fs Hw1].
    unfold after in Hw1.
    destruct (dynamoDb'.query _ _ _ w) as [[r|e] w1] eqn:Hrun; simpl in *; [|eauto].
    apply paged_query_array in Hrun as [items ->]. subst w1.
    unfold User.getById, bind, ret, dynamoDb.get, remote. simpl.
    destruct fs as [|[|] fs]; simpl; [|eauto|];
      (destruct (users w !! userId) as [u|] eqn:Hu; simpl; [eauto|]);
      eexists; (split; [reflexivity|]); right; left; done.
Qed.

(** every per-owner result of the timeline is the bare array, whatever the
    store refuses *)
Lemma query_all_shape (userIds : list string) (limit : nat) (w w' : world)
    (results : list (queryOutput PostItem.t)) :
  Post.query_all userIds limit w = (Ok results, w') →
  ∃ pages, results = ItemArray <$> pages ∧ length pages = length userIds.
Proof.
  revert w w' results. induction userIds as [|u userIds IH]; intros w w' results; simpl.
  - intros [= <- _]. by exists [].
  - unfold bind, ret.
    destruct (dynamoDb.query _ _ _ _ _ w) as [[r|e] w1] eqn:Hq; [|done].
    destruct (Post.query_all userIds limit w1) as [[rs|e] w2] eqn:Hrest; [|done].
    intros [= <- _]. destruct (IH _ _ _ Hrest) as (pages & -> & Hlen).
    unfold dynamoDb.query, remote in Hq.
    destruct (faults w) as [|[|] fs]; try done; injection Hq as <- _;
      eexists (_ :: pages); simpl; by rewrite Hlen.
Qed.

Lemma getTimelinePosts_shape (userIds : list string) (limit : nat) (w w' : world)
    (posts : list (option PostItem.t)) :
  Post.getTimelinePosts userIds limit w = (Ok posts, w') →
  posts = replicate (limit `min` length userIds) None.
Proof.
  unfold Post.getTimelinePosts, bind, ret.
  destruct (Post.query_all userIds limit w) as [[results|e] w1] eqn:Hq; [|done].
  destruct (query_all_shape _ _ _ _ _ Hq) as (pages & -> & Hlen).
  intros [= <- _].
  rewrite flatMap_Items_of_arrays, Array_sort_undefined, take_replicate. by rewrite Hlen.
Qed.

(** X23: the timeline is never delivered.  [Post.getTimelinePosts] resolves
    to one [undefined] per owner, and the owners are the users followed and
    the user, so for a limit of at least 1 the handler reads [userId] of
    [undefined]: whatever the tables hold and whatever the store refuses,
    [getTimelinePosts] answers 500 'Server error'. *)
Theorem timeline_handler_answers_500 (w : world) (userId : string) (limit : nat) :
  0 < limit →
  result (postController'.getTimelinePosts userId limit) w
  = Ok (Response 500 "Server error").
Proof.
  intros Hlimit. unfold result, postController'.getTimelinePosts, try_catch, bind.
  destruct (User.getFollowing userId w) as [[following|e] w1]; [|done].
  destruct (Post.getTimelinePosts _ limit w1) as [[posts|e] w2] eqn:Hposts; [|done].
  apply getTimelinePosts_shape in Hposts. rewrite length_app in Hposts. simpl in Hposts.
  destruct (limit `min` (length following + 1)) as [|n] eqn:Hn; [lia|].
  subst posts. reflexivity.
Qed.

Lemma timeline_handler_answers_500_witness :
  result (postController'.getTimelinePosts "u1" 20) world_timeline
  = Ok (Response 500 "Server error").
Proof. apply (timeline_handler_answers_500 world_timeline "u1" 20). lia. Defined.

(** X29: the listing of notifications and [markAllAsRead] never succeed.
    [Notification.getByUserId] too reads [Items] off the array that the
    wrapper returned, so for every store, world and request
    [getNotifications] answers 400 'Invalid lastKey format' or 500 'Server
    error', and [markAllAsRead], which maps over the unread notifications,
    answers 500 and leaves the Notifications table as it was. *)
Theorem notification_listings_answer_an_error (dynamoDB : documentClient) (w : world)
    (userId : string) (limit : option Z) (lastKey : option (list Z))
    (unreadOnly : option string) :
  (∃ r, result (notificationController.getNotifications dynamoDB userId limit lastKey
                  unreadOnly) w = Ok r
        ∧ (r = Response 400 "Invalid lastKey format" ∨ r = Response 500 "Server error"))
  ∧ result (notificationController.markAllAsRead dynamoDB userId) w
    = Ok (Response 500 "Server error")
  ∧ notifications (after (notificationController.markAllAsRead dynamoDB userId) w)
    = notifications w.
Proof.
  split; [|split].
  - unfold result, notificationController.getNotifications, try_catch.
    destruct (decode_lastKey lastKey) as [invalid|k] eqn:Hk.
    + apply decode_lastKey_invalid in Hk as ->. simpl. eauto.
    + unfold Notification'.getByUserId, bind, ret.
      destruct (dynamoDb'.query _ _ _ w) as [[r|e] w1] eqn:Hrun; simpl; [|eauto].
      apply paged_query_array in Hrun as [items ->]. simpl. eauto.
  - unfold result, notificationController.markAllAsRead, Notification'.markAllAsRead,
      Notification'.getByUserId, try_catch, bind, ret.
    destruct (dynamoDb'.query _ _ _ w) as [[r|e] w1] eqn:Hrun; simpl; [|done].
    by apply paged_query_array in Hrun as [items ->].
  - unfold after, notificationController.markAllAsRead, Notification'.markAllAsRead,
      Notification'.getByUserId, try_catch, bind, ret.
    destruct (paged_query_reads dynamoDB TABLES.NOTIFICATIONS
                (QueryInput.Build "RecipientIndex" "recipientId = :recipientId"
                   (Some "read = :read")
                   [(":recipientId", QueryInput.str userId);
                    (":read", QueryInput.boolean false)]
                   (Some false) (Some 100%Z) None) w) as [fs Hw1].
    unfold after in Hw1. simpl in *.
    destruct (dynamoDb'.query _ _ _ w) as [[r|e] w1] eqn:Hrun; simpl in *; subst w1.
    + apply paged_query_array in Hrun as [items ->]. simpl. by destruct w.
    + by destruct w.
Qed.

(** X30: [getPost] needs the author.  On a store that refuses nothing, a
    post id that is not stored is answered by 404 'Post not found', a post
    whose author is stored by 200, and a post whose author is not stored, or
    that names none, by 500 'Server error'. *)
Theorem getPost_needs_the_author (w : world) (postId : string) :
  faults w = [] →
  result (postController'.getPost postId) w
  = Ok match posts w !! postId with
       | None => Response 404 "Post not found"
       | Some post =>
           match PostItem.userId post ≫= (users w !!.) with
           | Some author => Response 200 ""
           | None => Response 500 "Server error"
           end
       end.
Proof.
  intros Hq. destruct w as [us ps ixs ss ns rl pub em fs]; simpl in *; subst fs.
  unfold result, postController'.getPost, postController'.getById_of, try_catch,
    Post.getById, User.getById, property, bind, ret, throw, dynamoDb.get, remote; simpl.
  destruct (ps !! postId) as [post|]; simpl; [|done].
  destruct (PostItem.userId post) as [a|]; simpl; [|done].
  by destruct (us !! a).
Qed.

Lemma getPost_needs_the_author_witness :
  result (postController'.getPost "p1") world_p1 = Ok (Response 200 "")
  ∧ result (postController'.getPost "p7")
      (after (postController.likePost "l1" 3000 "p7" "u1") world_p1)
    = Ok (Response 500 "Server error").
Proof.
  split.
  - apply (getPost_needs_the_author world_p1 "p1"). reflexivity.
  - apply (getPost_needs_the_author
             (after (postController.likePost "l1" 3000 "p7" "u1") world_p1) "p7").
    reflexivity.
Defined.

(** ** Comments, further *)

(** X24: [addComment] writes nothing unless the request is valid, the
    content is stored and the parent, when one is named, is a comment.  On a
    store that refuses nothing: a request with validation errors is answered
    by 400; a content id that names neither a post nor a story or reel by
    404 'Content not found'; a parent id that names no row, or a row that is
    not a comment, by 404 'Parent comment not found'; and in each case the
    world is as before. *)
Theorem addComment_guards (w : world) (uuidv4 : string) (now : Z) (errors : list string)
    (contentId : string) (content parentId : option string) (userId : string) :
  faults w = [] →
  (errors ≠ [] →
   interactionController.addComment uuidv4 now errors contentId content parentId userId w
   = (Ok (Response 400 ""), w))
  ∧ (errors = [] → posts w !! contentId = None → stories w !! contentId = None →
     interactionController.addComment uuidv4 now errors contentId content parentId userId w
     = (Ok (Response 404 "Content not found"), w))
  ∧ (∀ parent,
       errors = [] → is_Some (posts w !! contentId) ∨ is_Some (stories w !! contentId) →
       interactionController.truthy parentId = Some parent →
       (∀ i, interactions w !! parent = Some i → InteractionItem.type i ≠ "comment") →
       interactionController.addComment uuidv4 now errors contentId content parentId userId w
       = (Ok (Response 404 "Parent comment not found"), w)).
Proof.
  intros Hq. destruct w as [us ps ixs ss ns rl pub em fs]; simpl in *; subst fs.
  split; [|split].
  - intros Herr. unfold interactionController.addComment, try_catch.
    by rewrite bool_decide_eq_false_2 by done.
  - intros -> Hp Hs.
    unfold interactionController.addComment, try_catch, Post.getById, Story.getById,
      bind, ret, dynamoDb.get, remote; simpl.
    rewrite Hp. simpl. rewrite Hs. done.
  - intros parent -> Hcontent Hparent Hi.
    unfold interactionController.addComment, try_catch, Post.getById, Story.getById,
      Interaction.getById, bind, ret, dynamoDb.get, remote; simpl.
    destruct (ps !! contentId) as [post|] eqn:Hp; simpl.
    + rewrite Hparent. simpl.
      destruct (ixs !! parent) as [i|] eqn:Hl; simpl; [|done].
      by rewrite bool_decide_eq_false_2 by (by apply Hi).
    + destruct (ss !! contentId) as [story|] eqn:Hs; simpl.
      * rewrite Hparent. simpl.
        destruct (ixs !! parent) as [i|] eqn:Hl; simpl; [|done].
        by rewrite bool_decide_eq_false_2 by (by apply Hi).
      * destruct Hcontent as [[? ?]|[? ?]]; done.
Qed.

Lemma addComment_guards_witness :
  interactionController.addComment "c2" 3000 ["Comment content is required"] "p1" None None
    "u1" world_p1
  = (Ok (Response 400 ""), world_p1)
  ∧ interactionController.addComment "c2" 3000 [] "p9" (Some "hello") None "u1" world_p1
    = (Ok (Response 404 "Content not found"), world_p1)
  ∧ interactionController.addComment "c2" 3000 [] "p1" (Some "hello") (Some "c7") "u1"
      world_p1
    = (Ok (Response 404 "Parent comment not found"), world_p1).
Proof.
  split; [|split].
  - apply (proj1 (addComment_guards world_p1 "c2" 3000 ["Comment content is required"]
                    "p1" None None "u1" eq_refl)). discriminate.
  - apply (proj1 (proj2 (addComment_guards world_p1 "c2" 3000 [] "p9" (Some "hello") None
                           "u1" eq_refl))); vm_compute; reflexivity.
  - apply (proj2 (proj2 (addComment_guards world_p1 "c2" 3000 [] "p1" (Some "hello")
                           (Some "c7") "u1" eq_refl)) "c7").
    + reflexivity.
    + left. vm_compute. by eexists.
    + reflexivity.
    + intros i. vm_compute. discriminate.
Defined.

(** X25: a reply may name any comment as its parent.  [addComment] checks
    that the parent is a stored comment, not that it is a comment on the same
    content: on a store that refuses nothing, for a stored post, a known
    author and a parent that is a comment on whatever content, the reply is
    answered by 201, stored under the content of the request with that
    parent, and counted on the post of the request. *)
Theorem addComment_accepts_a_parent_of_any_content (w : world) (uuidv4 : string) (now : Z)
    (contentId : string) (content : option string) (parent userId : string)
    (post : PostItem.t) (parentComment : InteractionItem.t) (u : UserItem.t) :
  faults w = [] →
  posts w !! contentId = Some post →
  parent ≠ "" →
  interactions w !! parent = Some parentComment →
  InteractionItem.type parentComment = "comment" →
  interactions w !! uuidv4 = None →
  users w !! userId = Some u →
  let w' := after (interactionController.addComment uuidv4 now [] contentId content
                     (Some parent) userId) w in
  result (interactionController.addComment uuidv4 now [] contentId content (Some parent)
            userId) w = Ok (Response 201 "")
  ∧ interactions w'
    = <[uuidv4 := InteractionItem.Build uuidv4 "comment" userId contentId
                    (Some (or_else content "")) (Some parent) now]> (interactions w)
  ∧ commentCount contentId w' = (commentCount contentId w + 1)%Z.
Proof.
  intros Hq Hp Hne Hparent Hty Hfresh Hu.
  destruct w as [us ps ixs ss ns rl pub em fs]; simpl in *; subst fs.
  assert (uuidv4 ≠ parent) as Hdiff by (intros ->; congruence).
  unfold result, after, commentCount, interactionController.addComment,
    interactionController.truthy, or_null, try_catch, Post.getById, Story.getById,
    Interaction.getById, Interaction.create, User.getById, property, bind, ret, throw,
    snsService.publishNotification, io_emit,
    dynamoDb.get, dynamoDb.put, dynamoDb.update, remote; simpl.
  rewrite Hp. simpl. rewrite decide_False by done. simpl.
  rewrite Hparent. simpl. rewrite bool_decide_eq_true_2 by done. simpl.
  rewrite Hfresh. simpl. rewrite Hu. simpl.
  rewrite Hp. simpl.
  destruct (PostItem.userId post) as [o|] eqn:Ho; simpl.
  - destruct (decide (o = "")); simpl;
      [|destruct (decide (o ≠ userId)); simpl];
      rewrite ?lookup_insert_ne, ?Hparent by done; simpl;
      (destruct (decide (InteractionItem.userId parentComment ≠ userId)); simpl;
       [destruct (us !! InteractionItem.userId parentComment); simpl|]);
      rewrite lookup_insert_eq; simpl; rewrite ?Ho; simpl;
      (split; [done|split; [done|]]);
      destruct post; simpl in *; unfold ADD; simpl; done.
  - rewrite ?lookup_insert_ne, ?Hparent by done; simpl;
      (destruct (decide (InteractionItem.userId parentComment ≠ userId)); simpl;
       [destruct (us !! InteractionItem.userId parentComment); simpl|]);
      rewrite lookup_insert_eq; simpl;
      (split; [done|split; [done|]]);
      destruct post; simpl in *; unfold ADD; simpl; done.
Qed.

Lemma addComment_accepts_a_parent_of_any_content_witness :
  result (interactionController.addComment "c2" 3000 [] "p2" (Some "me too") (Some "c1")
            "u1") world_p2 = Ok (Response 201 "")
  ∧ interactions (after (interactionController.addComment "c2" 3000 [] "p2"
                           (Some "me too") (Some "c1") "u1") world_p2) !! "c2"
    = Some (InteractionItem.Build "c2" "comment" "u1" "p2" (Some "me too") (Some "c1") 3000).
Proof.
  destruct (addComment_accepts_a_parent_of_any_content world_p2 "c2" 3000 "p2"
              (Some "me too") "c1" "u1" (post_at "p2" "u2" 2500)
              (comment_row "c1" 2000 None "u2" "p1" (Some "nice") None) alice)
    as (Hres & Hrows & _).
  - reflexivity.
  - vm_compute. reflexivity.
  - discriminate.
  - vm_compute. reflexivity.
  - reflexivity.
  - vm_compute. reflexivity.
  - vm_compute. reflexivity.
  - split; [exact Hres|]. rewrite Hrows. by rewrite lookup_insert_eq.
Defined.

(** X26: the first reply stored on a reel hides the reel.
    [Interaction.create] counts a comment on the Posts table under the
    content id, whatever the content is, so a reply on a reel makes a post
    item that holds the reel's id and [commentsCount: 1].  [addComment] looks
    for a post first: the first reply notifies the owner of the reel, and the
    next one on the reel finds the item without owner and notifies nobody.
    (The commenter replies to a comment of their own, so that no reply
    notification is due.) *)
Theorem comment_on_a_reel_makes_a_post (w : world) (c1 c2 : string) (now1 now2 : Z)
    (reelId : string) (content1 content2 : option string) (parent userId : string)
    (reel : StoryItem.t) (parentComment : InteractionItem.t) (u : UserItem.t) :
  faults w = [] →
  posts w !! reelId = None →
  stories w !! reelId = Some reel →
  StoryItem.userId reel ≠ "" →
  StoryItem.userId reel ≠ userId →
  users w !! userId = Some u →
  parent ≠ "" →
  interactions w !! parent = Some parentComment →
  InteractionItem.type parentComment = "comment" →
  InteractionItem.userId parentComment = userId →
  interactions w !! c1 = None → interactions w !! c2 = None → c1 ≠ c2 →
  let w1 := after (interactionController.addComment c1 now1 [] reelId content1 (Some parent)
                     userId) w in
  let w2 := after (interactionController.addComment c2 now2 [] reelId content2 (Some parent)
                     userId) w1 in
  posts w1 !! reelId = Some (PostItem.set_commentsCount (Some 1%Z) (PostItem.blank reelId))
  ∧ published w1
    = published w
      ++ [NotificationMessage.Build "comment" userId (Some (StoryItem.userId reel)) reelId
            "reel" (template (UserItem.username u) +:+ " commented on your reel") now1]
  ∧ result (interactionController.addComment c2 now2 [] reelId content2 (Some parent) userId)
      w1
    = Ok (Response 201 "")
  ∧ published w2 = published w1 ∧ emitted w2 = emitted w1
  ∧ commentCount reelId w2 = 2%Z.
Proof.
  intros Hq Hp Hs Hne Hother Hu Hparent Hrow Hty Hauthor Hc1 Hc2 Hdiff.
  destruct w as [us ps ixs ss ns rl pub em fs]; simpl in *; subst fs.
  assert (c1 ≠ parent) as Hd1 by (intros ->; congruence).
  assert (c2 ≠ parent) as Hd2 by (intros ->; congruence).
  set (message :=
         NotificationMessage.Build "comment" userId (Some (StoryItem.userId reel)) reelId
           "reel" (template (UserItem.username u) +:+ " commented on your reel") now1).
  set (ps1 := <[reelId := ADD_commentsCount 1 (PostItem.blank reelId)]> ps).
  set (ixs1 := <[c1 := InteractionItem.Build c1 "comment" userId reelId
                          (Some (or_else content1 "")) (Some parent) now1]> ixs).
  set (W1 := World us ps1 ixs1 ss ns rl (pub ++ [message]) em []).
  assert (interactionController.addComment c1 now1 [] reelId content1 (Some parent) userId
            (World us ps ixs ss ns rl pub em [])
          = (Ok (Response 201 ""), W1)) as H1.
  { unfold interactionController.addComment,
      interactionController.truthy, or_null, try_catch, Post.getById, Story.getById,
      Interaction.getById, Interaction.create, User.getById, property, bind, ret, throw,
      snsService.publishNotification, io_emit,
      dynamoDb.get, dynamoDb.put, dynamoDb.update, remote; simpl.
    rewrite Hp; simpl. rewrite Hs; simpl.
    rewrite (decide_False (P := parent = "")) by done; simpl.
    rewrite Hrow; simpl. rewrite bool_decide_eq_true_2 by done; simpl.
    rewrite Hc1; simpl. rewrite Hu; simpl. rewrite Hp; simpl.
    rewrite (decide_False (P := StoryItem.userId reel = "")) by done; simpl.
    rewrite decide_True by done; simpl.
    rewrite lookup_insert_ne, Hrow by done; simpl.
    rewrite decide_False by (intros H; by apply H). reflexivity. }
  assert (ps1 !! reelId = Some (ADD_commentsCount 1 (PostItem.blank reelId))) as Hp1
    by apply lookup_insert_eq.
  assert (ixs1 !! c2 = None) as Hc21 by (unfold ixs1; by rewrite lookup_insert_ne).
  assert (ixs1 !! parent = Some parentComment) as Hrow1
    by (unfold ixs1; by rewrite lookup_insert_ne).
  set (ps2 := <[reelId := ADD_commentsCount 1 (ADD_commentsCount 1 (PostItem.blank reelId))]>
                ps1).
  set (ixs2 := <[c2 := InteractionItem.Build c2 "comment" userId reelId
                          (Some (or_else content2 "")) (Some parent) now2]> ixs1).
  assert (interactionController.addComment c2 now2 [] reelId content2 (Some parent) userId W1
          = (Ok (Response 201 ""), World us ps2 ixs2 ss ns rl (pub ++ [message]) em []))
    as H2.
  { unfold W1. clearbody ps1 ixs1.
    unfold interactionController.addComment,
      interactionController.truthy, or_null, try_catch, Post.getById, Story.getById,
      Interaction.getById, Interaction.create, User.getById, property, bind, ret, throw,
      snsService.publishNotification, io_emit,
      dynamoDb.get, dynamoDb.put, dynamoDb.update, remote; simpl.
    rewrite Hp1; simpl.
    rewrite (decide_False (P := parent = "")) by done; simpl.
    rewrite Hrow1; simpl. rewrite bool_decide_eq_true_2 by done; simpl.
    rewrite Hc21; simpl. rewrite Hu; simpl. rewrite Hp1; simpl.
    rewrite lookup_insert_ne, Hrow1 by done; simpl.
    rewrite decide_False by (intros H; by apply H). reflexivity. }
  unfold result, after. rewrite H1. simpl. rewrite H2. simpl.
  split; [exact Hp1|]. split; [done|]. split; [done|]. split; [done|]. split; [done|].
  unfold commentCount, ps2. simpl. by rewrite lookup_insert_eq.
Qed.

Lemma comment_on_a_reel_makes_a_post_witness :
  posts (after (interactionController.addComment "c1" 3000 [] "r1" (Some "wow") (Some "c0")
                  "u2") world_r1) !! "r1"
  = Some (PostItem.set_commentsCount (Some 1%Z) (PostItem.blank "r1"))
  ∧ published
      (after (interactionController.addComment "c2" 3100 [] "r1" (Some "again") (Some "c0")
                "u2")
         (after (interactionController.addComment "c1" 3000 [] "r1" (Some "wow") (Some "c0")
                   "u2") world_r1))
    = [NotificationMessage.Build "comment" "u2" (Some "u1") "r1" "reel"
         "bob commented on your reel" 3000].
Proof.
  destruct (comment_on_a_reel_makes_a_post world_r1 "c1" "c2" 3000 3100 "r1" (Some "wow")
              (Some "again") "c0" "u2"
              (StoryItem.Build "r1" "reel" "u1" "https://cdn/r1.mp4" "video" "" []
                 1000 87400)
              (comment_row "c0" 2000 None "u2" "r1" (Some "first") None)
              (UserItem.Build "u2" (Some "bob") (Some "bob@example.org")
                 (Some None) None (Some "") (UserItem.Array []) (UserItem.Array [])
                 (Some 1000%Z) (Some 1000%Z)))
    as (Hpost & Hpub1 & _ & Hpub2 & _).
  - reflexivity.
  - vm_compute. reflexivity.
  - vm_compute. reflexivity.
  - discriminate.
  - discriminate.
  - vm_compute. reflexivity.
  - discriminate.
  - vm_compute. reflexivity.
  - reflexivity.
  - reflexivity.
  - vm_compute. reflexivity.
  - vm_compute. reflexivity.
  - discriminate.
  - split; [exact Hpost|]. rewrite Hpub2, Hpub1. reflexivity.
Defined.

(** X27: deleting a comment leaves its replies.  On a store that refuses
    nothing, [Interaction.delete] by the author of a comment removes that one
    row: every other row stays, so each reply to the comment is still stored
    and names a parent that is gone; no other post is written, and the
    counter of the post goes down by the one comment deleted. *)
Theorem delete_of_a_comment_leaves_its_replies (w : world) (interactionId actorId : string)
    (i : InteractionItem.t) :
  faults w = [] →
  interactions w !! interactionId = Some i →
  InteractionItem.userId i = actorId →
  InteractionItem.type i = "comment" →
  let w' := after (Interaction.delete interactionId actorId) w in
  interactions w' = delete interactionId (interactions w)
  ∧ (∀ k reply, interactions w !! k = Some reply →
                InteractionItem.parentId reply = Some interactionId → k ≠ interactionId →
                interactions w' !! k = Some reply
                ∧ interactions w' !! interactionId = None)
  ∧ (∀ c, c ≠ InteractionItem.contentId i → posts w' !! c = posts w !! c)
  ∧ commentCount (InteractionItem.contentId i) w'
    = (commentCount (InteractionItem.contentId i) w - 1)%Z.
Proof.
  intros Hq Hi Hactor Hty w'. unfold w'. clear w'.
  rewrite delete_after by done. rewrite Hi.
  rewrite decide_False by (intros H; by apply H). simpl. rewrite decide_True by done.
  destruct w as [us ps ixs ss ns rl pub em fs]; simpl in *.
  split; [done|]. split; [|split].
  - intros k reply Hk _ Hne. rewrite lookup_delete_ne by done.
    by rewrite lookup_delete_eq.
  - intros c Hc. by rewrite lookup_insert_ne.
  - unfold commentCount. simpl. rewrite lookup_insert_eq. simpl.
    destruct (ps !! InteractionItem.contentId i) as [p|]; simpl; unfold ADD; simpl; lia.
Qed.

Lemma delete_of_a_comment_leaves_its_replies_witness :
  interactions (after (Interaction.delete "c1" "u2") world_reply) !! "c2"
  = Some (InteractionItem.Build "c2" "comment" "u1" "p1" (Some "thanks") (Some "c1") 3000)
  ∧ interactions (after (Interaction.delete "c1" "u2") world_reply) !! "c1" = None.
Proof.
  destruct (delete_of_a_comment_leaves_its_replies world_reply "c1" "u2"
              (comment_row "c1" 2000 None "u2" "p1" (Some "nice") None))
    as (_ & Hreplies & _).
  - vm_compute. reflexivity.
  - vm_compute. reflexivity.
  - reflexivity.
  - reflexivity.
  - apply (Hreplies "c2"
             (InteractionItem.Build "c2" "comment" "u1" "p1" (Some "thanks") (Some "c1")
                3000)).
    + vm_compute. reflexivity.
    + reflexivity.
    + discriminate.
Defined.

(** ** The text of a cursor *)

Local Open Scope Z_scope.

Lemma alphabet_char (x : Z) : 0 <= x < 64 → base64_char (base64.alphabet x) = true.
Proof.
  intros Hx.
  assert (∃ n : nat, (n < 64)%nat ∧ x = Z.of_nat n) as (n & Hn & ->)
    by (exists (Z.to_nat x); lia).
  do 64 (destruct n as [|n]; [vm_compute; reflexivity|]). lia.
Qed.

Lemma base64_encode_text (bytes : list Z) :
  Forall is_byte bytes →
  Forall (λ c, base64_char c = true) (base64.encode bytes)
  ∧ ∃ k : nat, length (base64.encode bytes) = (4 * k)%nat ∧ (bytes ≠ [] → (0 < k)%nat).
Proof.
  unfold is_byte.
  induction bytes as [|a|a b|a b c rest IH] using list_ind3; intros Hb.
  - split; [constructor|]. by exists 0%nat.
  - apply Forall_cons in Hb as [Ha _]. split.
    + simpl. repeat constructor; try apply alphabet_char; sextet_range.
    + exists 1%nat. split; [done|lia].
  - apply Forall_cons in Hb as [Ha Hb]. apply Forall_cons in Hb as [Hb _]. split.
    + simpl. repeat constructor; try apply alphabet_char; sextet_range.
    + exists 1%nat. split; [done|lia].
  - apply Forall_cons in Hb as [Ha Hb]. apply Forall_cons in Hb as [Hb Hc].
    apply Forall_cons in Hc as [Hc Hrest].
    destruct (IH Hrest) as (Htext & k & Hlen & _). split.
    + change (base64.encode (a :: b :: c :: rest))
        with (base64.alphabet (a / 4) :: base64.alphabet (a mod 4 * 16 + b / 16)
                :: base64.alphabet (b mod 16 * 4 + c / 64) :: base64.alphabet (c mod 64)
                :: base64.encode rest).
      repeat (constructor; [apply alphabet_char; sextet_range|]). exact Htext.
    + exists (S k). split; [|lia].
      change (base64.encode (a :: b :: c :: rest))
        with (base64.alphabet (a / 4) :: base64.alphabet (a mod 4 * 16 + b / 16)
                :: base64.alphabet (b mod 16 * 4 + c / 64) :: base64.alphabet (c mod 64)
                :: base64.encode rest).
      simpl length. rewrite Hlen. lia.
Qed.

(** X28: the cursor of a position is text that the handlers take back.  For
    every position that JSON carries without loss, the cursor written by the
    encoding of the listings is a non-empty text of the characters A-Z, a-z,
    0-9, [+], [/] and [=], in groups of four; being non-empty it passes the
    test [if (lastKey)] of the handlers, and their decoding gives the
    position back. *)
Theorem cursor_is_text_that_decodes (p : json) :
  serializable p = true →
  Forall (λ c, base64_char c = true) (nextKey p)
  ∧ (∃ k : nat, length (nextKey p) = (4 * k)%nat ∧ (0 < k)%nat)
  ∧ decode_lastKey (Some (nextKey p)) = inr p.
Proof.
  intros Hser. pose proof (stringify_scalar p Hser) as Htext.
  pose proof (utf8_encode_bytes _ Htext) as Hbytes.
  destruct (base64_encode_text _ Hbytes) as (Hchars & k & Hlen & Hk).
  assert (utf8.encode (JSON.stringify p) ≠ []) as Hne.
  { destruct (stringify_head p) as (c & t & -> & _).
    change (utf8.encode (c :: t)) with (utf8.encode_code_point c ++ utf8.encode t).
    unfold utf8.encode_code_point.
    destruct (c <? 128); [done|]. destruct (c <? 2048); [done|].
    destruct ((55296 <=? c) && (c <=? 57343)); [done|]. by destruct (c <? 65536). }
  unfold nextKey in *. split; [done|]. split; [exists k; auto|].
  unfold decode_lastKey.
  destruct (base64.encode (utf8.encode (JSON.stringify p))) as [|c s] eqn:Henc.
  - specialize (Hk Hne). simpl in Hlen. lia.
  - rewrite <- Henc. unfold parse_lastKey.
    rewrite base64_decode_encode by done.
    rewrite utf8_decode_encode by by apply forallb_scalar.
    by rewrite JSON_parse_stringify.
Qed.

Lemma cursor_is_text_that_decodes_witness :
  Forall (λ c, base64_char c = true) (nextKey lastEvaluatedKey_c1)
  ∧ decode_lastKey (Some (nextKey lastEvaluatedKey_c1)) = inr lastEvaluatedKey_c1.
Proof.
  destruct (cursor_is_text_that_decodes lastEvaluatedKey_c1) as (Hchars & _ & Hdecode).
  - vm_compute. reflexivity.
  - split; [exact Hchars|exact Hdecode].
Defined.

Local Close Scope Z_scope.
